(** * robotough.net dashboard: a shallow embedding of [scripts.js]

    The page script is a set of independent widgets over the browser's
    [localStorage].  This development embeds the widgets' functions over an
    explicit page state (storage, the DOM anchors, registered listeners) and
    a small model of the JavaScript values that [JSON.parse] produces.

    Conventions.
    - A JavaScript string is its sequence of UTF-16 code units, a [list N].
    - A completion is either a normal value or a thrown error.
    - Numbers occurring inside stored JSON are kept as exact decimals
      (mantissa and power of ten); rounding to binary64 is not modelled and
      no statement below depends on the numeric value of a stored number. *)

From Stdlib Require Import ZArith NArith List String Ascii Bool Lia.
From Stdlib Require Import DecimalString DecimalZ DecimalN.
From stdpp Require Import base tactics option list gmap strings.

Local Open Scope N_scope.

(** ** JavaScript strings *)

Abbreviation jsstring := (list N).

(** [js "abc"] is the JavaScript string literal ['abc'] (ASCII source text). *)
Definition js (s : string) : jsstring :=
  List.map (fun a => N.of_nat (nat_of_ascii a)) (list_ascii_of_string s).

(** JSON text written with ['] standing for the double quote. *)
Definition jsq (s : string) : jsstring :=
  List.map (fun c => if c =? 39 then 34 else c) (js s).

(** WhiteSpace and LineTerminator code points, as [String.prototype.trim]
    strips them. *)
Definition is_js_space (c : N) : bool :=
  (c =? 9) || (c =? 10) || (c =? 11) || (c =? 12) || (c =? 13) || (c =? 32)
  || (c =? 160) || (c =? 5760) || ((8192 <=? c) && (c <=? 8202))
  || (c =? 8232) || (c =? 8233) || (c =? 8239) || (c =? 8287)
  || (c =? 12288) || (c =? 65279).

Fixpoint trimStart (s : jsstring) : jsstring :=
  match s with
  | c :: r => if is_js_space c then trimStart r else s
  | [] => []
  end.

Definition trimEnd (s : jsstring) : jsstring := rev (trimStart (rev s)).

Definition trim (s : jsstring) : jsstring := trimEnd (trimStart s).

(** [String(n)] for a natural number and for an integer-valued number:
    canonical decimal digits, a leading minus sign when negative. *)
Definition N_to_js (n : N) : jsstring :=
  js (NilEmpty.string_of_uint (N.to_uint n)).

Definition Z_to_js (z : Z) : jsstring :=
  js (NilEmpty.string_of_int (Z.to_int z)).

(** Strict equality [===] on strings. *)
Definition str_eqb (a b : jsstring) : bool := bool_decide (a = b).

(** ** Completions and JavaScript values *)

Inductive error : Type :=
| SyntaxError
| TypeError
| OutOfFuel.

Inductive completion (A : Type) : Type :=
| Normal (a : A)
| Throw (e : error).

Arguments Normal {A} a.
Arguments Throw {A} e.

#[global] Instance completion_ret : MRet completion := fun A a => Normal a.

#[global] Instance completion_bind : MBind completion := fun A B k c =>
  match c with
  | Normal a => k a
  | Throw e => Throw e
  end.

(** The values [JSON.parse] can produce.  [Num m e] is the number
    [m * 10^e].  An object is its list of own properties in the order
    JavaScript enumerates them. *)
#[warnings="-register-all"]
Inductive value : Type :=
| Null
| Bool (b : bool)
| Num (m e : Z)
| Str (s : jsstring)
| Arr (l : list value)
| Obj (l : list (jsstring * value)).

(** ToBoolean. *)
Definition truthy (v : value) : bool :=
  match v with
  | Null => false
  | Bool b => b
  | Num m _ => negb (m =? 0)%Z
  | Str s => match s with [] => false | _ => true end
  | Arr _ | Obj _ => true
  end.

(** *** Own properties of ordinary objects *)

Definition is_digit (c : N) : bool := (48 <=? c) && (c <=? 57).

Definition digits_value (s : jsstring) : N :=
  fold_left (fun acc d => 10 * acc + (d - 48)) s 0.

(** An array index is a canonical numeric string below [2^32 - 1]. *)
Definition array_index (k : jsstring) : option N :=
  match k with
  | [] => None
  | c :: r =>
      if forallb is_digit k && (negb (c =? 48) || match r with [] => true | _ => false end)
         && (length k <=? 10)%nat && (digits_value k <=? 4294967294)
      then Some (digits_value k)
      else None
  end.

Fixpoint obj_get (k : jsstring) (l : list (jsstring * value)) : option value :=
  match l with
  | [] => None
  | (k', v) :: r => if str_eqb k k' then Some v else obj_get k r
  end.

Fixpoint obj_replace (k : jsstring) (v : value) (l : list (jsstring * value)) :
  list (jsstring * value) :=
  match l with
  | [] => []
  | (k', v') :: r => if str_eqb k k' then (k', v) :: r else (k', v') :: obj_replace k v r
  end.

(** A new array-index key goes before the first key that is a larger index
    or no index at all. *)
Fixpoint obj_insert_index (i : N) (k : jsstring) (v : value)
  (l : list (jsstring * value)) : list (jsstring * value) :=
  match l with
  | [] => [(k, v)]
  | (k', v') :: r =>
      match array_index k' with
      | Some j => if i <? j then (k, v) :: l else (k', v') :: obj_insert_index i k v r
      | None => (k, v) :: l
      end
  end.

(** CreateDataProperty / ordinary [[Set]] on an own data property: an
    existing key keeps its place, a new array index is placed in ascending
    numeric order before all other keys, any other new key goes last. *)
Definition obj_set (k : jsstring) (v : value) (l : list (jsstring * value)) :
  list (jsstring * value) :=
  match obj_get k l with
  | Some _ => obj_replace k v l
  | None =>
      match array_index k with
      | Some i => obj_insert_index i k v l
      | None => l ++ [(k, v)]
      end
  end.

(** ** JSON text: [JSON.stringify] and [JSON.parse]

    Code units are written as numbers: 34 is the double quote, 92 the
    backslash, 47 the slash, 117 [u], 98 [b], 102 [f], 110 [n], 114 [r],
    116 [t], 44 the comma, 58 the colon, 91 and 93 the square brackets, 123
    and 125 the braces, 45 and 43 the signs, 46 the dot, 48 to 57 the
    digits, 101 and 69 the exponent letters. *)

Module JSON.

(** *** Serialisation *)

Definition hex_digit (n : N) : N := if n <? 10 then 48 + n else 87 + n.

(** [\uXXXX] with lowercase hexadecimal digits. *)
Definition unicode_escape (c : N) : jsstring :=
  [92; 117; hex_digit (c / 4096 mod 16); hex_digit (c / 256 mod 16);
   hex_digit (c / 16 mod 16); hex_digit (c mod 16)].

Definition is_high_surrogate (c : N) : bool := (55296 <=? c) && (c <=? 56319).
Definition is_low_surrogate (c : N) : bool := (56320 <=? c) && (c <=? 57343).

(** One code unit that is no surrogate, as QuoteJSONString writes it. *)
Definition quote_unit (c : N) : jsstring :=
  if c =? 8 then [92; 98]
  else if c =? 9 then [92; 116]
  else if c =? 10 then [92; 110]
  else if c =? 12 then [92; 102]
  else if c =? 13 then [92; 114]
  else if c =? 34 then [92; 34]
  else if c =? 92 then [92; 92]
  else if c <? 32 then unicode_escape c
  else [c].

(** A surrogate pair is written as it is, a lone surrogate is escaped. *)
Fixpoint quote_units (s : jsstring) : jsstring :=
  match s with
  | [] => []
  | c :: r =>
      if is_high_surrogate c then
        match r with
        | d :: r' =>
            if is_low_surrogate d then c :: d :: quote_units r'
            else unicode_escape c ++ quote_units r
        | [] => unicode_escape c
        end
      else if is_low_surrogate c then unicode_escape c ++ quote_units r
      else quote_unit c ++ quote_units r
  end.

Definition quote (s : jsstring) : jsstring := 34 :: quote_units s ++ [34].

(** Trailing zeros of the mantissa moved into the exponent. *)
Fixpoint strip_zeros (fuel : nat) (m e : Z) : Z * Z :=
  match fuel with
  | O => (m, e)
  | S fuel =>
      if (m =? 0)%Z then (0, 0)%Z
      else if (m mod 10 =? 0)%Z then strip_zeros fuel (m / 10)%Z (e + 1)%Z
      else (m, e)
  end.

Definition normalize (m e : Z) : Z * Z :=
  strip_zeros (S (Z.to_nat (Z.log2 (Z.abs m)))) m e.

(** Number::toString on an exact decimal. *)
Definition number_to_js (m e : Z) : jsstring :=
  let '(m, e) := normalize m e in
  if (m =? 0)%Z then js "0"
  else
    let ds := N_to_js (Z.abs_N m) in
    let k := Z.of_nat (length ds) in
    let n := (k + e)%Z in
    let sign := if (m <? 0)%Z then js "-" else [] in
    sign ++
    (if (k <=? n)%Z && (n <=? 21)%Z then ds ++ repeat 48 (Z.to_nat (n - k))
     else if (0 <? n)%Z && (n <=? 21)%Z then
       take (Z.to_nat n) ds ++ js "." ++ drop (Z.to_nat n) ds
     else if (-6 <? n)%Z && (n <=? 0)%Z then
       js "0." ++ repeat 48 (Z.to_nat (- n)) ++ ds
     else
       let x := (n - 1)%Z in
       let es := (if (x <? 0)%Z then js "e-" else js "e+") ++ N_to_js (Z.abs_N x) in
       match ds with
       | [d] => d :: es
       | d :: r => d :: js "." ++ r ++ es
       | [] => es
       end).

Fixpoint join (sep : jsstring) (l : list jsstring) : jsstring :=
  match l with
  | [] => []
  | [x] => x
  | x :: r => x ++ sep ++ join sep r
  end.

(** [JSON.stringify(v)] with no replacer and no indentation. *)
Fixpoint stringify (v : value) : jsstring :=
  match v with
  | Null => js "null"
  | Bool true => js "true"
  | Bool false => js "false"
  | Num m e => number_to_js m e
  | Str s => quote s
  | Arr l => js "[" ++ join (js ",") (List.map stringify l) ++ js "]"
  | Obj l =>
      js "{" ++
      join (js ",") (List.map (fun kv => quote (fst kv) ++ js ":" ++ stringify (snd kv)) l)
      ++ js "}"
  end.

(** *** Parsing *)

(** JSONWhiteSpace: tab, line feed, carriage return, space. *)
Definition is_json_ws (c : N) : bool :=
  (c =? 9) || (c =? 10) || (c =? 13) || (c =? 32).

Fixpoint skip_ws (s : jsstring) : jsstring :=
  match s with
  | c :: r => if is_json_ws c then skip_ws r else s
  | [] => []
  end.

Definition hex_value (c : N) : option N :=
  if (48 <=? c) && (c <=? 57) then Some (c - 48)
  else if (97 <=? c) && (c <=? 102) then Some (c - 87)
  else if (65 <=? c) && (c <=? 70) then Some (c - 55)
  else None.

Definition hex4 (a b c d : N) : option N :=
  a ← hex_value a; b ← hex_value b; c ← hex_value c; d ← hex_value d;
  Some (4096 * a + 256 * b + 16 * c + d).

(** The code unit a one-character escape stands for. *)
Definition simple_escape (c : N) : option N :=
  if c =? 34 then Some 34
  else if c =? 47 then Some 47
  else if c =? 92 then Some 92
  else if c =? 98 then Some 8
  else if c =? 102 then Some 12
  else if c =? 110 then Some 10
  else if c =? 114 then Some 13
  else if c =? 116 then Some 9
  else None.

Definition cons_fst {A B : Type} (a : A) (r : option (list A * B)) : option (list A * B) :=
  match r with
  | Some (l, b) => Some (a :: l, b)
  | None => None
  end.

(** The characters of a string literal after its opening quote, up to and
    including the closing quote; [None] is a syntax error. *)
Fixpoint parse_chars (s : jsstring) : option (jsstring * jsstring) :=
  match s with
  | [] => None
  | c :: r =>
      if c =? 34 then Some ([], r)
      else if c =? 92 then
        match r with
        | [] => None
        | x :: r1 =>
            if x =? 117 then
              match r1 with
              | h1 :: h2 :: h3 :: h4 :: r2 =>
                  match hex4 h1 h2 h3 h4 with
                  | Some u => cons_fst u (parse_chars r2)
                  | None => None
                  end
              | _ => None
              end
            else
              match simple_escape x with
              | Some u => cons_fst u (parse_chars r1)
              | None => None
              end
        end
      else if c <? 32 then None
      else cons_fst c (parse_chars r)
  end.

(** The longest prefix of decimal digits, and what follows it. *)
Fixpoint span_digits (s : jsstring) : jsstring * jsstring :=
  match s with
  | c :: r =>
      if is_digit c then let '(ds, r') := span_digits r in (c :: ds, r') else ([], s)
  | [] => ([], [])
  end.

(** A number literal: an optional minus sign; an integer part that is a
    single zero or starts with a non-zero digit; an optional fraction (a dot
    and at least one digit); an optional exponent ([e] or [E], an optional
    sign, at least one digit). *)
Definition parse_sign (s : jsstring) : bool * jsstring :=
  match s with
  | c :: r => if c =? 45 then (true, r) else (false, s)
  | [] => (false, s)
  end.

Definition parse_int (s : jsstring) : option (jsstring * jsstring) :=
  match s with
  | c :: r =>
      if c =? 48 then Some ([c], r)
      else if is_digit c then Some (span_digits s)
      else None
  | [] => None
  end.

Definition parse_frac (s : jsstring) : option (jsstring * jsstring) :=
  match s with
  | c :: r =>
      if c =? 46 then
        match span_digits r with
        | ([], _) => None
        | (ds, r') => Some (ds, r')
        end
      else Some ([], s)
  | [] => Some ([], s)
  end.

Definition parse_exp_sign (s : jsstring) : bool * jsstring :=
  match s with
  | d :: r => if d =? 45 then (true, r) else if d =? 43 then (false, r) else (false, s)
  | [] => (false, s)
  end.

Definition parse_exp (s : jsstring) : option (Z * jsstring) :=
  match s with
  | c :: r =>
      if (c =? 101) || (c =? 69) then
        let '(eneg, r) := parse_exp_sign r in
        match span_digits r with
        | ([], _) => None
        | (ds, r') =>
            let x := Z.of_N (digits_value ds) in
            Some (if eneg then (- x)%Z else x, r')
        end
      else Some (0%Z, s)
  | [] => Some (0%Z, s)
  end.

Definition parse_number (s : jsstring) : option (Z * Z * jsstring) :=
  let '(neg, s) := parse_sign s in
  '(int, s) ← parse_int s;
  '(frac, s) ← parse_frac s;
  '(ex, s) ← parse_exp s;
  let m := Z.of_N (digits_value (int ++ frac)) in
  let '(m, e) := normalize (if neg then (- m)%Z else m) (ex - Z.of_nat (length frac))%Z in
  Some (m, e, s).

Fixpoint strip_prefix (p s : jsstring) : option jsstring :=
  match p, s with
  | [], _ => Some s
  | a :: p', b :: s' => if a =? b then strip_prefix p' s' else None
  | _ :: _, [] => None
  end.

(** Result of a parser: a value and the unread input, a syntax error, or
    recursion fuel exhausted. *)
Inductive presult (A : Type) : Type :=
| POk (a : A) (rest : jsstring)
| PSyntax
| PFuel.

Arguments POk {A} a rest.
Arguments PSyntax {A}.
Arguments PFuel {A}.

(** A literal name, a number, or a syntax error. *)
Definition parse_atom (s : jsstring) : presult value :=
  match strip_prefix (js "null") s with
  | Some r => POk Null r
  | None =>
  match strip_prefix (js "true") s with
  | Some r => POk (Bool true) r
  | None =>
  match strip_prefix (js "false") s with
  | Some r => POk (Bool false) r
  | None =>
  match parse_number s with
  | Some (m, e, r) => POk (Num m e) r
  | None => PSyntax
  end end end end.

(** Recursive descent.  [parse_value] reads one value after optional white
    space; [parse_elements] reads the elements of a non-empty array up to
    its closing bracket; [parse_members] reads the members of a non-empty
    object up to its closing brace, defining each property on the object
    read so far (a repeated key keeps its first place and its last
    value). *)
Fixpoint parse_value (fuel : nat) (s : jsstring) : presult value :=
  match fuel with
  | O => PFuel
  | S fuel =>
      match skip_ws s with
      | [] => PSyntax
      | c :: r =>
          if c =? 123 then
            match skip_ws r with
            | d :: r' =>
                if d =? 125 then POk (Obj []) r'
                else
                  match parse_members fuel r [] with
                  | POk l r'' => POk (Obj l) r''
                  | PSyntax => PSyntax
                  | PFuel => PFuel
                  end
            | [] => PSyntax
            end
          else if c =? 91 then
            match skip_ws r with
            | d :: r' =>
                if d =? 93 then POk (Arr []) r'
                else
                  match parse_elements fuel r with
                  | POk l r'' => POk (Arr l) r''
                  | PSyntax => PSyntax
                  | PFuel => PFuel
                  end
            | [] => PSyntax
            end
          else if c =? 34 then
            match parse_chars r with
            | Some (str, r') => POk (Str str) r'
            | None => PSyntax
            end
          else parse_atom (c :: r)
      end
  end
with parse_elements (fuel : nat) (s : jsstring) : presult (list value) :=
  match fuel with
  | O => PFuel
  | S fuel =>
      match parse_value fuel s with
      | POk v r =>
          match skip_ws r with
          | c :: r' =>
              if c =? 44 then
                match parse_elements fuel r' with
                | POk vs r'' => POk (v :: vs) r''
                | PSyntax => PSyntax
                | PFuel => PFuel
                end
              else if c =? 93 then POk [v] r'
              else PSyntax
          | [] => PSyntax
          end
      | PSyntax => PSyntax
      | PFuel => PFuel
      end
  end
with parse_members (fuel : nat) (s : jsstring) (acc : list (jsstring * value)) :
  presult (list (jsstring * value)) :=
  match fuel with
  | O => PFuel
  | S fuel =>
      match skip_ws s with
      | c :: r =>
          if c =? 34 then
            match parse_chars r with
            | Some (k, r1) =>
                match skip_ws r1 with
                | d :: r2 =>
                    if d =? 58 then
                      match parse_value fuel r2 with
                      | POk v r3 =>
                          match skip_ws r3 with
                          | x :: r4 =>
                              if x =? 44 then parse_members fuel r4 (obj_set k v acc)
                              else if x =? 125 then POk (obj_set k v acc) r4
                              else PSyntax
                          | [] => PSyntax
                          end
                      | PSyntax => PSyntax
                      | PFuel => PFuel
                      end
                    else PSyntax
                | [] => PSyntax
                end
            | None => PSyntax
            end
          else PSyntax
      | [] => PSyntax
      end
  end.

(** [JSON.parse(text)] with no reviver: one value, then only white space. *)
Definition parse (text : jsstring) : completion value :=
  match parse_value (2 * length text + 2) text with
  | POk v r =>
      match skip_ws r with
      | [] => Normal v
      | _ :: _ => Throw SyntaxError
      end
  | PSyntax => Throw SyntaxError
  | PFuel => Throw OutOfFuel
  end.

End JSON.

(** ** Property access on parsed values

    The script is a classic (non-strict) script: an assignment to a
    property of a primitive value is silently dropped, reading a property
    of [null] or [undefined] throws a [TypeError].  [None] stands for
    [undefined]. *)

(** [v[i]] for an integer [i]. *)
Definition get_index (v : value) (i : Z) : completion (option value) :=
  match v with
  | Null => Throw TypeError
  | Arr l => Normal (if (0 <=? i)%Z then l !! Z.to_nat i else None)
  | Obj l => Normal (obj_get (Z_to_js i) l)
  | Str s =>
      Normal (if (0 <=? i)%Z then (fun c => Str [c]) <$> s !! Z.to_nat i else None)
  | Bool _ | Num _ _ => Normal None
  end.

(** [v.name] for a name that no built-in prototype defines (the script
    reads [text] and [checked] only). *)
Definition get_named (v : value) (name : jsstring) : completion (option value) :=
  match v with
  | Null => Throw TypeError
  | Obj l => Normal (obj_get name l)
  | _ => Normal None
  end.

(** [v[i] = x] for an integer [i].  Holes of a grown array are written as
    [Null]: they read as [undefined] and serialise as [null], and the
    script never reads them back before serialising. *)
Definition set_index (v : value) (i : Z) (x : value) : completion value :=
  match v with
  | Null => Throw TypeError
  | Arr l =>
      Normal
        (if (0 <=? i)%Z && (i <? 4294967295)%Z then
           let n := Z.to_nat i in
           if (n <? length l)%nat then Arr (<[n := x]> l)
           else Arr (l ++ repeat Null (n - length l) ++ [x])
         else Arr l)
  | Obj l => Normal (Obj (obj_set (Z_to_js i) x l))
  | Str _ | Bool _ | Num _ _ => Normal v
  end.

(** The object stored at [v[i]] replaced by its mutated version. *)
Definition put_index (v : value) (i : Z) (x : value) : value :=
  match v with
  | Arr l => if (0 <=? i)%Z then Arr (<[Z.to_nat i := x]> l) else v
  | Obj l => Obj (obj_replace (Z_to_js i) x l)
  | _ => v
  end.

Definition truthy_opt (o : option value) : bool :=
  match o with
  | Some v => truthy v
  | None => false
  end.

(** ToString.  An object prints as [[object Object]] unless it has an own
    [toString] property, which (never callable in parsed JSON) makes the
    conversion throw; an array joins its elements with commas, [null]
    elements printing as the empty string. *)
Fixpoint ToString (v : value) : completion jsstring :=
  match v with
  | Null => Normal (js "null")
  | Bool true => Normal (js "true")
  | Bool false => Normal (js "false")
  | Num m e => Normal (JSON.number_to_js m e)
  | Str s => Normal s
  | Arr l =>
      parts ← (fix elems (l : list value) : completion (list jsstring) :=
                 match l with
                 | [] => Normal []
                 | x :: r =>
                     s ← match x with Null => Normal [] | _ => ToString x end;
                     t ← elems r;
                     Normal (s :: t)
                 end) l;
      Normal (JSON.join (js ",") parts)
  | Obj l =>
      match obj_get (js "toString") l with
      | Some _ => Throw TypeError
      | None => Normal (js "[object Object]")
      end
  end.

(** Assignment to a nullable DOMString attribute ([textContent]):
    [undefined] and [null] give the empty string. *)
Definition to_text (o : option value) : completion jsstring :=
  match o with
  | None | Some Null => Normal []
  | Some v => ToString v
  end.

(** [Array.prototype.splice(start, 1)] on a list. *)
Definition splice1 (l : list value) (start : Z) : list value :=
  let len := Z.of_nat (length l) in
  let actualStart := if (start <? 0)%Z then Z.max (len + start) 0 else Z.min start len in
  let deleteCount := Z.min 1 (len - actualStart) in
  take (Z.to_nat actualStart) l ++ drop (Z.to_nat (actualStart + deleteCount)) l.

(** ** The page state *)

(** What the host's [Date] and string functions answer.  [today] is the
    day of the month, the zero-based month and the year of [new Date()];
    [firstDay y m] is [new Date(y, m, 1).getDay()] and [daysIn y m] is
    [new Date(y, m + 1, 0).getDate()], with 0 for [NaN] (a loop bounded by
    [NaN] does not run); [toUpperCase] is [String.prototype.toUpperCase];
    [pickerValue s] is the value the colour picker element holds after the
    assignment [value = s]: the value sanitisation of its input type (a
    colour input keeps a valid simple colour, in lower case, and replaces
    every other string by [#000000]; a text input keeps the string). *)
Record host : Type := {
  today : Z * Z * Z;
  firstDay : Z -> Z -> nat;
  daysIn : Z -> Z -> nat;
  toUpperCase : jsstring -> jsstring;
  pickerValue : jsstring -> jsstring
}.

Record row : Type := {
  row_index : nat;
  row_completed : bool;
  row_text : jsstring
}.

Inductive cell : Type :=
| EmptyDay
| Day (day : nat) (date : jsstring) (highlight : bool) (note : jsstring).

Inductive effect : Type :=
| ConsoleLog (msg : jsstring)
| ConsoleError (msg : jsstring)
| Alert (msg : jsstring)
| Navigate (url : jsstring)
| VideoPlay
| ConsoleWarn (msg detail : jsstring).

Inductive listener : Type :=
| HamburgerClick
| WallpaperClick
| NotepadInput
| KeyboardClick
| InputBoxKeypress
| PrevMonthClick
| NextMonthClick
| ColorInput
| ColorChange.

Inductive timer : Type :=
| UpdateClockEvery (ms : N).

(** [anchors]: the ids of the elements the document has ([.video-container]
    stands for the element found by that class selector).
    [localStorage]: the stored strings; [writes]: the calls of [setItem]
    made so far, oldest first.
    [props]: current [textContent], [value], style and class entries of
    elements, by element and property name; an absent entry is the empty
    string.  [rows]: the children of [#checklist], each with its two click
    listeners bound to [row_index].  [cells]: the [.day] children of
    [#calendar-body].  [notesEnv]: the [localStorageKey] and the shared
    [savedNotes] object captured by the input listeners of the rendered
    days.  [effects]: alerts, navigation and console output, oldest
    first. *)
Record page : Type := {
  anchors : gset string;
  localStorage : gmap jsstring jsstring;
  writes : list (jsstring * jsstring);
  props : gmap (string * string) jsstring;
  rows : list row;
  cells : list cell;
  notesEnv : option (jsstring * value);
  listeners : list listener;
  timers : list timer;
  currentMonth : Z;
  currentYear : Z;
  effects : list effect
}.

Definition with_localStorage (f : gmap jsstring jsstring -> gmap jsstring jsstring)
  (p : page) : page :=
  {| anchors := anchors p; localStorage := f (localStorage p); writes := writes p;
     props := props p;
     rows := rows p; cells := cells p; notesEnv := notesEnv p;
     listeners := listeners p; timers := timers p;
     currentMonth := currentMonth p; currentYear := currentYear p;
     effects := effects p |}.

Definition with_writes (f : list (jsstring * jsstring) -> list (jsstring * jsstring))
  (p : page) : page :=
  {| anchors := anchors p; localStorage := localStorage p; writes := f (writes p);
     props := props p;
     rows := rows p; cells := cells p; notesEnv := notesEnv p;
     listeners := listeners p; timers := timers p;
     currentMonth := currentMonth p; currentYear := currentYear p;
     effects := effects p |}.

Definition with_props (f : gmap (string * string) jsstring -> gmap (string * string) jsstring)
  (p : page) : page :=
  {| anchors := anchors p; localStorage := localStorage p; writes := writes p;
     props := f (props p);
     rows := rows p; cells := cells p; notesEnv := notesEnv p;
     listeners := listeners p; timers := timers p;
     currentMonth := currentMonth p; currentYear := currentYear p;
     effects := effects p |}.

Definition with_rows (f : list row -> list row) (p : page) : page :=
  {| anchors := anchors p; localStorage := localStorage p; writes := writes p;
     props := props p;
     rows := f (rows p); cells := cells p; notesEnv := notesEnv p;
     listeners := listeners p; timers := timers p;
     currentMonth := currentMonth p; currentYear := currentYear p;
     effects := effects p |}.

Definition with_cells (f : list cell -> list cell) (p : page) : page :=
  {| anchors := anchors p; localStorage := localStorage p; writes := writes p;
     props := props p;
     rows := rows p; cells := f (cells p); notesEnv := notesEnv p;
     listeners := listeners p; timers := timers p;
     currentMonth := currentMonth p; currentYear := currentYear p;
     effects := effects p |}.

Definition with_notesEnv (e : option (jsstring * value)) (p : page) : page :=
  {| anchors := anchors p; localStorage := localStorage p; writes := writes p;
     props := props p;
     rows := rows p; cells := cells p; notesEnv := e;
     listeners := listeners p; timers := timers p;
     currentMonth := currentMonth p; currentYear := currentYear p;
     effects := effects p |}.

Definition with_listeners (f : list listener -> list listener) (p : page) : page :=
  {| anchors := anchors p; localStorage := localStorage p; writes := writes p;
     props := props p;
     rows := rows p; cells := cells p; notesEnv := notesEnv p;
     listeners := f (listeners p); timers := timers p;
     currentMonth := currentMonth p; currentYear := currentYear p;
     effects := effects p |}.

Definition with_timers (f : list timer -> list timer) (p : page) : page :=
  {| anchors := anchors p; localStorage := localStorage p; writes := writes p;
     props := props p;
     rows := rows p; cells := cells p; notesEnv := notesEnv p;
     listeners := listeners p; timers := f (timers p);
     currentMonth := currentMonth p; currentYear := currentYear p;
     effects := effects p |}.

Definition with_month (m y : Z) (p : page) : page :=
  {| anchors := anchors p; localStorage := localStorage p; writes := writes p;
     props := props p;
     rows := rows p; cells := cells p; notesEnv := notesEnv p;
     listeners := listeners p; timers := timers p;
     currentMonth := m; currentYear := y;
     effects := effects p |}.

Definition with_effects (f : list effect -> list effect) (p : page) : page :=
  {| anchors := anchors p; localStorage := localStorage p; writes := writes p;
     props := props p;
     rows := rows p; cells := cells p; notesEnv := notesEnv p;
     listeners := listeners p; timers := timers p;
     currentMonth := currentMonth p; currentYear := currentYear p;
     effects := f (effects p) |}.

(** [localStorage.getItem]: [None] is [null]. *)
Definition getItem (k : jsstring) (p : page) : option jsstring := localStorage p !! k.

(** [localStorage.setItem]: the stored string is replaced and the call is
    logged. *)
Definition setItem (k v : jsstring) (p : page) : page :=
  with_writes (fun l => l ++ [(k, v)]) (with_localStorage <[k := v]> p).

(** [getItem(k) || d]: a missing or empty stored string gives [d]. *)
Definition getItem_or (k d : jsstring) (p : page) : jsstring :=
  match getItem k p with
  | Some (c :: s) => c :: s
  | Some [] | None => d
  end.

Definition has (p : page) (id : string) : bool := bool_decide (id ∈ anchors p).

Definition prop (p : page) (id name : string) : jsstring :=
  default [] (props p !! (id, name)).

Definition set_prop (id name : string) (v : jsstring) (p : page) : page :=
  with_props <[(id, name) := v]> p.

Definition emit (e : effect) (p : page) : page := with_effects (fun l => l ++ [e]) p.

Definition addEventListener (l : listener) (p : page) : page :=
  with_listeners (fun ls => ls ++ [l]) p.

Definition setInterval (t : timer) (p : page) : page :=
  with_timers (fun ts => ts ++ [t]) p.

(** The result of running a function of the script: it returned, or it
    threw, in either case leaving a page state behind. *)
Inductive outcome : Type :=
| Done (p : page)
| Raised (e : error) (p : page).

Definition final (o : outcome) : page :=
  match o with
  | Done p | Raised _ p => p
  end.

Definition and_then (o : outcome) (k : page -> outcome) : outcome :=
  match o with
  | Done p => k p
  | Raised e p => Raised e p
  end.

(** [getElement(id, required)]: whether the element exists; a missing
    required element is reported on the console. *)
Definition getElement (id : string) (required : bool) (p : page) : bool * page :=
  let found := has p id in
  (found,
   if required then
     if found then p
     else emit (ConsoleError (js "Required element with ID " ++ [34] ++ js id ++ [34]
                              ++ js " not found.")) p
   else p).

(** A document with the given anchors and stored strings, showing
    [month] of [year], before the script has run. *)
Definition fresh_page (ids : list string) (stored : list (jsstring * jsstring))
  (month year : Z) : page :=
  {| anchors := list_to_set ids; localStorage := list_to_map stored; writes := [];
     props := ∅;
     rows := []; cells := []; notesEnv := None; listeners := []; timers := [];
     currentMonth := month; currentYear := year; effects := [] |}.

(** ** Regular expressions

    The fragment the script's two patterns are written in: literal
    characters, character classes given by ranges, the optional and the
    counted repetition, sequencing and capturing groups.  Matching is by
    backtracking with a continuation; a group records the text it consumed.
    Groups are numbered in the order they close, which for patterns without
    nested groups is the order of their opening parentheses. *)

Module Regex.

Inductive regex : Type :=
| Empty
| Lit (c : N)
| Class (ranges : list (N * N))
| Opt (r : regex)
| Rep (n : nat) (r : regex)
| Seq (r1 r2 : regex)
| Group (r : regex).

Definition in_ranges (ranges : list (N * N)) (c : N) : bool :=
  existsb (fun '(lo, hi) => (lo <=? c) && (c <=? hi)) ranges.

Definition ascii_upper (c : N) : N := if (97 <=? c) && (c <=? 122) then c - 32 else c.
Definition ascii_lower (c : N) : N := if (65 <=? c) && (c <=? 90) then c + 32 else c.

(** Whether [c] matches a pattern character [m] or a class, with the [i]
    flag or without.  Without the [u] flag a character above U+007F is
    never canonicalised to an ASCII character, so for ASCII patterns only
    the ASCII case pairs are identified. *)
Definition lit_matches (ignoreCase : bool) (m c : N) : bool :=
  (m =? c) || (ignoreCase && (m <? 128) && (c <? 128) && (ascii_upper m =? ascii_upper c)).

Definition class_matches (ignoreCase : bool) (ranges : list (N * N)) (c : N) : bool :=
  in_ranges ranges c
  || (ignoreCase && (c <? 128)
      && (in_ranges ranges (ascii_upper c) || in_ranges ranges (ascii_lower c))).

Section Matcher.

Variable ignoreCase : bool.
Variable A : Type.

Fixpoint rmatch (r : regex) (s : jsstring) (caps : list jsstring)
  (k : jsstring -> list jsstring -> option A) {struct r} : option A :=
  match r with
  | Empty => k s caps
  | Lit m =>
      match s with
      | c :: s' => if lit_matches ignoreCase m c then k s' caps else None
      | [] => None
      end
  | Class ranges =>
      match s with
      | c :: s' => if class_matches ignoreCase ranges c then k s' caps else None
      | [] => None
      end
  | Opt r =>
      match rmatch r s caps k with
      | Some x => Some x
      | None => k s caps
      end
  | Rep n r =>
      (fix rep (n : nat) (s : jsstring) (caps : list jsstring) {struct n} : option A :=
         match n with
         | O => k s caps
         | S n => rmatch r s caps (rep n)
         end) n s caps
  | Seq r1 r2 => rmatch r1 s caps (fun s' caps' => rmatch r2 s' caps' k)
  | Group r =>
      rmatch r s caps
        (fun s' caps' => k s' (caps' ++ [take (length s - length s') s]))
  end.

End Matcher.

(** [/^r$/.exec(s)]: the captured groups when [r] matches all of [s]. *)
Definition exec_anchored (ignoreCase : bool) (r : regex) (s : jsstring) :
  option (list jsstring) :=
  rmatch ignoreCase (list jsstring) r s []
    (fun rest caps => match rest with [] => Some caps | _ :: _ => None end).

End Regex.

(** [parseInt(s, 16)]; [None] is [NaN]. *)
Definition hex_digit_value (c : N) : option Z :=
  if (48 <=? c) && (c <=? 57) then Some (Z.of_N (c - 48))
  else if (97 <=? c) && (c <=? 102) then Some (Z.of_N (c - 87))
  else if (65 <=? c) && (c <=? 70) then Some (Z.of_N (c - 55))
  else None.

Fixpoint hex_prefix_value (s : jsstring) (acc : option Z) : option Z :=
  match s with
  | c :: r =>
      match hex_digit_value c with
      | Some d => hex_prefix_value r (Some (16 * default 0%Z acc + d)%Z)
      | None => acc
      end
  | [] => acc
  end.

Definition parseInt16 (s : jsstring) : option Z :=
  let s := trimStart s in
  let '(neg, s) := match s with
                   | c :: r => if c =? 45 then (true, r)
                               else if c =? 43 then (false, r) else (false, s)
                   | [] => (false, s)
                   end in
  let s := match s with
           | a :: b :: r => if (a =? 48) && ((b =? 120) || (b =? 88)) then r else s
           | _ => s
           end in
  (fun v => if neg then (- v)%Z else v) <$> hex_prefix_value s None.

(** A number spliced into a template literal. *)
Definition number_text (n : option Z) : jsstring :=
  match n with
  | Some z => Z_to_js z
  | None => js "NaN"
  end.

(** ** The widgets *)

Section Widgets.

Variable h : host.

(** *** 1. Clock *)

(** [time] and [date] are the formatted readings of [new Date()]. *)
Definition updateClock (time date : jsstring) (p : page) : page :=
  let '(clockElement, p) := getElement "clock" false p in
  let '(dateElement, p) := getElement "date" false p in
  let p := if clockElement then set_prop "clock" "textContent" time p else p in
  if dateElement then set_prop "date" "textContent" date p else p.

Definition initClock (time date : jsstring) (p : page) : page :=
  setInterval (UpdateClockEvery 1000) (updateClock time date p).

(** *** 2. Sidebar toggle *)

Definition initSidebarToggle (p : page) : page :=
  let '(hamburger, p) := getElement "hamburger-menu" false p in
  let '(sidebar, p) := getElement "sidebar" false p in
  if negb hamburger || negb sidebar then p
  else addEventListener HamburgerClick p.

Definition onHamburgerClick (p : page) : page :=
  match prop p "sidebar" "class:expanded" with
  | [] => set_prop "sidebar" "class:expanded" (js "expanded") p
  | _ :: _ => set_prop "sidebar" "class:expanded" [] p
  end.

(** *** 3. Wallpaper toggle *)

Definition WALLPAPER_STORAGE_KEY : jsstring := js "wallpaperState".

(** [video] tells whether the [video-background] element exists.
    [VideoPlay] is the call [video.play()]; the promise it returns is
    settled by the host after the script has run, and when the host rejects
    it the handler attached by [.catch] runs: [onPlayRejected] below, with
    the [message] of the rejection. *)
Definition setWallpaperState (video : bool) (state : jsstring) (p : page) : page :=
  let p :=
    if str_eqb state (js "video") && video then
      let p := set_prop ".video-container" "style.backgroundImage" (js "none") p in
      let p := set_prop "video-background" "style.display" (js "block") p in
      let p := emit VideoPlay p in
      set_prop "toggle-wallpaper-btn" "textContent" (js "Use Static Image") p
    else
      let p := set_prop ".video-container" "style.backgroundImage"
                 (js "url('images/stars21.png')") p in
      let p := if video then set_prop "video-background" "style.display" (js "none") p
               else p in
      set_prop "toggle-wallpaper-btn" "textContent" (js "Use Video Background") p in
  setItem WALLPAPER_STORAGE_KEY state p.

Definition onPlayRejected (message : jsstring) (p : page) : page :=
  emit (ConsoleWarn (js "Video autoplay prevented:") message) p.

(** The promises of [video.play()] not yet rejected: every call returns
    one, and each can be rejected at most once. *)
Definition plays (p : page) : nat :=
  length (List.filter (fun e => match e with VideoPlay => true | _ => false end) (effects p)).

Definition rejections (p : page) : nat :=
  length (List.filter (fun e => match e with ConsoleWarn _ _ => true | _ => false end)
            (effects p)).

Definition play_pending (p : page) : bool := (rejections p <? plays p)%nat.

Definition initWallpaperToggle (p : page) : page :=
  let '(toggleButton, p) := getElement "toggle-wallpaper-btn" false p in
  let videoContainer := has p ".video-container" in
  let '(video, p) := getElement "video-background" false p in
  if negb toggleButton || negb videoContainer then p
  else
    let savedState := getItem_or WALLPAPER_STORAGE_KEY (js "video") p in
    let p := setWallpaperState video savedState p in
    addEventListener WallpaperClick p.

Definition onWallpaperClick (p : page) : page :=
  let currentState :=
    match getItem WALLPAPER_STORAGE_KEY p with
    | Some s => if str_eqb s (js "video") then js "image" else js "video"
    | None => js "video"
    end in
  setWallpaperState (has p "video-background") currentState p.

(** *** 4. Notepad *)

Definition TEXTAREA_STORAGE_KEY : jsstring := js "notepadContent".

Definition initTextBoxStorage (p : page) : page :=
  let '(textarea, p) := getElement "notepad" false p in
  if negb textarea then p
  else
    let p :=
      match getItem TEXTAREA_STORAGE_KEY p with
      | Some (c :: s) => set_prop "notepad" "value" (c :: s) p
      | Some [] | None => p
      end in
    addEventListener NotepadInput p.

Definition onNotepadInput (p : page) : page :=
  setItem TEXTAREA_STORAGE_KEY (prop p "notepad" "value") p.

(** *** 5. Password gate *)

Definition ACCEPTED_PASSWORD : jsstring := js "twentyone".

Definition REJECTION_MESSAGE : jsstring := js "Incorrect Passcode. Try '1234'.".

Definition checkPassword (p : page) : page :=
  let '(passwordInput, p) := getElement "passwordInput" false p in
  if passwordInput && str_eqb (prop p "passwordInput" "value") ACCEPTED_PASSWORD
  then emit (Navigate (js "main.html")) p
  else emit (Alert REJECTION_MESSAGE) p.

Definition initPasswordProtection (p : page) : page :=
  let '(passwordInput, p) := getElement "passwordInput" false p in
  if negb passwordInput then p else p.

Definition initKeyboardInput (p : page) : page :=
  let '(keyboard, p) := getElement "keyboard" false p in
  let '(passwordInput, p) := getElement "passwordInput" false p in
  if negb keyboard || negb passwordInput then p
  else addEventListener KeyboardClick p.

(** [key]: the nearest [.key] element of the click target, if any, given
    by its [data-key] attribute ([None] when the attribute is missing). *)
Definition onKeyboardClick (key : option (option jsstring)) (p : page) : page :=
  match key with
  | None => p
  | Some keyValue =>
      let value := prop p "passwordInput" "value" in
      if bool_decide (keyValue = Some (js "backspace")) then
        set_prop "passwordInput" "value" (removelast value) p
      else if bool_decide (keyValue = Some (js "submit")) then checkPassword p
      else if (length value <? 4)%nat then
        set_prop "passwordInput" "value" (value ++ default (js "null") keyValue) p
      else p
  end.

(** *** 6. Checklist

    The element arguments of [renderChecklist], [deleteItem], [toggleItem]
    and [addItem] are the two elements [initChecklist] found: the functions
    are only called from listeners that exist when both elements do. *)

Definition CHECKLIST_STORAGE_KEY : jsstring := js "checklistItems".

Definition saveChecklist (items : value) (p : page) : page :=
  setItem CHECKLIST_STORAGE_KEY (JSON.stringify items) p.

Definition loadChecklist (p : page) : completion value :=
  match getItem CHECKLIST_STORAGE_KEY p with
  | Some (c :: s) => JSON.parse (c :: s)
  | Some [] | None => Normal (Arr [])
  end.

(** The body of the [forEach] callback for the item at [index]: the row it
    appends, or the error it throws before appending anything. *)
Definition render_item (index : nat) (item : value) : completion row :=
  checked ← get_named item (js "checked");
  text ← get_named item (js "text");
  textContent ← to_text text;
  Normal {| row_index := index; row_completed := truthy_opt checked;
            row_text := textContent |}.

Fixpoint render_items (index : nat) (items : list value) (p : page) : outcome :=
  match items with
  | [] => Done p
  | item :: rest =>
      match render_item index item with
      | Normal r => render_items (S index) rest (with_rows (fun rs => rs ++ [r]) p)
      | Throw e => Raised e p
      end
  end.

Definition renderChecklist (p : page) : outcome :=
  match loadChecklist p with
  | Throw e => Raised e p
  | Normal items =>
      let p := with_rows (fun _ => []) p in
      match items with
      | Arr l => render_items 0 l p
      | _ => Raised TypeError p
      end
  end.

Definition deleteItem (index : Z) (p : page) : outcome :=
  match loadChecklist p with
  | Throw e => Raised e p
  | Normal (Arr l) =>
      let items := Arr (splice1 l index) in
      renderChecklist (saveChecklist items p)
  | Normal _ => Raised TypeError p
  end.

(** [items[index].checked = !items[index].checked] *)
Definition toggle_checked (items : value) (index : Z) : completion value :=
  target ← get_index items index;
  match target with
  | None | Some Null => Throw TypeError
  | Some (Obj o) =>
      let flipped := Bool (negb (truthy_opt (obj_get (js "checked") o))) in
      Normal (put_index items index (Obj (obj_set (js "checked") flipped o)))
  | Some _ => Normal items
  end.

Definition toggleItem (index : Z) (p : page) : outcome :=
  match loadChecklist p with
  | Throw e => Raised e p
  | Normal items =>
      match toggle_checked items index with
      | Throw e => Raised e p
      | Normal items => renderChecklist (saveChecklist items p)
      end
  end.

Definition addItem (p : page) : outcome :=
  let text := trim (prop p "inputBox" "value") in
  if str_eqb text [] then Done p
  else
    match loadChecklist p with
    | Throw e => Raised e p
    | Normal (Arr l) =>
        let items := Arr (l ++ [Obj [(js "text", Str text); (js "checked", Bool false)]]) in
        let p := set_prop "inputBox" "value" [] p in
        renderChecklist (saveChecklist items p)
    | Normal _ => Raised TypeError p
    end.

Definition initChecklist (p : page) : outcome :=
  let '(inputBox, p) := getElement "inputBox" false p in
  let '(checklist, p) := getElement "checklist" false p in
  if negb inputBox || negb checklist then Done p
  else and_then (renderChecklist p) (fun p => Done (addEventListener InputBoxKeypress p)).

Definition onInputBoxKeypress (key : jsstring) (p : page) : outcome :=
  if str_eqb key (js "Enter") then addItem p else Done p.

(** *** 7. Calendar *)

Definition monthNames : list jsstring :=
  [js "January"; js "February"; js "March"; js "April"; js "May"; js "June";
   js "July"; js "August"; js "September"; js "October"; js "November"; js "December"].

(** [monthNames[m]] spliced into a template literal. *)
Definition month_text (m : Z) : jsstring :=
  if (0 <=? m)%Z then default (js "undefined") (monthNames !! Z.to_nat m)
  else js "undefined".

Definition getCalendarStorageKey (year month : Z) : jsstring :=
  js "calendarNotes-" ++ Z_to_js year ++ js "-" ++ Z_to_js month.

(** One iteration of the loop over the days: the cell for day [i] with the
    text [savedNotes[i] || ''] in its textarea. *)
Definition render_day (savedNotes : value) (i : nat) (p : page) : outcome :=
  let date := Z_to_js (currentYear p) ++ js "-" ++ Z_to_js (currentMonth p + 1)
              ++ js "-" ++ Z_to_js (Z.of_nat i) in
  let '(d, m, y) := today h in
  let highlight := (Z.of_nat i =? d)%Z && (currentMonth p =? m)%Z
                   && (currentYear p =? y)%Z in
  match get_index savedNotes (Z.of_nat i) with
  | Throw e => Raised e p
  | Normal note =>
      match (if truthy_opt note then to_text note else Normal []) with
      | Throw e => Raised e p
      | Normal text => Done (with_cells (fun cs => cs ++ [Day i date highlight text]) p)
      end
  end.

(** The days [i], [i + 1], ... ([n] of them). *)
Fixpoint render_days (savedNotes : value) (n i : nat) (p : page) : outcome :=
  match n with
  | O => Done p
  | S n => and_then (render_day savedNotes i p) (render_days savedNotes n (S i))
  end.

Definition generateCalendar (p : page) : outcome :=
  let '(monthYearDisplay, p) := getElement "month-year" false p in
  let '(calendarBody, p) := getElement "calendar-body" false p in
  if negb monthYearDisplay || negb calendarBody then Done p
  else
    let p := with_notesEnv None (with_cells (fun _ => []) p) in
    let p := set_prop "month-year" "textContent"
               (month_text (currentMonth p) ++ js " " ++ Z_to_js (currentYear p)) p in
    let firstDayOfMonth := firstDay h (currentYear p) (currentMonth p) in
    let daysInMonth := daysIn h (currentYear p) (currentMonth p) in
    let localStorageKey := getCalendarStorageKey (currentYear p) (currentMonth p) in
    match JSON.parse (getItem_or localStorageKey (js "{}") p) with
    | Throw e => Raised e p
    | Normal savedNotes =>
        let p := with_notesEnv (Some (localStorageKey, savedNotes)) p in
        let p := with_cells (fun cs => cs ++ repeat EmptyDay firstDayOfMonth) p in
        render_days savedNotes daysInMonth 1 p
    end.

Definition set_note (i : nat) (text : jsstring) (c : cell) : cell :=
  match c with
  | Day d date hl note => if (d =? i)%nat then Day d date hl text else c
  | EmptyDay => c
  end.

Definition has_day (i : nat) (p : page) : bool :=
  existsb (fun c => match c with Day d _ _ _ => (d =? i)%nat | EmptyDay => false end)
    (cells p).

(** The user edits the textarea of the rendered day [i] to [text]; its
    input listener stores the text in the shared [savedNotes] and writes
    the whole map under the key captured when the month was rendered. *)
Definition onDayInput (i : nat) (text : jsstring) (p : page) : outcome :=
  if has_day i p then
    let p := with_cells (List.map (set_note i text)) p in
    match notesEnv p with
    | Some (localStorageKey, savedNotes) =>
        match set_index savedNotes (Z.of_nat i) (Str text) with
        | Throw e => Raised e p
        | Normal savedNotes =>
            let p := with_notesEnv (Some (localStorageKey, savedNotes)) p in
            Done (setItem localStorageKey (JSON.stringify savedNotes) p)
        end
    | None => Done p
    end
  else Done p.

Definition navigateMonth (direction : Z) (p : page) : outcome :=
  let m := (currentMonth p + direction)%Z in
  let p :=
    if (m <? 0)%Z then with_month 11 (currentYear p - 1) p
    else if (m >? 11)%Z then with_month 0 (currentYear p + 1) p
    else with_month m (currentYear p) p in
  generateCalendar p.

Definition initCalendarNavigationListeners (p : page) : page :=
  let '(prevButton, p) := getElement "prev-month" false p in
  let '(nextButton, p) := getElement "next-month" false p in
  let p := if prevButton then addEventListener PrevMonthClick p else p in
  if nextButton then addEventListener NextMonthClick p else p.

(** *** 8. Theme selector *)

Definition DEFAULT_HEX : jsstring := js "#ffffff".
Definition COLOR_STORAGE_KEY : jsstring := js "accentColor".
Definition ROOT_COLOR_VAR : string := "--accent-color".
Definition ROOT_RGB_COLOR_VAR : string := "--accent-color-rgb".

(** [[a-f\d]] *)
Definition hex_class : Regex.regex := Regex.Class [(97, 102); (48, 57)].

(** [/^#?([a-f\d])([a-f\d])([a-f\d])$/i] *)
Definition shorthandRegex : Regex.regex :=
  Regex.Seq (Regex.Opt (Regex.Lit 35))
    (Regex.Seq (Regex.Group hex_class)
       (Regex.Seq (Regex.Group hex_class) (Regex.Group hex_class))).

(** [/^#?([a-f\d]{2})([a-f\d]{2})([a-f\d]{2})$/i] *)
Definition fullRegex : Regex.regex :=
  Regex.Seq (Regex.Opt (Regex.Lit 35))
    (Regex.Seq (Regex.Group (Regex.Rep 2 hex_class))
       (Regex.Seq (Regex.Group (Regex.Rep 2 hex_class))
          (Regex.Group (Regex.Rep 2 hex_class)))).

Definition FALLBACK_RGB : jsstring := js "253, 224, 71".

Definition hexToRgb (hex : jsstring) : jsstring :=
  let hex :=
    match Regex.exec_anchored true shorthandRegex hex with
    | Some [r; g; b] => r ++ r ++ g ++ g ++ b ++ b
    | _ => hex
    end in
  match Regex.exec_anchored true fullRegex hex with
  | Some [r; g; b] =>
      number_text (parseInt16 r) ++ js ", " ++ number_text (parseInt16 g) ++ js ", "
      ++ number_text (parseInt16 b)
  | _ => FALLBACK_RGB
  end.

(** [inputElement] tells whether a picker element was passed.  The
    assignment to its [value] stores what the element's type makes of the
    string ([pickerValue]); what the CSS parser makes of the root
    properties is the host's and is not modelled: the properties hold the
    strings the script set. *)
Definition applyColor (hexColor : jsstring) (inputElement : bool) (p : page) : page :=
  let p := set_prop ":root" ROOT_COLOR_VAR hexColor p in
  let p := set_prop ":root" ROOT_RGB_COLOR_VAR (hexToRgb hexColor) p in
  let p := setItem COLOR_STORAGE_KEY hexColor p in
  let p := if inputElement
           then set_prop "accentColorPicker" "value" (pickerValue h hexColor) p
           else p in
  let '(hexDisplay, p) := getElement "hexDisplay" false p in
  if hexDisplay then
    set_prop "hexDisplay" "textContent" (js "Current Hex: " ++ toUpperCase h hexColor) p
  else p.

Definition initThemeSelector (p : page) : page :=
  let '(colorInput, p) := getElement "accentColorPicker" false p in
  let initialColor := getItem_or COLOR_STORAGE_KEY DEFAULT_HEX p in
  let p := applyColor initialColor colorInput p in
  if colorInput then addEventListener ColorChange (addEventListener ColorInput p)
  else p.

(** Both picker listeners: the user has set the picker to [value]. *)
Definition onColorEvent (value : jsstring) (p : page) : page :=
  applyColor value true (set_prop "accentColorPicker" "value" value p).

(** *** The [DOMContentLoaded] handler *)

Definition main (time date : jsstring) (p : page) : outcome :=
  let p := emit (ConsoleLog (js "DOM fully loaded and parsed")) p in
  let p := initClock time date p in
  let p := initSidebarToggle p in
  let p := initWallpaperToggle p in
  let p := initTextBoxStorage p in
  let p := initPasswordProtection p in
  let p := initKeyboardInput p in
  and_then (initChecklist p) (fun p =>
  and_then (generateCalendar p) (fun p =>
  let p := initThemeSelector p in
  Done (initCalendarNavigationListeners p))).

(** *** Events

    What the user and the host can do to the page once the script has run.
    An event reaches a handler only through a registered listener or timer;
    the clicks on a checklist row reach the two listeners that
    [renderChecklist] attached to that row; typing changes the value of an
    input before its listeners run; [SubmitPassword] is the lock form
    calling the global [checkPassword]; [RejectPlay] is the host rejecting
    a pending promise of [video.play()].  Initialisation runs once, so each
    listener is registered at most once. *)

Inductive event : Type :=
| Tick (time date : jsstring)
| ClickHamburger
| ClickWallpaperButton
| InputNotepad (text : jsstring)
| InputPassword (text : jsstring)
| SubmitPassword
| ClickKeyboard (key : option (option jsstring))
| InputInputBox (text : jsstring)
| KeypressInputBox (key : jsstring)
| ClickRow (n : nat)
| ClickRowDelete (n : nat)
| InputDay (i : nat) (text : jsstring)
| ClickPrevMonth
| ClickNextMonth
| InputColor (value : jsstring)
| ChangeColor (value : jsstring)
| RejectPlay (message : jsstring).

Definition listener_eqb (a b : listener) : bool :=
  match a, b with
  | HamburgerClick, HamburgerClick | WallpaperClick, WallpaperClick
  | NotepadInput, NotepadInput | KeyboardClick, KeyboardClick
  | InputBoxKeypress, InputBoxKeypress | PrevMonthClick, PrevMonthClick
  | NextMonthClick, NextMonthClick | ColorInput, ColorInput
  | ColorChange, ColorChange => true
  | _, _ => false
  end.

Definition registered (l : listener) (p : page) : bool :=
  existsb (listener_eqb l) (listeners p).

Definition typed (id : string) (text : jsstring) (p : page) : page :=
  if has p id then set_prop id "value" text p else p.

Definition dispatch (e : event) (p : page) : outcome :=
  match e with
  | Tick time date =>
      Done (match timers p with
            | _ :: _ => updateClock time date p
            | [] => p
            end)
  | ClickHamburger =>
      Done (if registered HamburgerClick p then onHamburgerClick p else p)
  | ClickWallpaperButton =>
      Done (if registered WallpaperClick p then onWallpaperClick p else p)
  | InputNotepad text =>
      let p := typed "notepad" text p in
      Done (if registered NotepadInput p then onNotepadInput p else p)
  | InputPassword text => Done (typed "passwordInput" text p)
  | SubmitPassword => Done (checkPassword p)
  | ClickKeyboard key =>
      Done (if registered KeyboardClick p then onKeyboardClick key p else p)
  | InputInputBox text => Done (typed "inputBox" text p)
  | KeypressInputBox key =>
      if registered InputBoxKeypress p then onInputBoxKeypress key p else Done p
  | ClickRow n =>
      match rows p !! n with
      | Some r => toggleItem (Z.of_nat (row_index r)) p
      | None => Done p
      end
  | ClickRowDelete n =>
      match rows p !! n with
      | Some r => deleteItem (Z.of_nat (row_index r)) p
      | None => Done p
      end
  | InputDay i text => onDayInput i text p
  | ClickPrevMonth =>
      if registered PrevMonthClick p then navigateMonth (-1) p else Done p
  | ClickNextMonth =>
      if registered NextMonthClick p then navigateMonth 1 p else Done p
  | InputColor value =>
      Done (if registered ColorInput p then onColorEvent value p else p)
  | ChangeColor value =>
      Done (if registered ColorChange p then onColorEvent value p else p)
  | RejectPlay message =>
      Done (if play_pending p then onPlayRejected message p else p)
  end.

(** The pages a session can be in: the page the [DOMContentLoaded] handler
    leaves behind (whether it returned or threw), and any page an event
    leads to from there. *)
Inductive reachable : page -> Prop :=
| reach_loaded (ids : list string) (stored : list (jsstring * jsstring))
    (month year : Z) (time date : jsstring) :
    reachable (final (main time date (fresh_page ids stored month year)))
| reach_event (p : page) (e : event) :
    reachable p -> reachable (final (dispatch e p)).

End Widgets.

(** ** Stored values that survive a save and a load

    [keys_ordered] is the order in which JavaScript enumerates the own
    keys of an object: array indices ascending, then the other keys in
    insertion order.  A [plain] value has no number in it and each of its
    objects lists distinct keys in that order. *)

Definition key_before (k1 k2 : jsstring) : bool :=
  match array_index k1, array_index k2 with
  | Some i, Some j => i <? j
  | Some _, None => true
  | None, None => true
  | None, Some _ => false
  end.

Fixpoint keys_ordered (ks : list jsstring) : bool :=
  match ks with
  | k1 :: r =>
      match r with
      | k2 :: _ => key_before k1 k2 && keys_ordered r
      | [] => true
      end
  | [] => true
  end.

Fixpoint plain (v : value) : bool :=
  match v with
  | Num _ _ => false
  | Arr l => forallb plain l
  | Obj l =>
      bool_decide (NoDup (List.map fst l)) && keys_ordered (List.map fst l)
      && forallb (fun kv => plain (snd kv)) l
  | Null | Bool _ | Str _ => true
  end.

(** A checklist record as the script creates it, and the stored value of
    a sequence of records. *)
Record ChecklistItem : Type := {
  text : jsstring;
  checked : bool
}.

Definition item_value (it : ChecklistItem) : value :=
  Obj [(js "text", Str (text it)); (js "checked", Bool (checked it))].

Definition checklist_value (items : list ChecklistItem) : value :=
  Arr (List.map item_value items).

Definition toggled (it : ChecklistItem) : ChecklistItem :=
  {| text := text it; checked := negb (checked it) |}.

(** The rows the checklist shows for a sequence of records. *)
Definition rows_of (items : list ChecklistItem) : list row :=
  imap (fun i it => {| row_index := i; row_completed := checked it; row_text := text it |})
    items.

(** ** Pages used as concrete inputs *)

(** The checklist page holding [text] under the checklist key. *)
Definition checklist_page (text : jsstring) : page :=
  fresh_page ["inputBox"; "checklist"] [(CHECKLIST_STORAGE_KEY, text)] 0 2024.

(** The value sanitisation of a colour input: a [#] and six hex digits
    are kept, in lower case; every other string becomes [#000000]. *)
Definition colour_input_value (s : jsstring) : jsstring :=
  match s with
  | [x; a; b; c; d; e; f] =>
      if (x =? 35)
         && forallb (fun u => match hex_digit_value u with Some _ => true | None => false end)
              [a; b; c; d; e; f]
      then List.map Regex.ascii_lower s
      else js "#000000"
  | _ => js "#000000"
  end.

(** A host whose months all start on a Tuesday and have 30 days, and whose
    picker is a colour input. *)
Definition sample_host : host :=
  {| today := (15, 0, 2024)%Z; firstDay := fun _ _ => 2%nat; daysIn := fun _ _ => 30%nat;
     toUpperCase := fun s => List.map Regex.ascii_upper s;
     pickerValue := colour_input_value |}.

Definition three_items : list ChecklistItem :=
  [{| text := js "a"; checked := false |}; {| text := js "b"; checked := true |};
   {| text := js "c"; checked := false |}].

Definition three_items_page : page :=
  checklist_page (jsq "[{'text':'a','checked':false},{'text':'b','checked':true},{'text':'c','checked':false}]").

(** The passcode the rejection message tells the user to try: the text
    between the first two single quotes of the message. *)
Fixpoint until_quote (s : jsstring) : jsstring * jsstring :=
  match s with
  | c :: r =>
      if c =? 39 then ([], r)
      else let '(a, b) := until_quote r in (c :: a, b)
  | [] => ([], [])
  end.

Definition quoted_part (msg : jsstring) : option jsstring :=
  let '(before, r) := until_quote msg in
  if (length before <? length msg)%nat then Some (fst (until_quote r)) else None.

(** The lock page with [value] typed into the passcode input. *)
Definition lock_page (value : jsstring) : page :=
  set_prop "passwordInput" "value" value
    (fresh_page ["passwordInput"; "keyboard"] [] 0 2024).

(** The state the calendar's listeners rely on: the key captured by the
    rendered days is the key of the displayed month, and days are only
    rendered together with their note map. *)
Definition calendar_bound (p : page) : Prop :=
  match notesEnv p with
  | Some (k, _) =>
      k = getCalendarStorageKey (currentYear p) (currentMonth p)
      /\ has p "month-year" = true /\ has p "calendar-body" = true
  | None => forall i, has_day i p = false
  end.

(** The calendar page of [sample_host] showing January 2024, after the
    script has run on it. *)
Definition january_page : page :=
  final (main sample_host (js "9:00:00 AM") (js "Mon, Jan 15, 2024")
           (fresh_page ["month-year"; "calendar-body"; "prev-month"; "next-month"] []
              0 2024)).

(** The same calendar page over a store that already holds a note for
    February 2024. *)
Definition january_page_with_february : page :=
  final (main sample_host (js "9:00:00 AM") (js "Mon, Jan 15, 2024")
           (fresh_page ["month-year"; "calendar-body"; "prev-month"; "next-month"]
              [(getCalendarStorageKey 2024 1, jsq "{'3':'rent'}")] 0 2024)).

(** ** Hex colours as the specification names them *)

Definition is_hex (c : N) : bool :=
  match hex_digit_value c with
  | Some _ => true
  | None => false
  end.

(** The digits of a colour: the text without its optional leading [#]. *)
Definition strip_hash (s : jsstring) : jsstring :=
  match s with
  | c :: r => if c =? 35 then r else s
  | [] => s
  end.

(** [s] is a hex colour of [n] digits, with or without the [#] prefix. *)
Definition hex_form (n : nat) (s : jsstring) : bool :=
  (length (strip_hash s) =? n)%nat && forallb is_hex (strip_hash s).

(** The text [hexToRgb] returns for the three channel values. *)
Definition rgb_text (r g b : Z) : jsstring :=
  Z_to_js r ++ js ", " ++ Z_to_js g ++ js ", " ++ Z_to_js b.

(** ** Notions used in the proofs *)

Definition member_text (kv : jsstring * value) : jsstring :=
  34 :: JSON.quote_units (fst kv) ++ 34 :: 58 :: JSON.stringify (snd kv).

Definition reads (v : value) : Prop :=
  forall fuel tail, (2 * length (JSON.stringify v) < fuel)%nat ->
  JSON.parse_value fuel (JSON.stringify v ++ tail) = JSON.POk v tail.

(** What rendering the calendar leaves alone: everything but the cells, the
    captured note map and the element properties. *)
Definition calendar_frame (p p' : page) : Prop :=
  anchors p' = anchors p /\ localStorage p' = localStorage p /\ rows p' = rows p
  /\ listeners p' = listeners p /\ timers p' = timers p
  /\ currentMonth p' = currentMonth p /\ currentYear p' = currentYear p
  /\ effects p' = effects p.

(** The page on which the loop over the days starts. *)
Definition grid_start (h : host) (savedNotes : value) (p : page) : page :=
  with_cells (fun cs => cs ++ repeat EmptyDay (firstDay h (currentYear p) (currentMonth p)))
    (with_notesEnv (Some (getCalendarStorageKey (currentYear p) (currentMonth p), savedNotes))
       (set_prop "month-year" "textContent"
          (month_text (currentMonth p) ++ js " " ++ Z_to_js (currentYear p))
          (with_notesEnv None (with_cells (fun _ => []) p)))).

(** The month the calendar shows after [navigateMonth(direction)]. *)
Definition stepped (direction : Z) (p : page) : page :=
  let m := (currentMonth p + direction)%Z in
  if (m <? 0)%Z then with_month 11 (currentYear p - 1) p
  else if (m >? 11)%Z then with_month 0 (currentYear p + 1) p
  else with_month m (currentYear p) p.

(** Two pages showing the same calendar. *)
Definition same_view (a b : page) : Prop :=
  cells a = cells b /\ notesEnv a = notesEnv b
  /\ currentMonth a = currentMonth b /\ currentYear a = currentYear b.

Definition same_outcome (o1 o2 : outcome) : Prop :=
  match o1, o2 with
  | Done a, Done b => same_view a b
  | Raised e a, Raised e' b => e = e' /\ same_view a b
  | _, _ => False
  end.

(** The fields [calendar_bound] reads. *)
Definition calendar_fields (p q : page) : Prop :=
  anchors q = anchors p /\ cells q = cells p /\ notesEnv q = notesEnv p
  /\ currentMonth q = currentMonth p /\ currentYear q = currentYear p.

(** ** Notions used in the further properties *)

(** What a step leaves alone: the elements, the rows of the checklist,
    every stored string but those under the keys [ks], and the properties
    of every element but the elements [ids]. *)
Definition leaves (ks : list jsstring) (ids : list string) (p q : page) : Prop :=
  anchors q = anchors p /\ rows q = rows p
  /\ (forall k, k ∉ ks -> getItem k q = getItem k p)
  /\ (forall id name, id ∉ ids -> props q !! (id, name) = props p !! (id, name)).

(** The storage keys an event may write under. *)
Definition event_keys (e : event) (p : page) : list jsstring :=
  match e with
  | ClickWallpaperButton => [WALLPAPER_STORAGE_KEY]
  | InputNotepad _ => [TEXTAREA_STORAGE_KEY]
  | KeypressInputBox _ | ClickRow _ | ClickRowDelete _ => [CHECKLIST_STORAGE_KEY]
  | InputDay _ _ => [getCalendarStorageKey (currentYear p) (currentMonth p)]
  | InputColor _ | ChangeColor _ => [COLOR_STORAGE_KEY]
  | Tick _ _ | ClickHamburger | InputPassword _ | SubmitPassword | ClickKeyboard _
  | InputInputBox _ | ClickPrevMonth | ClickNextMonth | RejectPlay _ => []
  end.

(** [leaves] without the rows: what the checklist functions leave alone. *)
Definition keeps (ks : list jsstring) (ids : list string) (p q : page) : Prop :=
  anchors q = anchors p
  /\ (forall k, k ∉ ks -> getItem k q = getItem k p)
  /\ (forall id name, id ∉ ids -> props q !! (id, name) = props p !! (id, name)).

(** The elements whose properties an event may set. *)
Definition event_ids (e : event) : list string :=
  match e with
  | Tick _ _ => ["clock"; "date"]
  | ClickHamburger => ["sidebar"]
  | ClickWallpaperButton =>
      [".video-container"; "video-background"; "toggle-wallpaper-btn"]
  | InputNotepad _ => ["notepad"]
  | InputPassword _ | ClickKeyboard _ => ["passwordInput"]
  | InputInputBox _ | KeypressInputBox _ => ["inputBox"]
  | ClickPrevMonth | ClickNextMonth => ["month-year"]
  | InputColor _ | ChangeColor _ => [":root"; "accentColorPicker"; "hexDisplay"]
  | SubmitPassword | ClickRow _ | ClickRowDelete _ | InputDay _ _ | RejectPlay _ => []
  end.

(** The checklist shows what is stored: on a page with the two checklist
    elements, the rows are those of the stored sequence of records. *)
Definition shows_store (p : page) : Prop :=
  has p "inputBox" = true -> has p "checklist" = true ->
  forall items, loadChecklist p = Normal (checklist_value items) -> rows p = rows_of items.

(** A run of clicks on the keypad of the lock page. *)
Definition press_keys (keys : list (option (option jsstring))) (p : page) : page :=
  fold_left (fun p key => onKeyboardClick key p) keys p.

(** The calendar grid in closed form.  [all_strings o]: every note of the
    stored object [o] is a string, as the script writes them; [note_of o i]
    is the note shown for day [i]; [day_cell] is the cell of day [i] of
    month [m] of year [y]. *)
Definition all_strings (o : list (jsstring * value)) : bool :=
  forallb (fun kv => match snd kv with Str _ => true | _ => false end) o.

Definition note_of (o : list (jsstring * value)) (i : nat) : jsstring :=
  match obj_get (Z_to_js (Z.of_nat i)) o with
  | Some (Str s) => s
  | _ => []
  end.

Definition day_cell (h : host) (o : list (jsstring * value)) (y m : Z) (i : nat) : cell :=
  let '(d, m', y') := today h in
  Day i (Z_to_js y ++ js "-" ++ Z_to_js (m + 1) ++ js "-" ++ Z_to_js (Z.of_nat i))
    ((Z.of_nat i =? d)%Z && (m =? m')%Z && (y =? y')%Z) (note_of o i).


(** The [DOMContentLoaded] handler in three parts: what runs before
    [initChecklist], and what runs after it. *)
Definition main_prefix (time date : jsstring) (p : page) : page :=
  initKeyboardInput
    (initPasswordProtection
       (initTextBoxStorage
          (initWallpaperToggle
             (initSidebarToggle
                (initClock time date
                   (emit (ConsoleLog (js "DOM fully loaded and parsed")) p)))))).

Definition main_suffix (h : host) (p : page) : outcome :=
  and_then (generateCalendar h p) (fun p =>
  Done (initCalendarNavigationListeners (initThemeSelector h p))).

(** The effects the script can have on its surroundings: the log line of
    the handler, the rejection message, the navigation to the main page,
    the start of the video and the warning of a rejected start.  In
    particular not the console error of [getElement]. *)
Definition script_effect (e : effect) : bool :=
  match e with
  | ConsoleLog msg => str_eqb msg (js "DOM fully loaded and parsed")
  | Alert msg => str_eqb msg REJECTION_MESSAGE
  | Navigate url => str_eqb url (js "main.html")
  | VideoPlay => true
  | ConsoleWarn msg _ => str_eqb msg (js "Video autoplay prevented:")
  | ConsoleError _ => false
  end.

(** * Part II: checks on concrete inputs and properties *)

(** ** The model on concrete inputs *)

Example js_literal : js "ab" = [97; 98].
Proof. reflexivity. Qed.

Example trim_spaces : trim (js "  a b ") = js "a b".
Proof. reflexivity. Qed.

Example Z_to_js_2024 : Z_to_js 2024 = js "2024" /\ Z_to_js (-7) = js "-7" /\ Z_to_js 0 = js "0".
Proof. repeat split; reflexivity. Qed.

Example obj_set_order :
  obj_set (js "2") Null (obj_set (js "a") Null (obj_set (js "10") Null []))
  = [(js "2", Null); (js "10", Null); (js "a", Null)].
Proof. reflexivity. Qed.

Example stringify_item :
  JSON.stringify (Arr [Obj [(js "text", Str (js "Buy milk")); (js "checked", Bool false)]; Null])
  = jsq "[{'text':'Buy milk','checked':false},null]".
Proof. reflexivity. Qed.

Example stringify_numbers :
  List.map JSON.stringify [Num 1500 (-1); Num 1 21; Num (-25) (-8); Num 0 5; Num 123 (-2)]
  = [js "150"; js "1e+21"; js "-2.5e-7"; js "0"; js "1.23"].
Proof. reflexivity. Qed.

Example parse_item :
  JSON.parse (jsq " [ {'text' : 'Buy\u0020milk', 'checked':false} , null, -1.50e2 ] ")
  = Normal (Arr [Obj [(js "text", Str (js "Buy milk")); (js "checked", Bool false)];
                 Null; Num (-15) 1]).
Proof. reflexivity. Qed.

Example parse_malformed :
  List.map JSON.parse [js "{"; js "oops"; jsq "[1,]"; jsq "{'a':1,}"; js "01"; js "[1 2]";
                  jsq "'a"; js " "; js "1."; js "nul"; js "[]]"; jsq "{'a'}"; js "+1"]
  = repeat (Throw SyntaxError) 13.
Proof. reflexivity. Qed.

Example parse_other_shapes :
  List.map JSON.parse [js "null"; js "5"; jsq "'x'"; js "{}"; js "true"; jsq "{'2':1,'a':2,'1':3,'a':4}"]
  = [Normal Null; Normal (Num 5 0); Normal (Str (js "x")); Normal (Obj []);
     Normal (Bool true);
     Normal (Obj [(js "1", Num 3 0); (js "2", Num 1 0); (js "a", Num 4 0)])].
Proof. reflexivity. Qed.

(** The scenario of the specification: add, toggle, delete. *)
Example checklist_scenario :
  let added := final (addItem (set_prop "inputBox" "value" (js "Buy milk") (checklist_page []))) in
  let toggled_once := final (toggleItem 0 added) in
  let deleted := final (deleteItem 0 toggled_once) in
  loadChecklist added = Normal (checklist_value [{| text := js "Buy milk"; checked := false |}])
  /\ loadChecklist toggled_once
     = Normal (checklist_value [{| text := js "Buy milk"; checked := true |}])
  /\ loadChecklist deleted = Normal (Arr [])
  /\ getItem CHECKLIST_STORAGE_KEY deleted = Some (js "[]").
Proof. repeat split; vm_compute; reflexivity. Qed.

(** A stored checklist that is not an array of records: [toggleItem] on a
    missing index and [deleteItem] on an object throw a [TypeError] and
    leave the store as it was. *)
Example checklist_type_errors :
  toggleItem 3 three_items_page = Raised TypeError three_items_page
  /\ deleteItem 0 (checklist_page (js "{}")) = Raised TypeError (checklist_page (js "{}")).
Proof. split; vm_compute; reflexivity. Qed.

(** ** String literals and decimal numerals *)

Lemma js_inj (a b : string) : js a = js b -> a = b.
Proof.
  unfold js. intros H.
  rewrite <- (string_of_list_ascii_of_string a), <- (string_of_list_ascii_of_string b).
  f_equal. revert H.
  generalize (list_ascii_of_string a) (list_ascii_of_string b).
  induction l as [|x l IH]; intros [|y l'] H; simpl in H; try discriminate; auto.
  injection H as Hxy Hl. f_equal; auto.
  apply Nat2N.inj in Hxy.
  rewrite <- (ascii_nat_embedding x), <- (ascii_nat_embedding y). congruence.
Qed.

Lemma Z_to_js_inj (a b : Z) : Z_to_js a = Z_to_js b -> a = b.
Proof.
  unfold Z_to_js. intros H. apply js_inj in H.
  assert (Hi : Z.to_int a = Z.to_int b).
  { pose proof (NilEmpty.isi (Z.to_int a)) as Ha.
    pose proof (NilEmpty.isi (Z.to_int b)) as Hb.
    rewrite H in Ha. congruence. }
  rewrite <- (DecimalZ.of_to a), <- (DecimalZ.of_to b). congruence.
Qed.

(** ** JSON: string literals read back *)

Lemma hex_value_hex_digit (n : N) : n < 16 -> JSON.hex_value (JSON.hex_digit n) = Some n.
Proof.
  intros H. unfold JSON.hex_digit, JSON.hex_value.
  destruct (N.ltb_spec n 10).
  - replace ((48 <=? 48 + n) && (48 + n <=? 57)) with true.
    + f_equal. lia.
    + symmetry. apply andb_true_intro. split; apply N.leb_le; lia.
  - replace ((48 <=? 87 + n) && (87 + n <=? 57)) with false.
    + replace ((97 <=? 87 + n) && (87 + n <=? 102)) with true.
      * f_equal. lia.
      * symmetry. apply andb_true_intro. split; apply N.leb_le; lia.
    + symmetry. apply andb_false_iff. right. apply N.leb_gt. lia.
Qed.

Lemma hex4_unicode_escape (c : N) :
  c < 65536 ->
  JSON.hex4 (JSON.hex_digit (c / 4096 mod 16)) (JSON.hex_digit (c / 256 mod 16))
    (JSON.hex_digit (c / 16 mod 16)) (JSON.hex_digit (c mod 16)) = Some c.
Proof.
  intros H. unfold JSON.hex4.
  rewrite !hex_value_hex_digit by (apply N.mod_lt; discriminate).
  simpl. f_equal. zify. Z.to_euclidean_division_equations. lia.
Qed.

Lemma parse_chars_escape (c : N) (r : jsstring) :
  c < 65536 ->
  JSON.parse_chars (JSON.unicode_escape c ++ r) = JSON.cons_fst c (JSON.parse_chars r).
Proof.
  intros H. unfold JSON.unicode_escape.
  change (JSON.parse_chars (_ ++ r)) with
    (match JSON.hex4 (JSON.hex_digit (c / 4096 mod 16)) (JSON.hex_digit (c / 256 mod 16))
             (JSON.hex_digit (c / 16 mod 16)) (JSON.hex_digit (c mod 16)) with
     | Some u => JSON.cons_fst u (JSON.parse_chars r)
     | None => None
     end).
  now rewrite hex4_unicode_escape.
Qed.

Lemma parse_chars_plain (c : N) (r : jsstring) :
  32 <= c -> c <> 34 -> c <> 92 ->
  JSON.parse_chars (c :: r) = JSON.cons_fst c (JSON.parse_chars r).
Proof.
  intros H1 H2 H3. cbn [JSON.parse_chars].
  destruct (N.eqb_spec c 34); [contradiction|].
  destruct (N.eqb_spec c 92); [contradiction|].
  destruct (N.ltb_spec c 32); [lia|]. reflexivity.
Qed.

Lemma parse_chars_quote_unit (c : N) (r : jsstring) :
  c < 65536 ->
  JSON.parse_chars (JSON.quote_unit c ++ r) = JSON.cons_fst c (JSON.parse_chars r).
Proof.
  intros Hc. unfold JSON.quote_unit.
  repeat match goal with
         | |- context [if ?x =? ?y then _ else _] =>
             destruct (N.eqb_spec x y); [subst; reflexivity|]
         end.
  destruct (N.ltb_spec c 32).
  - now apply parse_chars_escape.
  - now apply parse_chars_plain.
Qed.

Lemma surrogate_bounds (c : N) :
  (JSON.is_high_surrogate c = true -> 55296 <= c <= 56319)
  /\ (JSON.is_low_surrogate c = true -> 56320 <= c <= 57343).
Proof.
  unfold JSON.is_high_surrogate, JSON.is_low_surrogate.
  split; intros [H1 H2]%andb_prop; apply N.leb_le in H1, H2; lia.
Qed.

Lemma parse_chars_quote_units_bounded (n : nat) :
  forall (s rest : jsstring), (length s <= n)%nat ->
  JSON.parse_chars (JSON.quote_units s ++ 34 :: rest) = Some (s, rest).
Proof.
  induction n as [|n IH]; intros s rest Hn.
  - destruct s; [reflexivity | simpl in Hn; lia].
  - destruct s as [|c r]; [reflexivity|].
    simpl in Hn. cbn [JSON.quote_units].
    destruct (JSON.is_high_surrogate c) eqn:Hh.
    + apply surrogate_bounds in Hh.
      destruct r as [|d r'].
      * rewrite parse_chars_escape by lia. reflexivity.
      * destruct (JSON.is_low_surrogate d) eqn:Hl.
        -- apply surrogate_bounds in Hl.
           change ((c :: d :: JSON.quote_units r') ++ 34 :: rest)
             with (c :: d :: (JSON.quote_units r' ++ 34 :: rest)).
           rewrite parse_chars_plain by lia.
           rewrite parse_chars_plain by lia.
           rewrite IH by (simpl in Hn; lia). reflexivity.
        -- rewrite <- app_assoc, parse_chars_escape by lia.
           rewrite IH by lia. reflexivity.
    + destruct (JSON.is_low_surrogate c) eqn:Hl.
      * apply surrogate_bounds in Hl.
        rewrite <- app_assoc, parse_chars_escape by lia.
        rewrite IH by lia. reflexivity.
      * destruct (N.lt_ge_cases c 65536) as [Hc|Hc].
        -- rewrite <- app_assoc, parse_chars_quote_unit by assumption.
           rewrite IH by lia. reflexivity.
        -- assert (Hq : JSON.quote_unit c = [c]).
           { unfold JSON.quote_unit.
             repeat match goal with
                    | |- context [if ?x =? ?y then _ else _] =>
                        destruct (N.eqb_spec x y); [lia|]
                    end.
             destruct (N.ltb_spec c 32); [lia | reflexivity]. }
           rewrite Hq. change ([c] ++ JSON.quote_units r) with (c :: JSON.quote_units r).
           change ((c :: JSON.quote_units r) ++ 34 :: rest)
             with (c :: (JSON.quote_units r ++ 34 :: rest)).
           rewrite parse_chars_plain by lia.
           rewrite IH by lia. reflexivity.
Qed.

(** A quoted string, read after its opening quote, gives the string back. *)
Lemma parse_chars_quote_units (s rest : jsstring) :
  JSON.parse_chars (JSON.quote_units s ++ 34 :: rest) = Some (s, rest).
Proof. now apply (parse_chars_quote_units_bounded (length s)). Qed.

(** ** JSON: a saved value loads back *)

Lemma value_nested_ind (P : value -> Prop) :
  P Null -> (forall b, P (Bool b)) -> (forall m e, P (Num m e)) ->
  (forall s, P (Str s)) ->
  (forall l, Forall P l -> P (Arr l)) ->
  (forall l, Forall (fun kv => P (snd kv)) l -> P (Obj l)) ->
  forall v, P v.
Proof.
  intros HNull HBool HNum HStr HArr HObj.
  fix IH 1. intros [ |b|m e|s|l|l].
  - exact HNull.
  - apply HBool.
  - apply HNum.
  - apply HStr.
  - apply HArr. induction l as [|x l IHl]; constructor; [apply IH | exact IHl].
  - apply HObj. induction l as [|x l IHl]; constructor; [apply IH | exact IHl].
Qed.

Lemma stringify_Arr (l : list value) :
  JSON.stringify (Arr l) = 91 :: JSON.join [44] (List.map JSON.stringify l) ++ [93].
Proof. reflexivity. Qed.

Lemma stringify_Obj (l : list (jsstring * value)) :
  JSON.stringify (Obj l) = 123 :: JSON.join [44] (List.map member_text l) ++ [125].
Proof.
  cbn [JSON.stringify]. change (js "{") with [123]. change (js "}") with [125].
  change (js ",") with [44]. cbn [app]. do 3 f_equal.
  apply map_ext. intros [k v]. unfold member_text, JSON.quote. cbn [fst snd].
  change (js ":") with [58]. cbn [app]. f_equal. now rewrite <- app_assoc.
Qed.

Lemma join_cons2 (sep x y : jsstring) (r : list jsstring) :
  JSON.join sep (x :: y :: r) = x ++ sep ++ JSON.join sep (y :: r).
Proof. reflexivity. Qed.

(** The first character of a serialised plain value starts a value: it is
    neither white space nor a closing bracket. *)
Lemma stringify_head (v : value) :
  plain v = true ->
  exists c r, JSON.stringify v = c :: r /\ JSON.is_json_ws c = false
              /\ c <> 93 /\ c <> 125.
Proof.
  destruct v as [ |[|]|m e|s|l|l]; intros Hp; try discriminate.
  - exists 110, (js "ull"). now repeat split.
  - exists 116, (js "rue"). now repeat split.
  - exists 102, (js "alse"). now repeat split.
  - exists 34, (JSON.quote_units s ++ [34]). now repeat split.
  - rewrite stringify_Arr. eexists 91, _. now repeat split.
  - rewrite stringify_Obj. eexists 123, _. now repeat split.
Qed.

Lemma skip_ws_head (c : N) (r : jsstring) :
  JSON.is_json_ws c = false -> JSON.skip_ws (c :: r) = c :: r.
Proof. intros H. cbn [JSON.skip_ws]. now rewrite H. Qed.

Lemma obj_get_notin (k : jsstring) (l : list (jsstring * value)) :
  k ∉ List.map fst l -> obj_get k l = None.
Proof.
  induction l as [|[k' v'] l IH]; intros Hn; [reflexivity|].
  cbn [obj_get]. unfold str_eqb. cbn [List.map fst] in Hn.
  rewrite not_elem_of_cons in Hn. destruct Hn as [Hne Hn].
  rewrite bool_decide_eq_false_2 by exact Hne. auto.
Qed.

Lemma obj_insert_index_last (i : N) (k : jsstring) (v : value) (l : list (jsstring * value)) :
  Forall (fun k' => exists j, array_index k' = Some j /\ j < i) (List.map fst l) ->
  obj_insert_index i k v l = l ++ [(k, v)].
Proof.
  induction l as [|[k' v'] l IH]; intros H; [reflexivity|].
  cbn [List.map fst] in H. apply Forall_cons in H as [(j & Hj & Hlt) H].
  cbn [obj_insert_index]. rewrite Hj.
  destruct (N.ltb_spec i j); [lia|]. rewrite IH by exact H. reflexivity.
Qed.

Lemma keys_ordered_app_l (a b : list jsstring) :
  keys_ordered (a ++ b) = true -> keys_ordered a = true.
Proof.
  induction a as [|k1 a IH]; [reflexivity|].
  destruct a as [|k2 a]; [reflexivity|].
  cbn [app keys_ordered] in *. intros [H1 H2]%andb_prop.
  apply andb_true_intro. split; [exact H1 | apply IH, H2].
Qed.

Lemma keys_ordered_before_index (ks : list jsstring) (k : jsstring) (i : N) :
  keys_ordered (ks ++ [k]) = true -> array_index k = Some i ->
  Forall (fun k' => exists j, array_index k' = Some j /\ j < i) ks.
Proof.
  intros Ho Hi. induction ks as [|k1 ks IH]; [constructor|].
  destruct ks as [|k2 ks].
  - cbn [app keys_ordered] in Ho. apply andb_prop in Ho as [Hb _].
    unfold key_before in Hb. rewrite Hi in Hb.
    destruct (array_index k1) as [j|] eqn:Hj; [|discriminate].
    apply N.ltb_lt in Hb. constructor; [eauto | constructor].
  - cbn [app keys_ordered] in Ho. apply andb_prop in Ho as [Hb Ho].
    specialize (IH Ho). constructor; [|exact IH].
    apply Forall_cons in IH as [(j2 & Hj2 & Hlt) _].
    unfold key_before in Hb. rewrite Hj2 in Hb.
    destruct (array_index k1) as [j|] eqn:Hj; [|discriminate].
    apply N.ltb_lt in Hb. exists j. split; [reflexivity | lia].
Qed.

(** Defining a new last key of an ordered object appends it. *)
Lemma obj_set_last (k : jsstring) (v : value) (l : list (jsstring * value)) :
  NoDup (List.map fst (l ++ [(k, v)])) ->
  keys_ordered (List.map fst (l ++ [(k, v)])) = true ->
  obj_set k v l = l ++ [(k, v)].
Proof.
  rewrite map_app. cbn [List.map fst]. intros Hnd Ho.
  unfold obj_set. rewrite obj_get_notin.
  - destruct (array_index k) as [i|] eqn:Hi; [|reflexivity].
    apply obj_insert_index_last. now apply keys_ordered_before_index with (k := k).
  - apply NoDup_app in Hnd as (_ & Hd & _). intros Hin.
    apply (Hd k Hin). now left.
Qed.

Lemma parse_elements_join (v : value) (vs : list value) :
  Forall (fun x => plain x = true /\ reads x) (v :: vs) ->
  forall fuel tail,
  (2 * length (JSON.join [44%N] (List.map JSON.stringify (v :: vs))) + 1 < fuel)%nat ->
  JSON.parse_elements fuel (JSON.join [44] (List.map JSON.stringify (v :: vs)) ++ 93 :: tail)
  = JSON.POk (v :: vs) tail.
Proof.
  revert v. induction vs as [|v' vs IH]; intros v HF fuel tail Hfuel.
  - apply Forall_cons in HF as [[_ Hv] _].
    cbn [List.map JSON.join] in *.
    destruct fuel as [|fuel]; [lia|]. cbn [JSON.parse_elements].
    rewrite Hv by lia. reflexivity.
  - apply Forall_cons in HF as [[_ Hv] HF].
    cbn [List.map] in *. rewrite join_cons2 in *.
    rewrite !length_app in Hfuel. cbn [length] in Hfuel.
    destruct fuel as [|fuel]; [lia|]. cbn [JSON.parse_elements].
    rewrite <- !app_assoc. rewrite Hv by lia.
    cbn [app]. rewrite skip_ws_head by reflexivity.
    change (44 =? 44) with true. cbv iota.
    specialize (IH v' HF fuel tail). cbn [List.map] in IH.
    rewrite IH by lia. reflexivity.
Qed.

Lemma member_text_app (kv : jsstring * value) (t : jsstring) :
  member_text kv ++ t
  = 34 :: JSON.quote_units (fst kv) ++ 34 :: 58 :: (JSON.stringify (snd kv) ++ t).
Proof. unfold member_text. cbn [app]. now rewrite <- app_assoc. Qed.

Lemma length_member_text (kv : jsstring * value) :
  length (member_text kv)
  = (3 + length (JSON.quote_units (fst kv)) + length (JSON.stringify (snd kv)))%nat.
Proof. unfold member_text. cbn [length]. rewrite length_app. cbn [length]. lia. Qed.

(** One member of an object and the separator after it. *)
Lemma parse_members_step (k : jsstring) (v : value) (fuel : nat) (t : jsstring)
  (acc : list (jsstring * value)) :
  reads v -> (2 * length (JSON.stringify v) < fuel)%nat ->
  JSON.parse_members (S fuel) (member_text (k, v) ++ t) acc
  = match JSON.skip_ws t with
    | x :: r4 =>
        if x =? 44 then JSON.parse_members fuel r4 (obj_set k v acc)
        else if x =? 125 then JSON.POk (obj_set k v acc) r4
        else JSON.PSyntax
    | [] => JSON.PSyntax
    end.
Proof.
  intros Hv Hfuel. rewrite member_text_app. cbn [fst snd JSON.parse_members].
  rewrite skip_ws_head by reflexivity.
  change (34 =? 34) with true. cbv iota.
  rewrite parse_chars_quote_units.
  rewrite skip_ws_head by reflexivity.
  change (58 =? 58) with true. cbv iota.
  rewrite Hv by exact Hfuel. reflexivity.
Qed.

Lemma parse_members_join (l2 : list (jsstring * value)) :
  forall (kv : jsstring * value) (l1 : list (jsstring * value)),
  Forall (fun x => plain (snd x) = true /\ reads (snd x)) (kv :: l2) ->
  NoDup (List.map fst (l1 ++ kv :: l2)) ->
  keys_ordered (List.map fst (l1 ++ kv :: l2)) = true ->
  forall fuel tail,
  (2 * length (JSON.join [44%N] (List.map member_text (kv :: l2))) + 1 < fuel)%nat ->
  JSON.parse_members fuel (JSON.join [44] (List.map member_text (kv :: l2)) ++ 125 :: tail) l1
  = JSON.POk (l1 ++ kv :: l2) tail.
Proof.
  induction l2 as [|kv' l2 IH]; intros [k v] l1 HF Hnd Ho fuel tail Hfuel.
  - apply Forall_cons in HF as [[_ Hv] _]. cbn [snd] in Hv.
    cbn [List.map JSON.join] in *. rewrite length_member_text in Hfuel.
    destruct fuel as [|fuel]; [lia|].
    rewrite parse_members_step by (try exact Hv; cbn [snd] in Hfuel; lia).
    rewrite skip_ws_head by reflexivity.
    change (125 =? 44) with false. change (125 =? 125) with true. cbv iota.
    now rewrite obj_set_last.
  - apply Forall_cons in HF as [[_ Hv] HF]. cbn [snd] in Hv.
    cbn [List.map] in *. rewrite join_cons2 in *.
    rewrite !length_app, length_member_text in Hfuel. cbn [length fst snd] in Hfuel.
    destruct fuel as [|fuel]; [lia|].
    rewrite <- !app_assoc.
    rewrite parse_members_step by (try exact Hv; lia).
    cbn [app]. rewrite skip_ws_head by reflexivity.
    change (44 =? 44) with true. cbv iota.
    assert (Hset : obj_set k v l1 = l1 ++ [(k, v)]).
    { apply obj_set_last.
      - rewrite map_app in *. cbn [List.map] in *.
        change (fst (k, v) :: fst kv' :: List.map fst l2)
          with ([fst (k, v)] ++ fst kv' :: List.map fst l2) in Hnd.
        rewrite app_assoc in Hnd. now apply NoDup_app in Hnd as (Hnd & _ & _).
      - rewrite map_app in *. cbn [List.map] in *.
        change (fst (k, v) :: fst kv' :: List.map fst l2)
          with ([fst (k, v)] ++ fst kv' :: List.map fst l2) in Ho.
        rewrite app_assoc in Ho. now apply keys_ordered_app_l in Ho. }
    rewrite Hset.
    replace (l1 ++ (k, v) :: kv' :: l2) with ((l1 ++ [(k, v)]) ++ kv' :: l2)
      by now rewrite <- app_assoc.
    apply IH.
    + exact HF.
    + now rewrite <- app_assoc.
    + now rewrite <- app_assoc.
    + cbn [List.map]. lia.
Qed.

(** Reading a serialised plain value gives the value back and leaves what
    follows it unread. *)
Lemma parse_value_stringify (v : value) : plain v = true -> reads v.
Proof.
  induction v as [ |b|m e|s|l IH|l IH] using value_nested_ind; intros Hp.
  - intros [|fuel] tail Hf; [cbn in Hf; lia | reflexivity].
  - intros [|fuel] tail Hf; [destruct b; cbn in Hf; lia | destruct b; reflexivity].
  - discriminate.
  - intros [|fuel] tail Hf; [lia|].
    cbn [JSON.stringify]. unfold JSON.quote. cbn [app JSON.parse_value].
    rewrite skip_ws_head by reflexivity.
    change (34 =? 123) with false. change (34 =? 91) with false.
    change (34 =? 34) with true. cbv iota.
    rewrite <- app_assoc. cbn [app].
    now rewrite parse_chars_quote_units.
  - cbn [plain] in Hp. rewrite forallb_forall in Hp.
    assert (HF : Forall (fun x => plain x = true /\ reads x) l).
    { rewrite Forall_forall in IH. apply Forall_forall. intros x Hx.
      split; [apply Hp; now apply list_elem_of_In | apply IH; [exact Hx|]].
      apply Hp. now apply list_elem_of_In. }
    intros fuel tail Hf. rewrite stringify_Arr in *.
    cbn [length] in Hf. rewrite length_app in Hf. cbn [length] in Hf.
    destruct fuel as [|fuel]; [lia|].
    cbn [app JSON.parse_value]. rewrite skip_ws_head by reflexivity.
    change (91 =? 123) with false. change (91 =? 91) with true. cbv iota.
    destruct l as [|v vs].
    + cbn [List.map JSON.join app]. rewrite skip_ws_head by reflexivity. reflexivity.
    + assert (Hh := HF). apply Forall_cons in Hh as [[Hpv _] _].
      destruct (stringify_head v Hpv) as (c & r & Hc & Hws & Hn93 & _).
      rewrite <- app_assoc. cbn [app].
      rewrite parse_elements_join by (try exact HF; lia).
      cbn [List.map]. destruct vs as [|v' vs].
      * cbn [List.map JSON.join]. rewrite Hc. cbn [app].
        rewrite skip_ws_head by exact Hws.
        destruct (N.eqb_spec c 93); [contradiction | reflexivity].
      * cbn [List.map]. rewrite join_cons2, Hc. cbn [app].
        rewrite skip_ws_head by exact Hws.
        destruct (N.eqb_spec c 93); [contradiction | reflexivity].
  - cbn [plain] in Hp. apply andb_prop in Hp as [Hp Hpl].
    apply andb_prop in Hp as [Hnd Ho]. apply bool_decide_eq_true_1 in Hnd.
    rewrite forallb_forall in Hpl.
    assert (HF : Forall (fun x => plain (snd x) = true /\ reads (snd x)) l).
    { rewrite Forall_forall in IH. apply Forall_forall. intros x Hx.
      split; [apply Hpl; now apply list_elem_of_In | apply IH; [exact Hx|]].
      apply Hpl. now apply list_elem_of_In. }
    intros fuel tail Hf. rewrite stringify_Obj in *.
    cbn [length] in Hf. rewrite length_app in Hf. cbn [length] in Hf.
    destruct fuel as [|fuel]; [lia|].
    cbn [app JSON.parse_value]. rewrite skip_ws_head by reflexivity.
    change (123 =? 123) with true. cbv iota.
    destruct l as [|kv l2].
    + cbn [List.map JSON.join app]. rewrite skip_ws_head by reflexivity. reflexivity.
    + rewrite <- app_assoc. cbn [app].
      rewrite (parse_members_join l2 kv []) by (try assumption; lia).
      cbn [List.map]. destruct l2 as [|kv' l2].
      * cbn [List.map JSON.join]. rewrite member_text_app.
        rewrite skip_ws_head by reflexivity. reflexivity.
      * cbn [List.map]. rewrite join_cons2, <- app_assoc, member_text_app.
        rewrite skip_ws_head by reflexivity. reflexivity.
Qed.

(** [JSON.parse(JSON.stringify(v))] is [v] for a plain value. *)
Lemma parse_stringify (v : value) :
  plain v = true -> JSON.parse (JSON.stringify v) = Normal v.
Proof.
  intros Hp. unfold JSON.parse.
  rewrite <- (app_nil_r (JSON.stringify v)) at 2.
  rewrite (parse_value_stringify v Hp) by lia. reflexivity.
Qed.

(** ** JSON: the parser's fuel is enough *)

Lemma skip_ws_length (s : jsstring) : (length (JSON.skip_ws s) <= length s)%nat.
Proof.
  induction s as [|c r IH]; [reflexivity|]. cbn [JSON.skip_ws].
  destruct (JSON.is_json_ws c); cbn [length]; lia.
Qed.

Lemma skip_ws_cons_length (s r : jsstring) (c : N) :
  JSON.skip_ws s = c :: r -> (S (length r) <= length s)%nat.
Proof. intros H. pose proof (skip_ws_length s) as Hl. rewrite H in Hl. exact Hl. Qed.

Lemma cons_fst_Some {A B : Type} (a : A) (o : option (list A * B)) (l : list A) (b : B) :
  JSON.cons_fst a o = Some (l, b) -> exists l', o = Some (l', b) /\ l = a :: l'.
Proof. destruct o as [[l' b']|]; cbn; intros H; [|discriminate]. injection H as <- <-. eauto. Qed.

Lemma parse_chars_length_bounded (n : nat) :
  forall (s x r : jsstring), (length s <= n)%nat ->
  JSON.parse_chars s = Some (x, r) -> (length r < length s)%nat.
Proof.
  induction n as [|n IH]; intros s x r Hn H.
  - destruct s; [discriminate | cbn in Hn; lia].
  - destruct s as [|c s]; [discriminate|]. cbn [length] in *.
    cbn [JSON.parse_chars] in H.
    destruct (c =? 34).
    { injection H as <- <-. lia. }
    destruct (c =? 92).
    + destruct s as [|e r1]; [discriminate|].
      destruct (e =? 117).
      * destruct r1 as [|h1 [|h2 [|h3 [|h4 r2]]]]; try discriminate.
        destruct (JSON.hex4 h1 h2 h3 h4); [|discriminate].
        apply cons_fst_Some in H as (l' & H & _).
        apply IH in H; cbn [length] in *; lia.
      * destruct (JSON.simple_escape e); [|discriminate].
        apply cons_fst_Some in H as (l' & H & _).
        apply IH in H; cbn [length] in *; lia.
    + destruct (c <? 32); [discriminate|].
      apply cons_fst_Some in H as (l' & H & _).
      apply IH in H; cbn [length] in *; lia.
Qed.

Lemma parse_chars_length (s x r : jsstring) :
  JSON.parse_chars s = Some (x, r) -> (length r < length s)%nat.
Proof. now apply (parse_chars_length_bounded (length s)). Qed.

Lemma strip_prefix_length (p s r : jsstring) :
  JSON.strip_prefix p s = Some r -> (length r <= length s)%nat.
Proof.
  revert s. induction p as [|a p IH]; intros s H.
  - cbn in H. injection H as <-. lia.
  - destruct s as [|b s]; [discriminate|]. cbn [JSON.strip_prefix] in H.
    destruct (a =? b); [|discriminate]. apply IH in H. cbn [length]. lia.
Qed.

Lemma span_digits_length (s ds r : jsstring) :
  JSON.span_digits s = (ds, r) -> (length r <= length s)%nat.
Proof.
  revert ds r. induction s as [|c s IH]; intros ds r H.
  - injection H as <- <-. reflexivity.
  - cbn [JSON.span_digits] in H. destruct (is_digit c).
    + destruct (JSON.span_digits s) as [ds' r'] eqn:E. injection H as <- <-.
      specialize (IH _ _ eq_refl). cbn [length]. lia.
    + injection H as <- <-. lia.
Qed.

Lemma parse_sign_length (s r : jsstring) (b : bool) :
  JSON.parse_sign s = (b, r) -> (length r <= length s)%nat.
Proof.
  destruct s as [|c s]; cbn; [intros [= <- <-]; cbn [length]; lia|].
  destruct (c =? 45); intros [= <- <-]; cbn [length]; lia.
Qed.

Lemma parse_int_length (s ds r : jsstring) :
  JSON.parse_int s = Some (ds, r) -> (length r <= length s)%nat.
Proof.
  destruct s as [|c s]; [discriminate|]. cbn [JSON.parse_int].
  destruct (c =? 48); [intros [= <- <-]; cbn [length]; lia|].
  destruct (is_digit c) eqn:Hd; [|discriminate].
  intros [= H]. now apply (span_digits_length (c :: s)) in H.
Qed.

Lemma parse_frac_length (s ds r : jsstring) :
  JSON.parse_frac s = Some (ds, r) -> (length r <= length s)%nat.
Proof.
  destruct s as [|c s]; [intros [= <- <-]; cbn [length]; lia|]. cbn [JSON.parse_frac].
  destruct (c =? 46); [|intros [= <- <-]; cbn [length]; lia].
  destruct (JSON.span_digits s) as [[|d ds'] r'] eqn:E; [discriminate|].
  intros [= <- <-]. apply span_digits_length in E. cbn [length]. lia.
Qed.

Lemma parse_exp_length (s r : jsstring) (x : Z) :
  JSON.parse_exp s = Some (x, r) -> (length r <= length s)%nat.
Proof.
  destruct s as [|c s]; [intros [= <- <-]; cbn [length]; lia|]. cbn [JSON.parse_exp].
  destruct ((c =? 101) || (c =? 69)); [|intros [= <- <-]; cbn [length]; lia].
  destruct (JSON.parse_exp_sign s) as [eneg r0] eqn:Es.
  assert (length r0 <= length s)%nat.
  { destruct s as [|d s]; cbn in Es; [injection Es as <- <-; cbn [length]; lia|].
    destruct (d =? 45); [injection Es as <- <-; cbn [length]; lia|].
    destruct (d =? 43); injection Es as <- <-; cbn [length]; lia. }
  destruct (JSON.span_digits r0) as [[|d ds'] r'] eqn:E; [discriminate|].
  intros [= <- <-]. apply span_digits_length in E. cbn [length]. lia.
Qed.

Lemma parse_number_length (s r : jsstring) (m e : Z) :
  JSON.parse_number s = Some (m, e, r) -> (length r <= length s)%nat.
Proof.
  unfold JSON.parse_number. intros H.
  destruct (JSON.parse_sign s) as [neg s1] eqn:E1. apply parse_sign_length in E1.
  destruct (JSON.parse_int s1) as [[int s2]|] eqn:E2; [|discriminate].
  apply parse_int_length in E2. cbn -[JSON.normalize] in H.
  destruct (JSON.parse_frac s2) as [[frac s3]|] eqn:E3; [|discriminate].
  apply parse_frac_length in E3. cbn -[JSON.normalize] in H.
  destruct (JSON.parse_exp s3) as [[ex s4]|] eqn:E4; [|discriminate].
  apply parse_exp_length in E4. cbn -[JSON.normalize] in H.
  destruct (JSON.normalize _ _) as [m' e']. injection H as <- <- <-. lia.
Qed.

Lemma parse_atom_length (s r : jsstring) (v : value) :
  JSON.parse_atom s = JSON.POk v r -> (length r <= length s)%nat.
Proof.
  unfold JSON.parse_atom. intros H.
  destruct (JSON.strip_prefix (js "null") s) eqn:E1.
  { injection H as <- <-. now apply strip_prefix_length in E1. }
  destruct (JSON.strip_prefix (js "true") s) eqn:E2.
  { injection H as <- <-. now apply strip_prefix_length in E2. }
  destruct (JSON.strip_prefix (js "false") s) eqn:E3.
  { injection H as <- <-. now apply strip_prefix_length in E3. }
  destruct (JSON.parse_number s) as [[[m e] r']|] eqn:E4; [|discriminate].
  injection H as <- <-. now apply parse_number_length in E4.
Qed.

Lemma parse_atom_fuel (s : jsstring) : JSON.parse_atom s <> JSON.PFuel.
Proof.
  unfold JSON.parse_atom. repeat case_match; discriminate.
Qed.

(** What a parser leaves unread is no longer than what it was given. *)
Lemma parse_rest_length (fuel : nat) :
  (forall s v r, JSON.parse_value fuel s = JSON.POk v r -> (length r <= length s)%nat)
  /\ (forall s vs r, JSON.parse_elements fuel s = JSON.POk vs r ->
        (length r <= length s)%nat)
  /\ (forall s acc l r, JSON.parse_members fuel s acc = JSON.POk l r ->
        (length r <= length s)%nat).
Proof.
  induction fuel as [|fuel (IHv & IHe & IHm)]; [repeat split; discriminate|].
  repeat split.
  - intros s v r H. cbn [JSON.parse_value] in H.
    destruct (JSON.skip_ws s) as [|c s1] eqn:Es; [discriminate|].
    apply skip_ws_cons_length in Es.
    destruct (c =? 123).
    { destruct (JSON.skip_ws s1) as [|d s2] eqn:Es1; [discriminate|].
      apply skip_ws_cons_length in Es1.
      destruct (d =? 125); [injection H as <- <-; lia|].
      destruct (JSON.parse_members fuel s1 []) as [l r'| |] eqn:Em; try discriminate.
      injection H as <- <-. apply IHm in Em. lia. }
    destruct (c =? 91).
    { destruct (JSON.skip_ws s1) as [|d s2] eqn:Es1; [discriminate|].
      apply skip_ws_cons_length in Es1.
      destruct (d =? 93); [injection H as <- <-; lia|].
      destruct (JSON.parse_elements fuel s1) as [l r'| |] eqn:Ee; try discriminate.
      injection H as <- <-. apply IHe in Ee. lia. }
    destruct (c =? 34).
    { destruct (JSON.parse_chars s1) as [[str r']|] eqn:Ec; [|discriminate].
      injection H as <- <-. apply parse_chars_length in Ec. lia. }
    apply parse_atom_length in H. cbn [length] in H. lia.
  - intros s vs r H. cbn [JSON.parse_elements] in H.
    destruct (JSON.parse_value fuel s) as [v r1| |] eqn:Ev; try discriminate.
    apply IHv in Ev.
    destruct (JSON.skip_ws r1) as [|c r2] eqn:Es; [discriminate|].
    apply skip_ws_cons_length in Es.
    destruct (c =? 44).
    { destruct (JSON.parse_elements fuel r2) as [l r'| |] eqn:Ee; try discriminate.
      injection H as <- <-. apply IHe in Ee. lia. }
    destruct (c =? 93); [|discriminate]. injection H as <- <-. lia.
  - intros s acc l r H. cbn [JSON.parse_members] in H.
    destruct (JSON.skip_ws s) as [|c s1] eqn:Es; [discriminate|].
    apply skip_ws_cons_length in Es.
    destruct (c =? 34); [|discriminate].
    destruct (JSON.parse_chars s1) as [[k r1]|] eqn:Ec; [|discriminate].
    apply parse_chars_length in Ec.
    destruct (JSON.skip_ws r1) as [|d r2] eqn:Es1; [discriminate|].
    apply skip_ws_cons_length in Es1.
    destruct (d =? 58); [|discriminate].
    destruct (JSON.parse_value fuel r2) as [v r3| |] eqn:Ev; try discriminate.
    apply IHv in Ev.
    destruct (JSON.skip_ws r3) as [|x r4] eqn:Es3; [discriminate|].
    apply skip_ws_cons_length in Es3.
    destruct (x =? 44); [apply IHm in H; lia|].
    destruct (x =? 125); [|discriminate]. injection H as <- <-. lia.
Qed.

(** With fuel above twice the length of the input no parser runs out. *)
Lemma parse_fuel_enough (fuel : nat) :
  (forall s, (2 * length s < fuel)%nat -> JSON.parse_value fuel s <> JSON.PFuel)
  /\ (forall s, (2 * length s + 1 < fuel)%nat -> JSON.parse_elements fuel s <> JSON.PFuel)
  /\ (forall s acc, (2 * length s + 1 < fuel)%nat ->
        JSON.parse_members fuel s acc <> JSON.PFuel).
Proof.
  induction fuel as [|fuel (IHv & IHe & IHm)]; [repeat split; intros; lia|].
  repeat split.
  - intros s Hf. cbn [JSON.parse_value].
    destruct (JSON.skip_ws s) as [|c s1] eqn:Es; [discriminate|].
    apply skip_ws_cons_length in Es.
    destruct (c =? 123).
    { destruct (JSON.skip_ws s1) as [|d s2] eqn:Es1; [discriminate|].
      destruct (d =? 125); [discriminate|].
      specialize (IHm s1 [] ltac:(lia)).
      destruct (JSON.parse_members fuel s1 []); congruence. }
    destruct (c =? 91).
    { destruct (JSON.skip_ws s1) as [|d s2] eqn:Es1; [discriminate|].
      destruct (d =? 93); [discriminate|].
      specialize (IHe s1 ltac:(lia)).
      destruct (JSON.parse_elements fuel s1); congruence. }
    destruct (c =? 34).
    { destruct (JSON.parse_chars s1) as [[str r']|]; discriminate. }
    apply parse_atom_fuel.
  - intros s Hf. cbn [JSON.parse_elements].
    specialize (IHv s ltac:(lia)).
    destruct (JSON.parse_value fuel s) as [v r1| |] eqn:Ev; [|discriminate|congruence].
    apply (proj1 (parse_rest_length fuel)) in Ev.
    destruct (JSON.skip_ws r1) as [|c r2] eqn:Es; [discriminate|].
    apply skip_ws_cons_length in Es.
    destruct (c =? 44).
    { specialize (IHe r2 ltac:(lia)).
      destruct (JSON.parse_elements fuel r2); congruence. }
    destruct (c =? 93); discriminate.
  - intros s acc Hf. cbn [JSON.parse_members].
    destruct (JSON.skip_ws s) as [|c s1] eqn:Es; [discriminate|].
    apply skip_ws_cons_length in Es.
    destruct (c =? 34); [|discriminate].
    destruct (JSON.parse_chars s1) as [[k r1]|] eqn:Ec; [|discriminate].
    apply parse_chars_length in Ec.
    destruct (JSON.skip_ws r1) as [|d r2] eqn:Es1; [discriminate|].
    apply skip_ws_cons_length in Es1.
    destruct (d =? 58); [|discriminate].
    specialize (IHv r2 ltac:(lia)).
    destruct (JSON.parse_value fuel r2) as [v r3| |] eqn:Ev; [|discriminate|congruence].
    apply (proj1 (parse_rest_length fuel)) in Ev.
    destruct (JSON.skip_ws r3) as [|x r4] eqn:Es3; [discriminate|].
    apply skip_ws_cons_length in Es3.
    destruct (x =? 44); [apply IHm; lia|].
    destruct (x =? 125); discriminate.
Qed.

(** [JSON.parse] returns a value or throws a [SyntaxError]. *)
Lemma parse_total (s : jsstring) :
  (exists v, JSON.parse s = Normal v) \/ JSON.parse s = Throw SyntaxError.
Proof.
  unfold JSON.parse.
  pose proof (proj1 (parse_fuel_enough (2 * length s + 2)) s ltac:(lia)) as Hf.
  destruct (JSON.parse_value (2 * length s + 2) s) as [v r| |]; [| now right | congruence].
  destruct (JSON.skip_ws r); [left; eauto | now right].
Qed.

(** ** Checklist: loading *)

Lemma plain_item (it : ChecklistItem) : plain (item_value it) = true.
Proof. reflexivity. Qed.

Lemma plain_checklist (items : list ChecklistItem) : plain (checklist_value items) = true.
Proof.
  unfold checklist_value. cbn [plain]. apply forallb_forall. intros v Hv.
  apply in_map_iff in Hv as (it & <- & _). apply plain_item.
Qed.

(** A saved checklist loads back as the same sequence of records. *)
Lemma parse_stringify_checklist (items : list ChecklistItem) :
  JSON.parse (JSON.stringify (checklist_value items)) = Normal (checklist_value items).
Proof. apply parse_stringify, plain_checklist. Qed.

Lemma stringify_nonempty (v : value) :
  plain v = true -> exists c s, JSON.stringify v = c :: s.
Proof. intros Hp. destruct (stringify_head v Hp) as (c & r & H & _). eauto. Qed.

Lemma getItem_setItem (k v : jsstring) (p : page) : getItem k (setItem k v p) = Some v.
Proof. unfold getItem, setItem. cbn. apply lookup_insert_eq. Qed.

Lemma getItem_setItem_ne (k k' v : jsstring) (p : page) :
  k' <> k -> getItem k' (setItem k v p) = getItem k' p.
Proof. intros H. unfold getItem, setItem. cbn. now apply lookup_insert_ne. Qed.

Lemma loadChecklist_saved (v : value) (p : page) :
  plain v = true -> loadChecklist (saveChecklist v p) = Normal v.
Proof.
  intros Hp. unfold loadChecklist, saveChecklist. rewrite getItem_setItem.
  destruct (stringify_nonempty v Hp) as (c & s & Hs). rewrite Hs, <- Hs.
  now apply parse_stringify.
Qed.

(** *** C1 *)

(** C1, as stated, fails: a stored string that is not JSON makes
    [loadChecklist] throw a [SyntaxError], and a stored JSON text of another
    shape is returned as it is, not as the empty sequence. *)
Lemma loadChecklist_malformed_throws :
  getItem CHECKLIST_STORAGE_KEY (checklist_page (js "{")) = Some (js "{")
  /\ loadChecklist (checklist_page (js "{")) = Throw SyntaxError
  /\ loadChecklist (checklist_page (jsq "{'a':true}")) = Normal (Obj [(js "a", Bool true)]).
Proof. repeat split; vm_compute; reflexivity. Qed.

(** C1 (amended): [loadChecklist] returns the empty sequence when the key is
    absent or holds the empty string; the saved sequence of records when the
    key holds what [saveChecklist] wrote for it; for any other non-empty
    stored string, the value [JSON.parse] reads from it, whatever its shape,
    and it throws a [SyntaxError] when the string is not JSON. *)
Theorem loadChecklist_cases (p : page) :
  (getItem CHECKLIST_STORAGE_KEY p = None -> loadChecklist p = Normal (Arr []))
  /\ (getItem CHECKLIST_STORAGE_KEY p = Some [] -> loadChecklist p = Normal (Arr []))
  /\ (forall items,
        getItem CHECKLIST_STORAGE_KEY p = Some (JSON.stringify (checklist_value items)) ->
        loadChecklist p = Normal (checklist_value items))
  /\ (forall s v, s <> [] -> getItem CHECKLIST_STORAGE_KEY p = Some s ->
        JSON.parse s = Normal v -> loadChecklist p = Normal v)
  /\ (forall s, s <> [] -> getItem CHECKLIST_STORAGE_KEY p = Some s ->
        (forall v, JSON.parse s <> Normal v) -> loadChecklist p = Throw SyntaxError).
Proof.
  unfold loadChecklist. repeat split.
  - now intros ->.
  - now intros ->.
  - intros items ->.
    destruct (stringify_nonempty _ (plain_checklist items)) as (c & s & Hs).
    rewrite Hs, <- Hs. apply parse_stringify_checklist.
  - intros [|c s] v Hne -> Hv; [contradiction | exact Hv].
  - intros [|c s] Hne -> Hv; [contradiction|].
    destruct (parse_total (c :: s)) as [[v Hn]|Hs]; [now apply Hv in Hn | exact Hs].
Qed.

Lemma loadChecklist_cases_witness :
  loadChecklist (fresh_page [] [] 0 2024) = Normal (Arr [])
  /\ loadChecklist (checklist_page []) = Normal (Arr [])
  /\ loadChecklist (checklist_page (jsq "[{'text':'Buy milk','checked':false}]"))
     = Normal (checklist_value [{| text := js "Buy milk"; checked := false |}])
  /\ loadChecklist (checklist_page (js " [ null ] ")) = Normal (Arr [Null])
  /\ loadChecklist (checklist_page (js "oops")) = Throw SyntaxError.
Proof.
  split; [|split; [|split; [|split]]].
  - apply (proj1 (loadChecklist_cases (fresh_page [] [] 0 2024))). reflexivity.
  - apply (proj1 (proj2 (loadChecklist_cases (checklist_page [])))). reflexivity.
  - apply (proj1 (proj2 (proj2 (loadChecklist_cases
             (checklist_page (jsq "[{'text':'Buy milk','checked':false}]")))))
             [{| text := js "Buy milk"; checked := false |}]).
    reflexivity.
  - apply (proj1 (proj2 (proj2 (proj2 (loadChecklist_cases (checklist_page (js " [ null ] "))))))
             (js " [ null ] ")).
    + discriminate.
    + reflexivity.
    + reflexivity.
  - apply (proj2 (proj2 (proj2 (proj2 (loadChecklist_cases (checklist_page (js "oops"))))))
             (js "oops")).
    + discriminate.
    + reflexivity.
    + intros v. vm_compute. discriminate.
Defined.

(** ** Checklist: rendering and saving *)

Lemma render_item_record (i : nat) (it : ChecklistItem) :
  render_item i (item_value it)
  = Normal {| row_index := i; row_completed := checked it; row_text := text it |}.
Proof. reflexivity. Qed.

Lemma render_items_records (items : list ChecklistItem) :
  forall (n : nat) (p : page),
  render_items n (List.map item_value items) p
  = Done (with_rows (fun _ => rows p ++
            imap (fun i it => {| row_index := n + i; row_completed := checked it;
                                 row_text := text it |}) items) p).
Proof.
  induction items as [|it items IH]; intros n p.
  - cbn [List.map render_items imap]. unfold with_rows. rewrite app_nil_r.
    now destruct p.
  - cbn [List.map render_items]. rewrite render_item_record, IH.
    unfold with_rows. cbn [rows anchors localStorage props cells notesEnv listeners timers
                            currentMonth currentYear effects imap].
    rewrite <- app_assoc. cbn [app]. rewrite Nat.add_0_r.
    do 4 f_equal. apply imap_ext. intros i x _. cbn. f_equal. lia.
Qed.

(** Rendering a stored sequence of records shows one row per record and
    changes nothing else. *)
Lemma renderChecklist_records (p : page) (items : list ChecklistItem) :
  loadChecklist p = Normal (checklist_value items) ->
  renderChecklist p = Done (with_rows (fun _ => rows_of items) p).
Proof.
  intros H. unfold renderChecklist. rewrite H. unfold checklist_value.
  rewrite render_items_records. reflexivity.
Qed.

(** Saving a sequence of records and rendering it. *)
Lemma save_and_render (p : page) (items : list ChecklistItem) :
  renderChecklist (saveChecklist (checklist_value items) p)
  = Done (with_rows (fun _ => rows_of items) (saveChecklist (checklist_value items) p)).
Proof. apply renderChecklist_records, loadChecklist_saved, plain_checklist. Qed.

Lemma loadChecklist_with_rows (f : list row -> list row) (p : page) :
  loadChecklist (with_rows f p) = loadChecklist p.
Proof. reflexivity. Qed.

Lemma splice1_in_range {A : Type} (f : A -> value) (l : list A) (k : nat) :
  (k < length l)%nat ->
  splice1 (List.map f l) (Z.of_nat k) = List.map f (delete k l).
Proof.
  intros Hk. unfold splice1. rewrite length_map.
  destruct (Z.ltb_spec (Z.of_nat k) 0); [lia|].
  rewrite Z.min_l by lia. rewrite Z.min_l by lia.
  rewrite Nat2Z.id. replace (Z.to_nat (Z.of_nat k + 1)) with (S k) by lia.
  rewrite delete_take_drop, map_app.
  now rewrite firstn_map, skipn_map.
Qed.

Lemma splice1_above {A : Type} (f : A -> value) (l : list A) (index : Z) :
  (Z.of_nat (length l) <= index)%Z -> splice1 (List.map f l) index = List.map f l.
Proof.
  intros Hk. unfold splice1. rewrite length_map.
  destruct (Z.ltb_spec index 0); [lia|].
  rewrite Z.min_r by lia. rewrite Z.min_r by lia.
  rewrite Z.sub_diag, Z.add_0_r, Nat2Z.id.
  rewrite <- (length_map f l), firstn_all, skipn_all. apply app_nil_r.
Qed.

Lemma splice1_below {A : Type} (f : A -> value) (l : list A) (index : Z) :
  (index < - Z.of_nat (length l))%Z -> splice1 (List.map f l) index = List.map f (drop 1 l).
Proof.
  intros Hk. unfold splice1. rewrite length_map.
  destruct (Z.ltb_spec index 0); [|lia].
  rewrite Z.max_r by lia. rewrite Z.sub_0_r, Z.add_0_l. cbn [Z.to_nat take app].
  destruct l as [|x l]; [reflexivity|].
  rewrite Z.min_l by (cbn [length]; lia). reflexivity.
Qed.

(** *** C3 *)

(** C3: for a stored checklist of [n >= 1] records and an index [k < n],
    [deleteItem k] returns normally, persists and renders a sequence of
    [n - 1] records in which the record formerly at [k + 1] (and in general
    at [j + 1] for [j >= k]) is at [k] (at [j]), and every record at an index
    below [k] is unchanged. *)
Theorem deleteItem_in_range (p : page) (items : list ChecklistItem) (k : nat) :
  loadChecklist p = Normal (checklist_value items) -> (k < length items)%nat ->
  exists items',
    deleteItem (Z.of_nat k) p
    = Done (with_rows (fun _ => rows_of items') (saveChecklist (checklist_value items') p))
    /\ getItem CHECKLIST_STORAGE_KEY (final (deleteItem (Z.of_nat k) p))
       = Some (JSON.stringify (checklist_value items'))
    /\ writes (final (deleteItem (Z.of_nat k) p))
       = writes p ++ [(CHECKLIST_STORAGE_KEY, JSON.stringify (checklist_value items'))]
    /\ loadChecklist (final (deleteItem (Z.of_nat k) p)) = Normal (checklist_value items')
    /\ length items' = (length items - 1)%nat
    /\ items' !! k = items !! S k
    /\ (forall j, (j < k)%nat -> items' !! j = items !! j)
    /\ (forall j, (k <= j)%nat -> items' !! j = items !! S j).
Proof.
  intros Hload Hk. exists (delete k items).
  assert (Hrun : deleteItem (Z.of_nat k) p
                 = Done (with_rows (fun _ => rows_of (delete k items))
                           (saveChecklist (checklist_value (delete k items)) p))).
  { unfold deleteItem. rewrite Hload. unfold checklist_value.
    rewrite splice1_in_range by exact Hk. apply save_and_render. }
  rewrite Hrun. cbn [final]. repeat split.
  - apply getItem_setItem.
  - rewrite loadChecklist_with_rows. apply loadChecklist_saved, plain_checklist.
  - rewrite length_delete; [lia|]. now apply lookup_lt_is_Some_2.
  - now rewrite list_lookup_delete_ge.
  - intros j Hj. now rewrite list_lookup_delete_lt.
  - intros j Hj. now rewrite list_lookup_delete_ge.
Qed.

Lemma deleteItem_in_range_witness :
  exists items',
    deleteItem (Z.of_nat 1) three_items_page
    = Done (with_rows (fun _ => rows_of items')
              (saveChecklist (checklist_value items') three_items_page))
    /\ getItem CHECKLIST_STORAGE_KEY (final (deleteItem (Z.of_nat 1) three_items_page))
       = Some (JSON.stringify (checklist_value items'))
    /\ writes (final (deleteItem (Z.of_nat 1) three_items_page))
       = writes three_items_page ++ [(CHECKLIST_STORAGE_KEY, JSON.stringify (checklist_value items'))]
    /\ loadChecklist (final (deleteItem (Z.of_nat 1) three_items_page))
       = Normal (checklist_value items')
    /\ length items' = (length three_items - 1)%nat
    /\ items' !! 1%nat = three_items !! 2%nat
    /\ (forall j, (j < 1)%nat -> items' !! j = three_items !! j)
    /\ (forall j, (1 <= j)%nat -> items' !! j = three_items !! S j).
Proof.
  apply (deleteItem_in_range three_items_page three_items 1).
  - vm_compute. reflexivity.
  - cbn. lia.
Defined.

(** *** C4 *)

Lemma toggle_checked_record (items : list ChecklistItem) (k : nat) (it : ChecklistItem) :
  items !! k = Some it ->
  toggle_checked (checklist_value items) (Z.of_nat k)
  = Normal (checklist_value (<[k := toggled it]> items)).
Proof.
  intros Hk. unfold toggle_checked, checklist_value, get_index.
  destruct (Z.leb_spec 0 (Z.of_nat k)); [|lia].
  rewrite Nat2Z.id.
  change (List.map item_value items) with (item_value <$> items).
  rewrite list_lookup_fmap, Hk. cbn [fmap option_fmap option_map mbind completion_bind item_value].
  unfold put_index. destruct (Z.leb_spec 0 (Z.of_nat k)); [|lia].
  rewrite Nat2Z.id. change (List.map item_value (<[k:=toggled it]> items))
    with (item_value <$> <[k:=toggled it]> items).
  rewrite list_fmap_insert. reflexivity.
Qed.

(** C4: for a stored checklist and an index [k] below its length,
    [toggleItem k] returns normally and persists and renders a sequence of
    the same length in which the record at [k] has the same text and the
    opposite [checked], and every other position holds the record it held. *)
Theorem toggleItem_in_range (p : page) (items : list ChecklistItem) (k : nat) :
  loadChecklist p = Normal (checklist_value items) -> (k < length items)%nat ->
  exists it items',
    items !! k = Some it
    /\ toggleItem (Z.of_nat k) p
       = Done (with_rows (fun _ => rows_of items') (saveChecklist (checklist_value items') p))
    /\ getItem CHECKLIST_STORAGE_KEY (final (toggleItem (Z.of_nat k) p))
       = Some (JSON.stringify (checklist_value items'))
    /\ writes (final (toggleItem (Z.of_nat k) p))
       = writes p ++ [(CHECKLIST_STORAGE_KEY, JSON.stringify (checklist_value items'))]
    /\ loadChecklist (final (toggleItem (Z.of_nat k) p)) = Normal (checklist_value items')
    /\ length items' = length items
    /\ items' !! k = Some {| text := text it; checked := negb (checked it) |}
    /\ (forall j, j <> k -> items' !! j = items !! j).
Proof.
  intros Hload Hk.
  destruct (lookup_lt_is_Some_2 items k Hk) as [it Hit].
  exists it, (<[k := toggled it]> items).
  assert (Hrun : toggleItem (Z.of_nat k) p
                 = Done (with_rows (fun _ => rows_of (<[k := toggled it]> items))
                           (saveChecklist (checklist_value (<[k := toggled it]> items)) p))).
  { unfold toggleItem. rewrite Hload, (toggle_checked_record items k it Hit).
    apply save_and_render. }
  rewrite Hrun. cbn [final]. repeat split.
  - exact Hit.
  - apply getItem_setItem.
  - rewrite loadChecklist_with_rows. apply loadChecklist_saved, plain_checklist.
  - apply length_insert.
  - now rewrite list_lookup_insert_eq.
  - intros j Hj. now rewrite list_lookup_insert_ne.
Qed.

Lemma toggleItem_in_range_witness :
  exists it items',
    three_items !! 1%nat = Some it
    /\ toggleItem (Z.of_nat 1) three_items_page
       = Done (with_rows (fun _ => rows_of items')
                 (saveChecklist (checklist_value items') three_items_page))
    /\ getItem CHECKLIST_STORAGE_KEY (final (toggleItem (Z.of_nat 1) three_items_page))
       = Some (JSON.stringify (checklist_value items'))
    /\ writes (final (toggleItem (Z.of_nat 1) three_items_page))
       = writes three_items_page ++ [(CHECKLIST_STORAGE_KEY, JSON.stringify (checklist_value items'))]
    /\ loadChecklist (final (toggleItem (Z.of_nat 1) three_items_page))
       = Normal (checklist_value items')
    /\ length items' = length three_items
    /\ items' !! 1%nat = Some {| text := text it; checked := negb (checked it) |}
    /\ (forall j, j <> 1%nat -> items' !! j = three_items !! j).
Proof.
  apply (toggleItem_in_range three_items_page three_items 1).
  - vm_compute. reflexivity.
  - cbn. lia.
Defined.

(** *** C5 *)

(** C5: when the trimmed text of the input box is empty, [addItem] returns
    at once and leaves the page, hence the store and the stored sequence,
    as they were; otherwise, over a stored checklist, it appends the record
    with the trimmed text and [checked] false at the end, clears the input
    box, persists the new sequence and renders it. *)
Theorem addItem_cases (p : page) :
  (trim (prop p "inputBox" "value") = [] -> addItem p = Done p)
  /\ (forall items, trim (prop p "inputBox" "value") <> [] ->
      loadChecklist p = Normal (checklist_value items) ->
      let items' := items ++ [{| text := trim (prop p "inputBox" "value");
                                 checked := false |}] in
      addItem p
      = Done (with_rows (fun _ => rows_of items')
                (saveChecklist (checklist_value items')
                   (set_prop "inputBox" "value" [] p)))
      /\ getItem CHECKLIST_STORAGE_KEY (final (addItem p))
         = Some (JSON.stringify (checklist_value items'))
      /\ writes (final (addItem p))
         = writes p ++ [(CHECKLIST_STORAGE_KEY, JSON.stringify (checklist_value items'))]
      /\ loadChecklist (final (addItem p)) = Normal (checklist_value items')
      /\ length items' = S (length items)
      /\ prop (final (addItem p)) "inputBox" "value" = []).
Proof.
  split.
  - intros Ht. unfold addItem. now rewrite Ht.
  - intros items Ht Hload items'.
    assert (Hrun : addItem p
                   = Done (with_rows (fun _ => rows_of items')
                             (saveChecklist (checklist_value items')
                                (set_prop "inputBox" "value" [] p)))).
    { unfold addItem, str_eqb. rewrite bool_decide_eq_false_2 by exact Ht.
      rewrite Hload. unfold checklist_value at 1.
      replace (Arr (List.map item_value items ++
                 [Obj [(js "text", Str (trim (prop p "inputBox" "value")));
                       (js "checked", Bool false)]]))
        with (checklist_value items')
        by (unfold checklist_value, items'; now rewrite map_app).
      apply save_and_render. }
    rewrite Hrun. cbn [final]. repeat split.
    + apply getItem_setItem.
    + rewrite loadChecklist_with_rows. apply loadChecklist_saved, plain_checklist.
    + unfold items'. rewrite length_app. cbn. lia.
    + unfold prop, set_prop. cbn. now rewrite lookup_insert_eq.
Qed.

Lemma addItem_cases_witness :
  addItem (set_prop "inputBox" "value" (js "   ") three_items_page)
  = Done (set_prop "inputBox" "value" (js "   ") three_items_page)
  /\ loadChecklist (final (addItem (set_prop "inputBox" "value" (js " Buy milk ")
                                     (checklist_page []))))
     = Normal (checklist_value [{| text := js "Buy milk"; checked := false |}]).
Proof.
  split.
  - apply (proj1 (addItem_cases (set_prop "inputBox" "value" (js "   ") three_items_page))).
    reflexivity.
  - apply (proj2 (addItem_cases (set_prop "inputBox" "value" (js " Buy milk ")
                                   (checklist_page []))) []).
    + discriminate.
    + reflexivity.
Defined.

(** *** C10 *)

(** C10, as stated, fails below [-n]: [splice] clamps such a start to 0 and
    removes the first record. *)
Lemma deleteItem_far_negative_removes_first :
  loadChecklist three_items_page = Normal (checklist_value three_items)
  /\ loadChecklist (final (deleteItem (-4) three_items_page))
     = Normal (checklist_value [{| text := js "b"; checked := true |};
                                {| text := js "c"; checked := false |}]).
Proof. split; vm_compute; reflexivity. Qed.

(** C10 (amended): for a stored checklist of [n] records, [deleteItem]
    returns normally for every index at or above [n], persisting and
    rendering the sequence that was loaded; for every index below [-n] it
    returns normally as well, persisting and rendering the loaded sequence
    without its first record. *)
Theorem deleteItem_out_of_range (p : page) (items : list ChecklistItem) (index : Z) :
  loadChecklist p = Normal (checklist_value items) ->
  ((Z.of_nat (length items) <= index)%Z ->
     deleteItem index p
     = Done (with_rows (fun _ => rows_of items) (saveChecklist (checklist_value items) p))
     /\ getItem CHECKLIST_STORAGE_KEY (final (deleteItem index p))
        = Some (JSON.stringify (checklist_value items))
     /\ writes (final (deleteItem index p))
        = writes p ++ [(CHECKLIST_STORAGE_KEY, JSON.stringify (checklist_value items))]
     /\ loadChecklist (final (deleteItem index p)) = Normal (checklist_value items))
  /\ ((index < - Z.of_nat (length items))%Z ->
     deleteItem index p
     = Done (with_rows (fun _ => rows_of (drop 1 items))
               (saveChecklist (checklist_value (drop 1 items)) p))
     /\ loadChecklist (final (deleteItem index p)) = Normal (checklist_value (drop 1 items))).
Proof.
  intros Hload. split; intros Hi.
  - assert (Hrun : deleteItem index p
                   = Done (with_rows (fun _ => rows_of items)
                             (saveChecklist (checklist_value items) p))).
    { unfold deleteItem. rewrite Hload. unfold checklist_value.
      rewrite splice1_above by exact Hi. apply save_and_render. }
    rewrite Hrun. cbn [final]. repeat split.
    + apply getItem_setItem.
    + rewrite loadChecklist_with_rows. apply loadChecklist_saved, plain_checklist.
  - assert (Hrun : deleteItem index p
                   = Done (with_rows (fun _ => rows_of (drop 1 items))
                             (saveChecklist (checklist_value (drop 1 items)) p))).
    { unfold deleteItem. rewrite Hload. unfold checklist_value.
      rewrite splice1_below by exact Hi. apply save_and_render. }
    rewrite Hrun. cbn [final]. split; [reflexivity|].
    rewrite loadChecklist_with_rows. apply loadChecklist_saved, plain_checklist.
Qed.

Lemma deleteItem_out_of_range_witness :
  loadChecklist (final (deleteItem 3 three_items_page)) = Normal (checklist_value three_items)
  /\ loadChecklist (final (deleteItem (-7) three_items_page))
     = Normal (checklist_value (drop 1 three_items)).
Proof.
  split.
  - apply (proj1 (deleteItem_out_of_range three_items_page three_items 3
                    ltac:(vm_compute; reflexivity)) ltac:(cbn; lia)).
  - apply (proj2 (deleteItem_out_of_range three_items_page three_items (-7)
                    ltac:(vm_compute; reflexivity)) ltac:(cbn; lia)).
Defined.

(** ** Password gate *)

Lemma getElement_optional (id : string) (p : page) :
  getElement id false p = (has p id, p).
Proof. reflexivity. Qed.

(** *** C9 *)

(** C9: [checkPassword] navigates to the main page exactly when the
    passcode input exists and holds the accepted value, and otherwise shows
    the rejection message; the passcode that message tells the user to try
    is not the accepted value, and entering it is rejected with the same
    message. *)
Theorem checkPassword_hint_inconsistent (p : page) :
  (checkPassword p = emit (Navigate (js "main.html")) p
   <-> has p "passwordInput" = true /\ prop p "passwordInput" "value" = ACCEPTED_PASSWORD)
  /\ (checkPassword p = emit (Alert REJECTION_MESSAGE) p
      <-> ~ (has p "passwordInput" = true
             /\ prop p "passwordInput" "value" = ACCEPTED_PASSWORD))
  /\ quoted_part REJECTION_MESSAGE = Some (js "1234")
  /\ js "1234" <> ACCEPTED_PASSWORD
  /\ checkPassword (lock_page (js "1234"))
     = emit (Alert REJECTION_MESSAGE) (lock_page (js "1234"))
  /\ checkPassword (lock_page ACCEPTED_PASSWORD)
     = emit (Navigate (js "main.html")) (lock_page ACCEPTED_PASSWORD).
Proof.
  assert (Hne : forall q, emit (Navigate (js "main.html")) q
                          <> emit (Alert REJECTION_MESSAGE) q).
  { intros q H. apply (f_equal effects) in H. cbn in H.
    apply app_inj_tail in H as [_ H]. discriminate. }
  unfold checkPassword. rewrite getElement_optional. unfold str_eqb.
  split; [|split; [|repeat split]].
  - destruct (has p "passwordInput"); cbn [andb].
    + case_bool_decide as Hv.
      * split; [now intros _ | reflexivity].
      * split; [intros H; symmetry in H; now apply Hne in H | now intros [_ ?]].
    + split; [intros H; symmetry in H; now apply Hne in H | now intros [? _]].
  - destruct (has p "passwordInput"); cbn [andb].
    + case_bool_decide as Hv.
      * split; [intros H; now apply Hne in H | intros H; exfalso; now apply H].
      * split; [now intros _ [_ ?] | reflexivity].
    + split; [now intros _ [? _] | reflexivity].
  - discriminate.
Qed.

(** ** Calendar *)

Lemma calendar_frame_refl (p : page) : calendar_frame p p.
Proof. now repeat split. Qed.

Lemma calendar_frame_trans (p q r : page) :
  calendar_frame p q -> calendar_frame q r -> calendar_frame p r.
Proof. unfold calendar_frame. intuition congruence. Qed.

Section CalendarFrame.

Variable h : host.

Lemma render_day_frame (savedNotes : value) (i : nat) (p : page) :
  calendar_frame p (final (render_day h savedNotes i p)).
Proof.
  unfold render_day. destruct (today h) as [[d m] y].
  destruct (get_index savedNotes (Z.of_nat i)) as [note|e]; [|apply calendar_frame_refl].
  destruct (if truthy_opt note then to_text note else Normal []);
    [now repeat split | apply calendar_frame_refl].
Qed.

Lemma render_days_frame (savedNotes : value) (n : nat) :
  forall (i : nat) (p : page), calendar_frame p (final (render_days h savedNotes n i p)).
Proof.
  induction n as [|n IH]; intros i p; [apply calendar_frame_refl|].
  cbn [render_days]. pose proof (render_day_frame savedNotes i p) as Hd.
  destruct (render_day h savedNotes i p) as [q|e q]; cbn [and_then final] in *.
  - eapply calendar_frame_trans; [exact Hd | apply IH].
  - exact Hd.
Qed.

Lemma generateCalendar_frame (p : page) :
  calendar_frame p (final (generateCalendar h p)).
Proof.
  unfold generateCalendar. rewrite !getElement_optional.
  destruct (negb (has p "month-year") || negb (has p "calendar-body"));
    [apply calendar_frame_refl|].
  destruct (JSON.parse _) as [savedNotes|e]; [|now repeat split].
  eapply calendar_frame_trans; [|apply render_days_frame]. now repeat split.
Qed.

(** *** C7 *)

(** C7: from December a forward step gives January of the next year, from
    January a backward step gives December of the previous year, and any
    other single step adds or subtracts one from the month and keeps the
    year, whether or not the regeneration of the grid that follows
    completes. *)
Theorem navigateMonth_transitions (p : page) :
  let next := final (navigateMonth h 1 p) in
  let previous := final (navigateMonth h (-1) p) in
  (currentMonth p = 11%Z ->
     currentMonth next = 0%Z /\ currentYear next = (currentYear p + 1)%Z)
  /\ (currentMonth p = 0%Z ->
     currentMonth previous = 11%Z /\ currentYear previous = (currentYear p - 1)%Z)
  /\ ((0 <= currentMonth p < 11)%Z ->
     currentMonth next = (currentMonth p + 1)%Z /\ currentYear next = currentYear p)
  /\ ((0 < currentMonth p <= 11)%Z ->
     currentMonth previous = (currentMonth p - 1)%Z /\ currentYear previous = currentYear p).
Proof.
  intros next previous. subst next previous. unfold navigateMonth.
  split; [|split; [|split]]; intros Hm;
    match goal with
    | |- context [final (generateCalendar h ?q)] =>
        destruct (generateCalendar_frame q) as (_ & _ & _ & _ & _ & -> & -> & _)
    end;
    repeat match goal with
      | |- context [(?a <? ?b)%Z] => destruct (Z.ltb_spec a b); try lia
      | |- context [(?a >? ?b)%Z] => rewrite (Z.gtb_ltb a b)
      end; cbn; lia.
Qed.

End CalendarFrame.

Lemma navigateMonth_transitions_witness :
  currentMonth (final (navigateMonth sample_host 1
                        (fresh_page ["month-year"; "calendar-body"] [] 11 2024))) = 0%Z
  /\ currentYear (final (navigateMonth sample_host 1
                          (fresh_page ["month-year"; "calendar-body"] [] 11 2024))) = 2025%Z.
Proof.
  apply (proj1 (navigateMonth_transitions sample_host
                  (fresh_page ["month-year"; "calendar-body"] [] 11 2024))).
  reflexivity.
Defined.

(** *** Storage keys of the months *)

Lemma js_cons (a : ascii) (s : string) :
  js (String a s) = N.of_nat (nat_of_ascii a) :: js s.
Proof. reflexivity. Qed.

Lemma uint_digits (d : Decimal.uint) :
  Forall (fun c => is_digit c = true) (js (NilEmpty.string_of_uint d)).
Proof.
  induction d; cbn [NilEmpty.string_of_uint]; [constructor|..];
    rewrite js_cons; constructor; auto.
Qed.

(** A decimal numeral is a minus sign or a digit followed by digits. *)
Lemma Z_to_js_shape (z : Z) :
  exists c r, Z_to_js z = c :: r /\ Forall (fun c => is_digit c = true) r.
Proof.
  unfold Z_to_js. destruct z as [|p|p]; cbn [Z.to_int NilEmpty.string_of_int].
  - exists 48, []. split; [reflexivity | constructor].
  - pose proof (uint_digits (Pos.to_uint p)) as Hd.
    pose proof (DecimalPos.Unsigned.to_uint_nonnil p) as Hn.
    destruct (Pos.to_uint p); try contradiction;
      cbn [NilEmpty.string_of_uint] in *; rewrite js_cons in *;
      apply Forall_cons in Hd as [_ Hd]; eauto.
  - rewrite js_cons. eexists _, _. split; [reflexivity | apply uint_digits].
Qed.

Lemma split_at_dash (d d' t t' : jsstring) :
  Forall (fun c => is_digit c = true) d -> Forall (fun c => is_digit c = true) d' ->
  d ++ 45 :: t = d' ++ 45 :: t' -> d = d' /\ t = t'.
Proof.
  intros Hd. revert d'. induction Hd as [|c d Hc Hd IH]; intros d' Hd' H.
  - destruct Hd' as [|c' d' Hc' _]; cbn in H.
    + injection H as <-. now split.
    + injection H as <- _. discriminate.
  - destruct Hd' as [|c' d' Hc' Hd']; cbn in H.
    + injection H as -> _. discriminate.
    + injection H as <- H. apply IH in H as [<- <-]; auto.
Qed.

(** Each (year, month) pair has a storage key of its own. *)
Lemma getCalendarStorageKey_inj (y m y' m' : Z) :
  getCalendarStorageKey y m = getCalendarStorageKey y' m' -> y = y' /\ m = m'.
Proof.
  unfold getCalendarStorageKey. intros H. apply app_inv_head in H.
  destruct (Z_to_js_shape y) as (c & r & Hy & Hr).
  destruct (Z_to_js_shape y') as (c' & r' & Hy' & Hr').
  change (js "-") with [45] in H. rewrite Hy, Hy' in H. cbn [app] in H.
  injection H as Hc H. apply split_at_dash in H as [Hrr Hm]; try assumption.
  split; apply Z_to_js_inj; congruence.
Qed.

Section CalendarNotes.

Variable h : host.

(** *** The invariant of the calendar *)

Lemma render_day_notesEnv (savedNotes : value) (i : nat) (p : page) :
  notesEnv (final (render_day h savedNotes i p)) = notesEnv p.
Proof.
  unfold render_day. destruct (today h) as [[d m] y].
  destruct (get_index savedNotes (Z.of_nat i)) as [note|e]; [|reflexivity].
  now destruct (if truthy_opt note then to_text note else Normal []).
Qed.

Lemma render_days_notesEnv (savedNotes : value) (n : nat) :
  forall (i : nat) (p : page),
  notesEnv (final (render_days h savedNotes n i p)) = notesEnv p.
Proof.
  induction n as [|n IH]; intros i p; [reflexivity|].
  cbn [render_days]. pose proof (render_day_notesEnv savedNotes i p) as Hd.
  destruct (render_day h savedNotes i p) as [q|e q]; cbn [and_then final] in *.
  - now rewrite IH.
  - exact Hd.
Qed.

Lemma has_anchors (p q : page) (id : string) : anchors q = anchors p -> has q id = has p id.
Proof. unfold has. now intros ->. Qed.

Lemma generateCalendar_present (p : page) :
  has p "month-year" = true -> has p "calendar-body" = true ->
  generateCalendar h p
  = match JSON.parse (getItem_or (getCalendarStorageKey (currentYear p) (currentMonth p))
                        (js "{}") p) with
    | Throw e =>
        Raised e (set_prop "month-year" "textContent"
                    (month_text (currentMonth p) ++ js " " ++ Z_to_js (currentYear p))
                    (with_notesEnv None (with_cells (fun _ => []) p)))
    | Normal savedNotes =>
        render_days h savedNotes (daysIn h (currentYear p) (currentMonth p)) 1
          (grid_start h savedNotes p)
    end.
Proof.
  intros H1 H2. unfold generateCalendar. rewrite !getElement_optional, H1, H2.
  reflexivity.
Qed.

Lemma generateCalendar_absent (p : page) :
  has p "month-year" = false \/ has p "calendar-body" = false ->
  generateCalendar h p = Done p.
Proof.
  intros H. unfold generateCalendar. rewrite !getElement_optional.
  destruct H as [-> | ->]; [reflexivity|]. now rewrite orb_true_r.
Qed.

Lemma generateCalendar_bound_present (p : page) :
  has p "month-year" = true -> has p "calendar-body" = true ->
  calendar_bound (final (generateCalendar h p)).
Proof.
  intros H1 H2. rewrite generateCalendar_present by assumption.
  destruct (JSON.parse _) as [savedNotes|e]; [|now intros i].
  pose proof (render_days_notesEnv savedNotes (daysIn h (currentYear p) (currentMonth p)) 1
                (grid_start h savedNotes p)) as Hn.
  destruct (render_days_frame h savedNotes (daysIn h (currentYear p) (currentMonth p)) 1
              (grid_start h savedNotes p)) as (Ha & _ & _ & _ & _ & Hm & Hy & _).
  unfold calendar_bound. rewrite Hn, Hm, Hy, !(has_anchors _ _ _ Ha).
  cbn [grid_start notesEnv with_cells with_notesEnv].
  change (has (grid_start h savedNotes p)) with (has p). now rewrite H1, H2.
Qed.

Lemma calendar_bound_absent (p q : page) :
  has p "month-year" = false \/ has p "calendar-body" = false ->
  calendar_bound p -> notesEnv q = notesEnv p -> cells q = cells p ->
  calendar_bound q.
Proof.
  intros Habs Hp Hn Hc. unfold calendar_bound, has_day in *. rewrite Hn, Hc.
  destruct (notesEnv p) as [[k sn]|]; [|exact Hp].
  destruct Hp as (_ & H1 & H2). destruct Habs; congruence.
Qed.

Lemma anchors_present_dec (p : page) :
  (has p "month-year" = true /\ has p "calendar-body" = true)
  \/ (has p "month-year" = false \/ has p "calendar-body" = false).
Proof. destruct (has p "month-year"), (has p "calendar-body"); auto. Qed.

Lemma generateCalendar_bound (p : page) :
  calendar_bound p -> calendar_bound (final (generateCalendar h p)).
Proof.
  intros Hp. destruct (anchors_present_dec p) as [[H1 H2]|Habs].
  - now apply generateCalendar_bound_present.
  - now rewrite generateCalendar_absent.
Qed.

Lemma navigateMonth_stepped (d : Z) (p : page) :
  navigateMonth h d p = generateCalendar h (stepped d p).
Proof. reflexivity. Qed.

Lemma stepped_same (d : Z) (p : page) :
  anchors (stepped d p) = anchors p /\ localStorage (stepped d p) = localStorage p
  /\ props (stepped d p) = props p /\ cells (stepped d p) = cells p
  /\ notesEnv (stepped d p) = notesEnv p.
Proof. unfold stepped. repeat case_match; now repeat split. Qed.

Lemma navigateMonth_bound (d : Z) (p : page) :
  calendar_bound p -> calendar_bound (final (navigateMonth h d p)).
Proof.
  intros Hp. rewrite navigateMonth_stepped.
  destruct (stepped_same d p) as (Ha & _ & _ & Hc & Hn).
  destruct (anchors_present_dec p) as [[H1 H2]|Habs].
  - apply generateCalendar_bound_present; now rewrite (has_anchors _ _ _ Ha).
  - rewrite generateCalendar_absent by now rewrite !(has_anchors _ _ _ Ha).
    now apply (calendar_bound_absent p).
Qed.

(** *** Writing a note *)

Lemma onDayInput_same (i : nat) (text : jsstring) (p : page) :
  anchors (final (onDayInput i text p)) = anchors p
  /\ props (final (onDayInput i text p)) = props p
  /\ currentMonth (final (onDayInput i text p)) = currentMonth p
  /\ currentYear (final (onDayInput i text p)) = currentYear p.
Proof.
  unfold onDayInput. destruct (has_day i p); [|now repeat split].
  cbn [notesEnv with_cells]. destruct (notesEnv p) as [[k sn]|]; [|now repeat split].
  destruct (set_index sn (Z.of_nat i) (Str text)); now repeat split.
Qed.

(** A note is written under the key of the displayed month and nowhere
    else. *)
Lemma onDayInput_storage (i : nat) (text : jsstring) (p : page) (k : jsstring) :
  calendar_bound p ->
  k <> getCalendarStorageKey (currentYear p) (currentMonth p) ->
  getItem k (final (onDayInput i text p)) = getItem k p.
Proof.
  intros Hp Hk. unfold onDayInput. destruct (has_day i p); [|reflexivity].
  cbn [notesEnv with_cells]. unfold calendar_bound in Hp.
  destruct (notesEnv p) as [[k' sn]|]; [|reflexivity].
  destruct Hp as (-> & _ & _).
  destruct (set_index sn (Z.of_nat i) (Str text)); [|reflexivity].
  unfold getItem, setItem. cbn. now rewrite lookup_insert_ne.
Qed.

Lemma onDayInput_writes (i : nat) (text : jsstring) (p : page) :
  calendar_bound p ->
  writes (final (onDayInput i text p)) = writes p
  \/ exists v, writes (final (onDayInput i text p))
               = writes p ++ [(getCalendarStorageKey (currentYear p) (currentMonth p), v)].
Proof.
  intros Hp. unfold onDayInput. destruct (has_day i p); [|now left].
  cbn [notesEnv with_cells]. unfold calendar_bound in Hp.
  destruct (notesEnv p) as [[k' sn]|]; [|now left].
  destruct Hp as (-> & _ & _).
  destruct (set_index sn (Z.of_nat i) (Str text)) as [sn'|e]; [|now left].
  right. now exists (JSON.stringify sn').
Qed.

Lemma has_day_set_note (i j : nat) (text : jsstring) (cs : list cell) :
  existsb (fun c => match c with Day d _ _ _ => (d =? j)%nat | EmptyDay => false end)
    (List.map (set_note i text) cs)
  = existsb (fun c => match c with Day d _ _ _ => (d =? j)%nat | EmptyDay => false end) cs.
Proof.
  induction cs as [|c cs IH]; [reflexivity|]. cbn [List.map existsb]. rewrite IH. f_equal.
  destruct c as [|d date hl note]; [reflexivity|]. cbn [set_note].
  now destruct (d =? i)%nat.
Qed.

Lemma onDayInput_bound (i : nat) (text : jsstring) (p : page) :
  calendar_bound p -> calendar_bound (final (onDayInput i text p)).
Proof.
  intros Hp. unfold onDayInput. destruct (has_day i p) eqn:Hd; [|exact Hp].
  cbn [notesEnv with_cells]. unfold calendar_bound in *.
  destruct (notesEnv p) as [[k sn]|] eqn:En.
  - destruct (set_index sn (Z.of_nat i) (Str text)); cbn; rewrite ?En; exact Hp.
  - now rewrite Hp in Hd.
Qed.

(** *** Rendering depends on the displayed month and its stored map only *)

Lemma same_outcome_final (o1 o2 : outcome) :
  same_outcome o1 o2 -> same_view (final o1) (final o2).
Proof. destruct o1, o2; cbn; tauto. Qed.

Lemma render_day_same (savedNotes : value) (i : nat) (a b : page) :
  same_view a b ->
  same_outcome (render_day h savedNotes i a) (render_day h savedNotes i b).
Proof.
  intros (Hc & Hn & Hm & Hy). unfold render_day. rewrite Hm, Hy.
  destruct (today h) as [[d m] y].
  destruct (get_index savedNotes (Z.of_nat i)) as [note|e]; [|now repeat split].
  destruct (if truthy_opt note then to_text note else Normal []);
    [|now repeat split].
  cbn. unfold same_view. cbn. now rewrite Hc.
Qed.

Lemma render_days_same (savedNotes : value) (n : nat) :
  forall (i : nat) (a b : page), same_view a b ->
  same_outcome (render_days h savedNotes n i a) (render_days h savedNotes n i b).
Proof.
  induction n as [|n IH]; intros i a b Hab; [exact Hab|].
  cbn [render_days]. pose proof (render_day_same savedNotes i a b Hab) as Hd.
  destruct (render_day h savedNotes i a) as [a'|e a'],
           (render_day h savedNotes i b) as [b'|e' b']; cbn in Hd |- *;
    try contradiction; auto.
Qed.

Lemma generateCalendar_same (a b : page) :
  anchors a = anchors b -> currentMonth a = currentMonth b ->
  currentYear a = currentYear b ->
  getItem (getCalendarStorageKey (currentYear a) (currentMonth a)) a
  = getItem (getCalendarStorageKey (currentYear a) (currentMonth a)) b ->
  has a "month-year" = true -> has a "calendar-body" = true ->
  same_view (final (generateCalendar h a)) (final (generateCalendar h b)).
Proof.
  intros Ha Hm Hy Hs H1 H2. apply same_outcome_final.
  rewrite (generateCalendar_present a) by assumption.
  rewrite (generateCalendar_present b) by (now rewrite <- (has_anchors _ _ _ Ha)).
  unfold getItem_or. rewrite <- Hm, <- Hy, <- Hs.
  destruct (JSON.parse _) as [savedNotes|e].
  - apply render_days_same. unfold grid_start, same_view. cbn. now rewrite <- Hm, <- Hy.
  - cbn. unfold same_view. cbn. now rewrite Hm, Hy.
Qed.

Lemma stepped_other_month (d : Z) (p : page) :
  (d = 1 \/ d = -1)%Z ->
  (currentYear (stepped d p), currentMonth (stepped d p))
  <> (currentYear p, currentMonth p).
Proof.
  intros Hd. unfold stepped.
  destruct (Z.ltb_spec (currentMonth p + d) 0).
  { intros E. apply (f_equal fst) in E. cbn in E. lia. }
  rewrite Z.gtb_ltb.
  destruct (Z.ltb_spec 11 (currentMonth p + d)); intros E.
  - apply (f_equal fst) in E. cbn in E. lia.
  - apply (f_equal snd) in E. cbn in E. lia.
Qed.

(** *** C6 *)

(** The grid in closed form, for a note map of strings. *)
Lemma all_strings_get (o : list (jsstring * value)) (k : jsstring) :
  all_strings o = true ->
  obj_get k o = None \/ exists s, obj_get k o = Some (Str s).
Proof.
  induction o as [|[k' v] o IH]; intros Ho; [now left|].
  cbn [all_strings forallb snd] in Ho. apply andb_prop in Ho as [Hv Ho].
  cbn [obj_get]. destruct (str_eqb k k'); [|now apply IH].
  destruct v; try discriminate. right. eauto.
Qed.

Lemma render_day_strings (o : list (jsstring * value)) (i : nat) (p : page) :
  all_strings o = true ->
  render_day h (Obj o) i p
  = Done (with_cells (fun cs => cs ++ [day_cell h o (currentYear p) (currentMonth p) i]) p).
Proof.
  intros Ho. unfold render_day, day_cell, note_of, get_index.
  destruct (today h) as [[d m] y].
  destruct (all_strings_get o (Z_to_js (Z.of_nat i)) Ho) as [-> | [s ->]];
    [reflexivity|].
  now destruct s.
Qed.

Lemma render_days_strings (o : list (jsstring * value)) (n : nat) :
  all_strings o = true ->
  forall (i : nat) (p : page),
  render_days h (Obj o) n i p
  = Done (with_cells
            (fun cs => cs ++ List.map (day_cell h o (currentYear p) (currentMonth p))
                               (seq i n)) p).
Proof.
  intros Ho. induction n as [|n IH]; intros i p; cbn [render_days seq List.map].
  - unfold with_cells. rewrite app_nil_r. now destruct p.
  - rewrite (render_day_strings o i p Ho). cbn [and_then]. rewrite IH.
    unfold with_cells. cbn. now rewrite <- app_assoc.
Qed.

Lemma generateCalendar_strings (p : page) (o : list (jsstring * value)) :
  has p "month-year" = true -> has p "calendar-body" = true ->
  JSON.parse (getItem_or (getCalendarStorageKey (currentYear p) (currentMonth p))
                (js "{}") p) = Normal (Obj o) ->
  all_strings o = true ->
  exists q,
    generateCalendar h p = Done q
    /\ cells q
       = repeat EmptyDay (firstDay h (currentYear p) (currentMonth p))
         ++ List.map (day_cell h o (currentYear p) (currentMonth p))
              (seq 1 (daysIn h (currentYear p) (currentMonth p)))
    /\ length (cells q)
       = (firstDay h (currentYear p) (currentMonth p)
          + daysIn h (currentYear p) (currentMonth p))%nat
    /\ prop q "month-year" "textContent"
       = month_text (currentMonth p) ++ js " " ++ Z_to_js (currentYear p)
    /\ notesEnv q
       = Some (getCalendarStorageKey (currentYear p) (currentMonth p), Obj o)
    /\ localStorage q = localStorage p /\ writes q = writes p.
Proof.
  intros Hm Hc Hparse Ho.
  rewrite (generateCalendar_present p Hm Hc), Hparse, (render_days_strings o _ Ho).
  eexists. split; [reflexivity|].
  assert (Hcells : cells (with_cells
              (fun cs => cs ++ List.map (day_cell h o (currentYear (grid_start h (Obj o) p))
                                          (currentMonth (grid_start h (Obj o) p)))
                                 (seq 1 (daysIn h (currentYear p) (currentMonth p))))
              (grid_start h (Obj o) p))
            = repeat EmptyDay (firstDay h (currentYear p) (currentMonth p))
              ++ List.map (day_cell h o (currentYear p) (currentMonth p))
                   (seq 1 (daysIn h (currentYear p) (currentMonth p)))) by reflexivity.
  split; [exact Hcells|]. split.
  { rewrite Hcells, length_app, repeat_length, length_map, length_seq. reflexivity. }
  split.
  { unfold prop, grid_start, set_prop.
    cbn [props with_cells with_notesEnv with_props]. now rewrite lookup_insert_eq. }
  now repeat split.
Qed.

(** C6: distinct (year, month) pairs have distinct storage keys; a note
    written while a month is displayed is stored under that month's key
    only and leaves the stored string of every other month as it was; and
    after such a write a step to the next or the previous month shows
    exactly the cells, and captures exactly the note map, that it would show
    and capture had the note not been written.  The step loads the map of
    the new month from storage: when the calendar is on the page, the map
    it captures is the value [JSON.parse] reads from the string stored
    under the new month's key at that moment (a string the write has not
    touched), under that key, whatever map was in memory before; the notes
    it shows are the notes of that map; and when that string is not JSON
    the step throws with an empty grid and no map at all.  It never keeps
    the map of the month it left.  The hypothesis [calendar_bound] holds in
    every page the script can reach ([reachable_calendar_bound] below). *)
Theorem calendar_notes_isolated (p : page) (i : nat) (text : jsstring)
  (y' m' d : Z) :
  calendar_bound p ->
  (y', m') <> (currentYear p, currentMonth p) ->
  (d = 1 \/ d = -1)%Z ->
  let written := final (onDayInput i text p) in
  let after := final (navigateMonth h d written) in
  let key := getCalendarStorageKey (currentYear after) (currentMonth after) in
  getCalendarStorageKey y' m' <> getCalendarStorageKey (currentYear p) (currentMonth p)
  /\ getItem (getCalendarStorageKey y' m') written = getItem (getCalendarStorageKey y' m') p
  /\ (writes written = writes p
      \/ exists v, writes written
                   = writes p ++ [(getCalendarStorageKey (currentYear p) (currentMonth p), v)])
  /\ calendar_bound written
  /\ cells after = cells (final (navigateMonth h d p))
  /\ notesEnv after = notesEnv (final (navigateMonth h d p))
  /\ calendar_bound after
  /\ key <> getCalendarStorageKey (currentYear p) (currentMonth p)
  /\ getItem key written = getItem key p
  /\ (has p "month-year" = false \/ has p "calendar-body" = false ->
      notesEnv after = None)
  /\ (has p "month-year" = true -> has p "calendar-body" = true ->
      (forall savedNotes,
         JSON.parse (getItem_or key (js "{}") written) = Normal savedNotes ->
         notesEnv after = Some (key, savedNotes))
      /\ (forall e,
            JSON.parse (getItem_or key (js "{}") written) = Throw e ->
            navigateMonth h d written = Raised e after
            /\ notesEnv after = None /\ cells after = [])
      /\ (forall o,
            JSON.parse (getItem_or key (js "{}") written) = Normal (Obj o) ->
            all_strings o = true ->
            cells after
            = repeat EmptyDay (firstDay h (currentYear after) (currentMonth after))
              ++ List.map (day_cell h o (currentYear after) (currentMonth after))
                   (seq 1 (daysIn h (currentYear after) (currentMonth after))))
      /\ (forall k savedNotes,
            notesEnv written = Some (k, savedNotes) ->
            notesEnv after <> Some (k, savedNotes))).
Proof.
  intros Hp Hne Hd written after key.
  assert (Hkey : getCalendarStorageKey y' m'
                 <> getCalendarStorageKey (currentYear p) (currentMonth p)).
  { intros H. apply getCalendarStorageKey_inj in H as [-> ->]. now apply Hne. }
  assert (Hw : calendar_bound written) by now apply onDayInput_bound.
  destruct (onDayInput_same i text p) as (Ha & _ & Hm & Hy).
  fold written in Ha, Hm, Hy.
  split; [exact Hkey|]. split; [now apply onDayInput_storage|].
  split; [now apply onDayInput_writes|]. split; [exact Hw|].
  assert (Hafter : after = final (generateCalendar h (stepped d written)))
    by (subst after; now rewrite navigateMonth_stepped).
  destruct (stepped_same d written) as (Ha1 & Hs1 & _ & Hc1 & Hn1).
  destruct (stepped_same d p) as (Ha2 & Hs2 & _ & Hc2 & Hn2).
  assert (Hmy : currentMonth (stepped d written) = currentMonth (stepped d p)
                /\ currentYear (stepped d written) = currentYear (stepped d p)).
  { unfold stepped. rewrite Hm, Hy. repeat case_match; now split. }
  destruct Hmy as (Hm' & Hy').
  assert (Hmya : currentMonth after = currentMonth (stepped d written)
                 /\ currentYear after = currentYear (stepped d written)).
  { rewrite Hafter.
    destruct (generateCalendar_frame h (stepped d written))
      as (_ & _ & _ & _ & _ & H1 & H2 & _). now split. }
  destruct Hmya as (Hma & Hya).
  assert (Hother : key <> getCalendarStorageKey (currentYear p) (currentMonth p)).
  { subst key. rewrite Hma, Hya, Hm', Hy'. intros H.
    apply getCalendarStorageKey_inj in H as [Hyy Hmm].
    apply (stepped_other_month d p Hd). congruence. }
  assert (Hview : same_view after (final (navigateMonth h d p))).
  { rewrite Hafter, navigateMonth_stepped.
    destruct (anchors_present_dec p) as [[H1 H2]|Habs].
    - apply generateCalendar_same; try congruence.
      + unfold getItem. rewrite Hs1, Hs2, Hm', Hy'.
        apply (onDayInput_storage i text p _ Hp).
        intros H. apply getCalendarStorageKey_inj in H as [Hyy Hmm].
        apply (stepped_other_month d p Hd). congruence.
      + rewrite (has_anchors p) by congruence. exact H1.
      + rewrite (has_anchors p) by congruence. exact H2.
    - assert (Hsame : written = p).
      { subst written. unfold onDayInput. unfold calendar_bound in Hp.
        destruct (notesEnv p) as [[k sn]|].
        - destruct Hp as (_ & ? & ?). destruct Habs; congruence.
        - now rewrite Hp. }
      now rewrite Hsame. }
  destruct Hview as (Hc & Hn & _ & _).
  split; [exact Hc|]. split; [exact Hn|].
  assert (Hb : calendar_bound after)
    by (subst after; now apply navigateMonth_bound).
  split; [exact Hb|]. split; [exact Hother|].
  split; [now apply onDayInput_storage|].
  assert (Hhas : forall id, has (stepped d written) id = has p id).
  { intros id. apply has_anchors. congruence. }
  assert (Hor : getItem_or key (js "{}") written
                = getItem_or (getCalendarStorageKey (currentYear (stepped d written))
                                (currentMonth (stepped d written))) (js "{}")
                    (stepped d written)).
  { subst key. rewrite Hma, Hya. unfold getItem_or, getItem. now rewrite Hs1. }
  split.
  - intros Habs. rewrite Hafter, generateCalendar_absent
      by (rewrite !Hhas; exact Habs).
    cbn [final]. rewrite Hn1. unfold calendar_bound in Hw.
    destruct (notesEnv written) as [[k sn]|]; [|reflexivity].
    destruct Hw as (_ & H1 & H2).
    rewrite (has_anchors p written _ Ha) in H1.
    rewrite (has_anchors p written _ Ha) in H2. destruct Habs; congruence.
  - intros H1 H2.
    assert (Hgen := generateCalendar_present (stepped d written)).
    rewrite !Hhas in Hgen. specialize (Hgen H1 H2). rewrite <- Hor in Hgen.
    assert (Hnormal : forall savedNotes,
              JSON.parse (getItem_or key (js "{}") written) = Normal savedNotes ->
              notesEnv after = Some (key, savedNotes)).
    { intros savedNotes Hparse. rewrite Hparse in Hgen. rewrite Hafter, Hgen.
      rewrite render_days_notesEnv. subst key. now rewrite Hma, Hya. }
    assert (Hthrow : forall e,
              JSON.parse (getItem_or key (js "{}") written) = Throw e ->
              navigateMonth h d written = Raised e after
              /\ notesEnv after = None /\ cells after = []).
    { intros e Hparse. rewrite Hparse in Hgen.
      assert (Hnav : navigateMonth h d written = Raised e after).
      { rewrite Hafter, navigateMonth_stepped, Hgen. reflexivity. }
      split; [exact Hnav|]. rewrite Hafter, Hgen. now split. }
    split; [exact Hnormal|]. split; [exact Hthrow|]. split.
    + intros o Hparse Ho. rewrite Hma, Hya. rewrite Hparse in Hgen.
      rewrite Hafter, Hgen, (render_days_strings o _ Ho). reflexivity.
    + intros k savedNotes Hk Heq. unfold calendar_bound in Hw. rewrite Hk in Hw.
      destruct Hw as (-> & _).
      destruct (JSON.parse (getItem_or key (js "{}") written)) as [sn|e] eqn:Hparse.
      * rewrite (Hnormal sn eq_refl) in Heq.
        assert (Hkk : key = getCalendarStorageKey (currentYear written)
                              (currentMonth written)) by congruence.
        apply Hother. now rewrite Hkk, Hm, Hy.
      * destruct (Hthrow e eq_refl) as (_ & Hnone & _). congruence.
Qed.

End CalendarNotes.

(** ** Hex colours *)

Lemma below_128 (P : N -> bool) :
  forallb (fun n => P (N.of_nat n)) (seq 0 128) = true ->
  forall c, c < 128 -> P c = true.
Proof.
  intros H c Hc. rewrite forallb_forall in H.
  rewrite <- (N2Nat.id c). apply H. apply in_seq. lia.
Qed.

Lemma class_matches_hex (c : N) :
  Regex.class_matches true [(97, 102); (48, 57)] c = is_hex c.
Proof.
  destruct (N.lt_ge_cases c 128) as [Hc|Hc].
  - apply Bool.eqb_prop.
    apply (below_128 (fun c => Bool.eqb (Regex.class_matches true [(97, 102); (48, 57)] c)
                                  (is_hex c))); [vm_compute; reflexivity | exact Hc].
  - unfold Regex.class_matches, Regex.in_ranges, is_hex, hex_digit_value. cbn [existsb].
    destruct (N.ltb_spec c 128); [lia|].
    repeat match goal with
           | |- context [?a <=? ?b] => destruct (N.leb_spec a b); try lia
           end; reflexivity.
Qed.

Lemma lit_matches_hash (c : N) : Regex.lit_matches true 35 c = (c =? 35).
Proof.
  destruct (N.lt_ge_cases c 128) as [Hc|Hc].
  - apply Bool.eqb_prop.
    apply (below_128 (fun c => Bool.eqb (Regex.lit_matches true 35 c) (c =? 35)));
      [vm_compute; reflexivity | exact Hc].
  - unfold Regex.lit_matches. destruct (N.ltb_spec c 128); [lia|].
    rewrite andb_false_r. cbn [andb orb]. rewrite orb_false_r. apply N.eqb_sym.
Qed.

Lemma is_hex_hash : is_hex 35 = false.
Proof. reflexivity. Qed.

Ltac split_tests :=
  repeat match goal with
         | |- context [is_hex ?c] =>
             lazymatch c with
             | 35 => rewrite is_hex_hash
             | _ => destruct (is_hex c) eqn:?
             end
         | |- context [?c =? 35] => destruct (N.eqb_spec c 35); subst
         | H : is_hex 35 = true |- _ => discriminate H
         end; cbn; try reflexivity; try congruence.

(** What the shorthand pattern matches. *)
Lemma exec_shorthand (s : jsstring) :
  Regex.exec_anchored true shorthandRegex s
  = match s with
    | [r; g; b] =>
        if is_hex r && is_hex g && is_hex b then Some [[r]; [g]; [b]] else None
    | [x; r; g; b] =>
        if (x =? 35) && is_hex r && is_hex g && is_hex b then Some [[r]; [g]; [b]] else None
    | _ => None
    end.
Proof.
  unfold Regex.exec_anchored, shorthandRegex, hex_class.
  destruct s as [|a [|b [|c [|d [|e s]]]]]; cbn [Regex.rmatch];
    rewrite ?class_matches_hex, ?lit_matches_hash; split_tests.
Qed.

(** What the six-digit pattern matches. *)
Lemma exec_full (s : jsstring) :
  Regex.exec_anchored true fullRegex s
  = match s with
    | [a; b; c; d; e; f] =>
        if is_hex a && is_hex b && is_hex c && is_hex d && is_hex e && is_hex f
        then Some [[a; b]; [c; d]; [e; f]] else None
    | [x; a; b; c; d; e; f] =>
        if (x =? 35) && is_hex a && is_hex b && is_hex c && is_hex d && is_hex e && is_hex f
        then Some [[a; b]; [c; d]; [e; f]] else None
    | _ => None
    end.
Proof.
  unfold Regex.exec_anchored, fullRegex, hex_class.
  destruct s as [|a [|b [|c [|d [|e [|f [|g [|i s]]]]]]]]; cbn [Regex.rmatch];
    rewrite ?class_matches_hex, ?lit_matches_hash; split_tests.
Qed.

Lemma hex_digit_range (c : N) (v : Z) :
  hex_digit_value c = Some v ->
  (48 <= c <= 57 /\ v = Z.of_N (c - 48)) \/ (97 <= c <= 102 /\ v = Z.of_N (c - 87))
  \/ (65 <= c <= 70 /\ v = Z.of_N (c - 55)).
Proof.
  unfold hex_digit_value.
  repeat match goal with
         | |- context [?a <=? ?b] => destruct (N.leb_spec a b)
         end; cbn [andb]; intros [= <-]; lia.
Qed.

Lemma hex_not_space (c : N) (v : Z) : hex_digit_value c = Some v -> is_js_space c = false.
Proof.
  intros H. apply hex_digit_range in H. unfold is_js_space.
  repeat match goal with
         | |- context [?a =? ?b] => destruct (N.eqb_spec a b); [lia|]
         end.
  destruct (N.leb_spec 8192 c); [lia | reflexivity].
Qed.

(** [parseInt] of two hexadecimal digits. *)
Lemma parseInt16_pair (a b : N) (va vb : Z) :
  hex_digit_value a = Some va -> hex_digit_value b = Some vb ->
  parseInt16 [a; b] = Some (16 * va + vb)%Z.
Proof.
  intros Ha Hb. unfold parseInt16. cbn [trimStart].
  rewrite (hex_not_space a va Ha).
  pose proof (hex_digit_range a va Ha) as Ra. pose proof (hex_digit_range b vb Hb) as Rb.
  destruct (N.eqb_spec a 45); [lia|]. destruct (N.eqb_spec a 43); [lia|].
  replace ((a =? 48) && ((b =? 120) || (b =? 88))) with false.
  - cbn [hex_prefix_value]. rewrite Ha. cbn [hex_prefix_value default]. rewrite Hb.
    cbn [fmap option_fmap option_map default]. f_equal; lia.
  - symmetry. apply andb_false_iff. right.
    destruct (N.eqb_spec b 120); [lia|]. destruct (N.eqb_spec b 88); [lia | reflexivity].
Qed.

Lemma hexToRgb_six (a b c d e f : N) (va vb vc vd ve vf : Z) :
  hex_digit_value a = Some va -> hex_digit_value b = Some vb ->
  hex_digit_value c = Some vc -> hex_digit_value d = Some vd ->
  hex_digit_value e = Some ve -> hex_digit_value f = Some vf ->
  hexToRgb [a; b; c; d; e; f] = rgb_text (16 * va + vb) (16 * vc + vd) (16 * ve + vf)
  /\ hexToRgb [35; a; b; c; d; e; f]
     = rgb_text (16 * va + vb) (16 * vc + vd) (16 * ve + vf).
Proof.
  intros Ha Hb Hc Hd He Hf. unfold hexToRgb. rewrite !exec_shorthand, !exec_full.
  unfold is_hex. rewrite Ha, Hb, Hc, Hd, He, Hf. cbn [andb N.eqb Pos.eqb].
  rewrite (parseInt16_pair a b va vb), (parseInt16_pair c d vc vd),
    (parseInt16_pair e f ve vf) by assumption.
  split; reflexivity.
Qed.

Lemma hexToRgb_three (r g b : N) (vr vg vb : Z) :
  hex_digit_value r = Some vr -> hex_digit_value g = Some vg ->
  hex_digit_value b = Some vb ->
  hexToRgb [r; g; b] = rgb_text (17 * vr) (17 * vg) (17 * vb)
  /\ hexToRgb [35; r; g; b] = rgb_text (17 * vr) (17 * vg) (17 * vb).
Proof.
  intros Hr Hg Hb. unfold hexToRgb. rewrite !exec_shorthand.
  unfold is_hex. rewrite Hr, Hg, Hb. cbn [andb N.eqb Pos.eqb app].
  rewrite !exec_full. unfold is_hex. rewrite Hr, Hg, Hb. cbn [andb].
  rewrite (parseInt16_pair r r vr vr), (parseInt16_pair g g vg vg),
    (parseInt16_pair b b vb vb) by assumption.
  replace (17 * vr)%Z with (16 * vr + vr)%Z by lia.
  replace (17 * vg)%Z with (16 * vg + vg)%Z by lia.
  replace (17 * vb)%Z with (16 * vb + vb)%Z by lia.
  split; reflexivity.
Qed.

Lemma hex_form_3 (s : jsstring) :
  hex_form 3 s = false ->
  match s with
  | [r; g; b] => is_hex r && is_hex g && is_hex b
  | [x; r; g; b] => (x =? 35) && is_hex r && is_hex g && is_hex b
  | _ => false
  end = false.
Proof.
  unfold hex_form, strip_hash.
  destruct s as [|a [|b [|c [|d [|e s]]]]]; try reflexivity;
    repeat match goal with
           | |- context [?x =? 35] => destruct (N.eqb_spec x 35); subst
           end;
    rewrite ?is_hex_hash; cbn [length forallb Nat.eqb andb];
    repeat match goal with
           | |- context [is_hex ?x] => destruct (is_hex x)
           end; cbn; congruence.
Qed.

Lemma hex_form_6 (s : jsstring) :
  hex_form 6 s = false ->
  match s with
  | [a; b; c; d; e; f] =>
      is_hex a && is_hex b && is_hex c && is_hex d && is_hex e && is_hex f
  | [x; a; b; c; d; e; f] =>
      (x =? 35) && is_hex a && is_hex b && is_hex c && is_hex d && is_hex e && is_hex f
  | _ => false
  end = false.
Proof.
  unfold hex_form, strip_hash.
  destruct s as [|a [|b [|c [|d [|e [|f [|g [|i s]]]]]]]]; try reflexivity;
    repeat match goal with
           | |- context [?x =? 35] => destruct (N.eqb_spec x 35); subst
           end;
    rewrite ?is_hex_hash; cbn [length forallb Nat.eqb andb];
    repeat match goal with
           | |- context [is_hex ?x] => destruct (is_hex x)
           end; cbn; congruence.
Qed.

(** *** C8 *)

(** C8: a three-digit hex colour, with or without the leading [#], gives
    the same text as its six-digit expansion with or without the [#] (each
    digit [v] standing for the channel value [17 * v]); and every input that
    is neither a three-digit nor a six-digit hex colour gives the fallback
    text [253, 224, 71]. *)
Theorem hexToRgb_forms :
  (forall r g b vr vg vb,
     hex_digit_value r = Some vr -> hex_digit_value g = Some vg ->
     hex_digit_value b = Some vb ->
     hexToRgb [r; g; b] = rgb_text (17 * vr) (17 * vg) (17 * vb)
     /\ hexToRgb [35; r; g; b] = hexToRgb [r; g; b]
     /\ hexToRgb [r; r; g; g; b; b] = hexToRgb [r; g; b]
     /\ hexToRgb [35; r; r; g; g; b; b] = hexToRgb [r; g; b])
  /\ (forall s, hex_form 3 s = false -> hex_form 6 s = false -> hexToRgb s = FALLBACK_RGB)
  /\ hexToRgb (js "#03F") = hexToRgb (js "#0033FF")
  /\ hexToRgb (js "03F") = hexToRgb (js "#0033FF")
  /\ hexToRgb (js "#0033FF") = js "0, 51, 255"
  /\ FALLBACK_RGB = js "253, 224, 71".
Proof.
  split; [|split; [|repeat split]].
  - intros r g b vr vg vb Hr Hg Hb.
    destruct (hexToRgb_three r g b vr vg vb Hr Hg Hb) as [H3 H3'].
    destruct (hexToRgb_six r r g g b b vr vr vg vg vb vb) as [H6 H6']; try assumption.
    rewrite H3, H3', H6, H6'.
    replace (16 * vr + vr)%Z with (17 * vr)%Z by lia.
    replace (16 * vg + vg)%Z with (17 * vg)%Z by lia.
    replace (16 * vb + vb)%Z with (17 * vb)%Z by lia.
    now repeat split.
  - intros s H3 H6. apply hex_form_3 in H3. apply hex_form_6 in H6.
    unfold hexToRgb. rewrite exec_shorthand.
    assert (Hs : match s with
                 | [r; g; b] =>
                     if is_hex r && is_hex g && is_hex b then Some [[r]; [g]; [b]] else None
                 | [x; r; g; b] =>
                     if (x =? 35) && is_hex r && is_hex g && is_hex b
                     then Some [[r]; [g]; [b]] else None
                 | _ => None
                 end = None).
    { destruct s as [|a [|b [|c [|d [|e s]]]]]; try reflexivity; now rewrite H3. }
    rewrite Hs, exec_full.
    destruct s as [|a [|b [|c [|d [|e [|f [|g [|i s]]]]]]]]; try reflexivity;
      now rewrite H6.
Qed.

Lemma hexToRgb_forms_witness :
  hexToRgb (js "a0c") = rgb_text (17 * 10) (17 * 0) (17 * 12)
  /\ hexToRgb (js "#ff00zz") = FALLBACK_RGB.
Proof.
  split.
  - apply (proj1 hexToRgb_forms 97 48 99 10%Z 0%Z 12%Z); reflexivity.
  - apply (proj1 (proj2 hexToRgb_forms) (js "#ff00zz")); reflexivity.
Defined.

(** ** Initialisation without the widget's elements *)

(** *** C2 *)


Section Initialisation.

Variable h : host.


End Initialisation.


(** ** The calendar invariant holds in every reachable page *)

Lemma calendar_fields_refl (p : page) : calendar_fields p p.
Proof. now repeat split. Qed.

Lemma calendar_fields_trans (p q r : page) :
  calendar_fields p q -> calendar_fields q r -> calendar_fields p r.
Proof. unfold calendar_fields. intuition congruence. Qed.

Lemma calendar_bound_fields (p q : page) :
  calendar_fields p q -> calendar_bound p -> calendar_bound q.
Proof.
  intros (Ha & Hc & Hn & Hm & Hy). unfold calendar_bound, has_day, has.
  now rewrite Ha, Hc, Hn, Hm, Hy.
Qed.

Ltac fields_tac :=
  rewrite ?getElement_optional;
  repeat case_match; try apply calendar_fields_refl; now repeat split.

Section Reachable.

Variable h : host.

Lemma updateClock_fields (time date : jsstring) (p : page) :
  calendar_fields p (updateClock time date p).
Proof. unfold updateClock. fields_tac. Qed.

Lemma initClock_fields (time date : jsstring) (p : page) :
  calendar_fields p (initClock time date p).
Proof. unfold initClock, updateClock. fields_tac. Qed.

Lemma initSidebarToggle_fields (p : page) : calendar_fields p (initSidebarToggle p).
Proof. unfold initSidebarToggle. fields_tac. Qed.

Lemma onHamburgerClick_fields (p : page) : calendar_fields p (onHamburgerClick p).
Proof. unfold onHamburgerClick. fields_tac. Qed.

Lemma setWallpaperState_fields (video : bool) (state : jsstring) (p : page) :
  calendar_fields p (setWallpaperState video state p).
Proof. unfold setWallpaperState. fields_tac. Qed.

Lemma initWallpaperToggle_fields (p : page) : calendar_fields p (initWallpaperToggle p).
Proof. unfold initWallpaperToggle, setWallpaperState. fields_tac. Qed.

Lemma onWallpaperClick_fields (p : page) : calendar_fields p (onWallpaperClick p).
Proof. unfold onWallpaperClick. apply setWallpaperState_fields. Qed.

Lemma initTextBoxStorage_fields (p : page) : calendar_fields p (initTextBoxStorage p).
Proof. unfold initTextBoxStorage. fields_tac. Qed.

Lemma checkPassword_fields (p : page) : calendar_fields p (checkPassword p).
Proof. unfold checkPassword. fields_tac. Qed.

Lemma initPasswordProtection_fields (p : page) :
  calendar_fields p (initPasswordProtection p).
Proof. unfold initPasswordProtection. fields_tac. Qed.

Lemma initKeyboardInput_fields (p : page) : calendar_fields p (initKeyboardInput p).
Proof. unfold initKeyboardInput. fields_tac. Qed.

Lemma onKeyboardClick_fields (key : option (option jsstring)) (p : page) :
  calendar_fields p (onKeyboardClick key p).
Proof.
  unfold onKeyboardClick. destruct key as [keyValue|]; [|apply calendar_fields_refl].
  repeat case_match; try apply checkPassword_fields; now repeat split.
Qed.

Lemma applyColor_fields (hexColor : jsstring) (inputElement : bool) (p : page) :
  calendar_fields p (applyColor h hexColor inputElement p).
Proof. unfold applyColor. fields_tac. Qed.

Lemma initThemeSelector_fields (p : page) : calendar_fields p (initThemeSelector h p).
Proof.
  unfold initThemeSelector. rewrite getElement_optional.
  pose proof (applyColor_fields (getItem_or COLOR_STORAGE_KEY DEFAULT_HEX p)
                (has p "accentColorPicker") p) as H.
  destruct (has p "accentColorPicker"); [|exact H].
  eapply calendar_fields_trans; [exact H | now repeat split].
Qed.

Lemma initCalendarNavigationListeners_fields (p : page) :
  calendar_fields p (initCalendarNavigationListeners p).
Proof. unfold initCalendarNavigationListeners. fields_tac. Qed.

Lemma typed_fields (id : string) (text : jsstring) (p : page) :
  calendar_fields p (typed id text p).
Proof. unfold typed. fields_tac. Qed.

Lemma render_items_fields (items : list value) :
  forall (n : nat) (p : page), calendar_fields p (final (render_items n items p)).
Proof.
  induction items as [|item items IH]; intros n p; [apply calendar_fields_refl|].
  cbn [render_items]. destruct (render_item n item); [|apply calendar_fields_refl].
  eapply calendar_fields_trans; [|apply IH]. now repeat split.
Qed.

Lemma renderChecklist_fields (p : page) : calendar_fields p (final (renderChecklist p)).
Proof.
  unfold renderChecklist. destruct (loadChecklist p) as [items|e];
    [|apply calendar_fields_refl].
  destruct items; try now repeat split.
  eapply calendar_fields_trans; [|apply render_items_fields]. now repeat split.
Qed.

Lemma save_render_fields (items : value) (p : page) :
  calendar_fields p (final (renderChecklist (saveChecklist items p))).
Proof.
  eapply calendar_fields_trans; [|apply renderChecklist_fields]. now repeat split.
Qed.

Lemma deleteItem_fields (index : Z) (p : page) :
  calendar_fields p (final (deleteItem index p)).
Proof.
  unfold deleteItem. destruct (loadChecklist p) as [items|e];
    [|apply calendar_fields_refl].
  destruct items; try apply calendar_fields_refl. apply save_render_fields.
Qed.

Lemma toggleItem_fields (index : Z) (p : page) :
  calendar_fields p (final (toggleItem index p)).
Proof.
  unfold toggleItem. destruct (loadChecklist p) as [items|e];
    [|apply calendar_fields_refl].
  destruct (toggle_checked items index); [|apply calendar_fields_refl].
  apply save_render_fields.
Qed.

Lemma addItem_fields (p : page) : calendar_fields p (final (addItem p)).
Proof.
  unfold addItem. destruct (str_eqb _ _); [apply calendar_fields_refl|].
  destruct (loadChecklist p) as [items|e]; [|apply calendar_fields_refl].
  destruct items; try apply calendar_fields_refl.
  eapply calendar_fields_trans; [|apply save_render_fields]. now repeat split.
Qed.

Lemma initChecklist_fields (p : page) : calendar_fields p (final (initChecklist p)).
Proof.
  unfold initChecklist. rewrite !getElement_optional.
  destruct (negb (has p "inputBox") || negb (has p "checklist"));
    [apply calendar_fields_refl|].
  pose proof (renderChecklist_fields p) as H.
  destruct (renderChecklist p) as [q|e q]; cbn [and_then final] in *; [|exact H].
  eapply calendar_fields_trans; [exact H | now repeat split].
Qed.

Lemma fresh_page_bound (ids : list string) (stored : list (jsstring * jsstring))
  (month year : Z) : calendar_bound (fresh_page ids stored month year).
Proof. now intros i. Qed.

Lemma main_bound (time date : jsstring) (p : page) :
  calendar_bound p -> calendar_bound (final (main h time date p)).
Proof.
  intros Hp. unfold main.
  set (p1 := initKeyboardInput _).
  assert (H1 : calendar_bound p1).
  { subst p1.
    apply (calendar_bound_fields _ _ (initKeyboardInput_fields _)).
    apply (calendar_bound_fields _ _ (initPasswordProtection_fields _)).
    apply (calendar_bound_fields _ _ (initTextBoxStorage_fields _)).
    apply (calendar_bound_fields _ _ (initWallpaperToggle_fields _)).
    apply (calendar_bound_fields _ _ (initSidebarToggle_fields _)).
    apply (calendar_bound_fields _ _ (initClock_fields _ _ _)).
    revert Hp. apply calendar_bound_fields. now repeat split. }
  clearbody p1.
  pose proof (calendar_bound_fields _ _ (initChecklist_fields p1) H1) as H2.
  destruct (initChecklist p1) as [p2|e p2]; cbn [and_then final] in *; [|exact H2].
  pose proof (generateCalendar_bound h p2 H2) as H3.
  destruct (generateCalendar h p2) as [p3|e p3]; cbn [and_then final] in *; [|exact H3].
  apply (calendar_bound_fields _ _ (initCalendarNavigationListeners_fields _)).
  apply (calendar_bound_fields _ _ (initThemeSelector_fields _)). exact H3.
Qed.

Lemma dispatch_bound (e : event) (p : page) :
  calendar_bound p -> calendar_bound (final (dispatch h e p)).
Proof.
  intros Hp.
  destruct e as [time date| | |txt|txt| |key|txt|key|n|n|i txt| | |v|v|msg];
    cbn [dispatch final].
  - destruct (timers p); [exact Hp|].
    now apply (calendar_bound_fields _ _ (updateClock_fields _ _ _)).
  - destruct (registered _ _); [|exact Hp].
    now apply (calendar_bound_fields _ _ (onHamburgerClick_fields _)).
  - destruct (registered _ _); [|exact Hp].
    now apply (calendar_bound_fields _ _ (onWallpaperClick_fields _)).
  - pose proof (calendar_bound_fields _ _ (typed_fields "notepad" txt p) Hp) as Ht.
    destruct (registered _ _); [|exact Ht].
    revert Ht. apply calendar_bound_fields. unfold onNotepadInput. now repeat split.
  - now apply (calendar_bound_fields _ _ (typed_fields _ _ _)).
  - now apply (calendar_bound_fields _ _ (checkPassword_fields _)).
  - destruct (registered _ _); [|exact Hp].
    now apply (calendar_bound_fields _ _ (onKeyboardClick_fields _ _)).
  - now apply (calendar_bound_fields _ _ (typed_fields _ _ _)).
  - destruct (registered _ _); [|exact Hp]. unfold onInputBoxKeypress.
    destruct (str_eqb _ _); [|exact Hp].
    now apply (calendar_bound_fields _ _ (addItem_fields _)).
  - destruct (rows p !! n); [|exact Hp].
    now apply (calendar_bound_fields _ _ (toggleItem_fields _ _)).
  - destruct (rows p !! n); [|exact Hp].
    now apply (calendar_bound_fields _ _ (deleteItem_fields _ _)).
  - now apply onDayInput_bound.
  - destruct (registered _ _); [|exact Hp]. now apply navigateMonth_bound.
  - destruct (registered _ _); [|exact Hp]. now apply navigateMonth_bound.
  - destruct (registered _ _); [|exact Hp]. unfold onColorEvent.
    apply (calendar_bound_fields _ _ (applyColor_fields _ _ _)).
    revert Hp. apply calendar_bound_fields. now repeat split.
  - destruct (registered _ _); [|exact Hp]. unfold onColorEvent.
    apply (calendar_bound_fields _ _ (applyColor_fields _ _ _)).
    revert Hp. apply calendar_bound_fields. now repeat split.
  - destruct (play_pending p); [|exact Hp].
    revert Hp. apply calendar_bound_fields. unfold onPlayRejected. now repeat split.
Qed.

(** Whatever the stored strings and whatever the user does, the rendered
    days write under the key of the displayed month. *)
Lemma reachable_calendar_bound (p : page) : reachable h p -> calendar_bound p.
Proof.
  induction 1 as [ids stored month year time date | p e _ IH].
  - apply main_bound, fresh_page_bound.
  - now apply dispatch_bound.
Qed.

End Reachable.

Lemma calendar_notes_isolated_witness :
  let written := final (onDayInput 5 (js "dentist") january_page_with_february) in
  let after := final (navigateMonth sample_host 1 written) in
  getItem (getCalendarStorageKey 2024 1) written
  = getItem (getCalendarStorageKey 2024 1) january_page_with_february
  /\ cells after = cells (final (navigateMonth sample_host 1 january_page_with_february))
  /\ notesEnv after
     = Some (getCalendarStorageKey (currentYear after) (currentMonth after),
             Obj [(js "3", Str (js "rent"))]).
Proof.
  intros written after.
  assert (Hb : calendar_bound january_page_with_february)
    by (apply (reachable_calendar_bound sample_host), reach_loaded).
  assert (Hne : (2024%Z, 1%Z) <> (currentYear january_page_with_february,
                                   currentMonth january_page_with_february))
    by (intros H; vm_compute in H; discriminate).
  destruct (calendar_notes_isolated sample_host january_page_with_february 5
              (js "dentist") 2024 1 1 Hb Hne (or_introl eq_refl))
    as (_ & Hs & _ & _ & Hc & _ & _ & _ & _ & _ & Hload).
  split; [exact Hs|]. split; [exact Hc|].
  destruct Hload as (Hnormal & _); [vm_compute; reflexivity | vm_compute; reflexivity|].
  apply Hnormal. vm_compute. reflexivity.
Defined.

Example note_is_written :
  getItem (getCalendarStorageKey 2024 0) (final (onDayInput 5 (js "dentist") january_page))
  = Some (jsq "{'5':'dentist'}")
  /\ getItem (getCalendarStorageKey 2024 0) january_page = None.
Proof. split; vm_compute; reflexivity. Qed.


(** * Part III: further properties of the script *)

(** ** Checklist *)

(** X1: Saving a number-free value under the checklist key and loading it
    gives the value back; no other key is touched. *)
Theorem saveChecklist_loadChecklist (p : page) (v : value) :
  plain v = true ->
  loadChecklist (saveChecklist v p) = Normal v
  /\ (forall k, k <> CHECKLIST_STORAGE_KEY ->
        getItem k (saveChecklist v p) = getItem k p)
  /\ writes (saveChecklist v p) = writes p ++ [(CHECKLIST_STORAGE_KEY, JSON.stringify v)].
Proof.
  intros Hp. split; [now apply loadChecklist_saved|]. split; [|reflexivity].
  intros k Hk. unfold saveChecklist. now apply getItem_setItem_ne.
Qed.

Lemma saveChecklist_loadChecklist_witness :
  loadChecklist (saveChecklist (Arr [Str (js "a"); Null; Obj [(js "1", Bool true)]])
                   (checklist_page (js "oops")))
  = Normal (Arr [Str (js "a"); Null; Obj [(js "1", Bool true)]]).
Proof.
  apply (saveChecklist_loadChecklist (checklist_page (js "oops"))
           (Arr [Str (js "a"); Null; Obj [(js "1", Bool true)]]) eq_refl).
Defined.

Lemma rows_of_index (items : list ChecklistItem) :
  forall n,
  List.map row_index
    (imap (fun i it => {| row_index := n + i; row_completed := checked it;
                          row_text := text it |}) items)
  = seq n (length items).
Proof.
  induction items as [|it items IH]; intros n; [reflexivity|].
  cbn [imap List.map length seq row_index]. f_equal; [lia|].
  rewrite <- (IH (S n)). f_equal. apply imap_ext. intros i x _. cbn. f_equal. lia.
Qed.

Lemma rows_of_lookup (items : list ChecklistItem) (i : nat) (it : ChecklistItem) :
  items !! i = Some it ->
  rows_of items !! i
  = Some {| row_index := i; row_completed := checked it; row_text := text it |}.
Proof. intros H. unfold rows_of. now rewrite list_lookup_imap, H. Qed.

(** X2: Rendering a stored sequence of records shows one row per record, in
    order, the row at position [i] bound to index [i]; it leaves the store,
    the element properties and the listeners alone. *)
Theorem renderChecklist_rows (p : page) (items : list ChecklistItem) :
  loadChecklist p = Normal (checklist_value items) ->
  exists p',
    renderChecklist p = Done p'
    /\ length (rows p') = length items
    /\ List.map row_index (rows p') = seq 0 (length items)
    /\ (forall i it, items !! i = Some it ->
          rows p' !! i = Some {| row_index := i; row_completed := checked it;
                                 row_text := text it |})
    /\ localStorage p' = localStorage p /\ writes p' = writes p
    /\ props p' = props p /\ listeners p' = listeners p.
Proof.
  intros Hload. exists (with_rows (fun _ => rows_of items) p).
  split; [apply renderChecklist_records, Hload|].
  cbn [rows with_rows localStorage writes props listeners].
  split; [apply length_imap|]. split; [apply (rows_of_index items 0)|].
  split; [apply rows_of_lookup|]. now repeat split.
Qed.

Lemma renderChecklist_rows_witness :
  exists p',
    renderChecklist three_items_page = Done p'
    /\ length (rows p') = length three_items
    /\ List.map row_index (rows p') = seq 0 (length three_items)
    /\ (forall i it, three_items !! i = Some it ->
          rows p' !! i = Some {| row_index := i; row_completed := checked it;
                                 row_text := text it |})
    /\ localStorage p' = localStorage three_items_page
    /\ writes p' = writes three_items_page
    /\ props p' = props three_items_page /\ listeners p' = listeners three_items_page.
Proof.
  apply (renderChecklist_rows three_items_page three_items).
  vm_compute. reflexivity.
Defined.

Lemma render_items_shape (items : list value) :
  forall (n : nat) (q q' : page),
  render_items n items q = Done q' -> q' = with_rows (fun _ => rows q') q.
Proof.
  induction items as [|item items IH]; intros n q q' H; cbn [render_items] in H.
  - injection H as <-. now destruct q.
  - destruct (render_item n item) as [r|e]; [|discriminate].
    apply IH in H. rewrite H at 1. reflexivity.
Qed.

(** X3: Rendering again changes nothing: whatever the store holds, a second
    [renderChecklist] right after a first one that returned leaves the page
    as the first one left it. *)
Theorem renderChecklist_idempotent (p : page) :
  and_then (renderChecklist p) renderChecklist = renderChecklist p.
Proof.
  destruct (renderChecklist p) as [p'|e p'] eqn:Hr; [|reflexivity].
  cbn [and_then]. unfold renderChecklist in *.
  destruct (loadChecklist p) as [items|e] eqn:Hl; [|discriminate].
  destruct items as [ | | | |l|]; try discriminate.
  apply render_items_shape in Hr as Hs.
  assert (Hl' : loadChecklist p' = Normal (Arr l)) by (rewrite Hs; exact Hl).
  rewrite Hl'.
  replace (with_rows (fun _ => []) p') with (with_rows (fun _ => []) p)
    by (rewrite Hs; reflexivity).
  exact Hr.
Qed.


Lemma loadChecklist_rendered (p : page) (items : list ChecklistItem) (rs : list row) :
  loadChecklist (with_rows (fun _ => rs) (saveChecklist (checklist_value items) p))
  = Normal (checklist_value items).
Proof.
  rewrite loadChecklist_with_rows. apply loadChecklist_saved, plain_checklist.
Qed.




(** X5: Outside the stored sequence there is no record to toggle: for an index
    below zero or at or above the length, [toggleItem] throws a [TypeError]
    when it reads [checked] of [undefined], before anything is saved or
    rendered. *)
Theorem toggleItem_out_of_range (p : page) (l : list value) (index : Z) :
  loadChecklist p = Normal (Arr l) ->
  (index < 0 \/ Z.of_nat (length l) <= index)%Z ->
  toggleItem index p = Raised TypeError p.
Proof.
  intros Hload Hi. unfold toggleItem. rewrite Hload.
  unfold toggle_checked, get_index. cbn [mbind completion_bind].
  destruct (Z.leb_spec 0 index) as [H0|H0]; [|reflexivity].
  rewrite lookup_ge_None_2 by lia. reflexivity.
Qed.

Lemma toggleItem_out_of_range_witness :
  toggleItem 3 three_items_page = Raised TypeError three_items_page
  /\ toggleItem (-1) three_items_page = Raised TypeError three_items_page.
Proof.
  split.
  - apply (toggleItem_out_of_range three_items_page
             (List.map item_value three_items) 3); [vm_compute; reflexivity | cbn; lia].
  - apply (toggleItem_out_of_range three_items_page
             (List.map item_value three_items) (-1)); [vm_compute; reflexivity | cbn; lia].
Defined.

Lemma splice1_negative {A : Type} (f : A -> value) (l : list A) (index : Z) :
  (- Z.of_nat (length l) <= index < 0)%Z ->
  splice1 (List.map f l) index
  = List.map f (delete (Z.to_nat (Z.of_nat (length l) + index)) l).
Proof.
  intros Hk. unfold splice1. rewrite length_map.
  destruct (Z.ltb_spec index 0); [|lia].
  rewrite Z.max_l by lia. rewrite Z.min_l by lia.
  replace (Z.to_nat (Z.of_nat (length l) + index + 1))
    with (S (Z.to_nat (Z.of_nat (length l) + index))) by lia.
  rewrite delete_take_drop, map_app.
  now rewrite firstn_map, skipn_map.
Qed.

(** X6: A negative index counts from the end, as [splice] does: for a stored
    sequence of [n] records and [-n <= index < 0], [deleteItem] removes the
    record at [n + index], and only that one. *)
Theorem deleteItem_negative_index (p : page) (items : list ChecklistItem) (index : Z) :
  loadChecklist p = Normal (checklist_value items) ->
  (- Z.of_nat (length items) <= index < 0)%Z ->
  let k := Z.to_nat (Z.of_nat (length items) + index) in
  deleteItem index p
  = Done (with_rows (fun _ => rows_of (delete k items))
            (saveChecklist (checklist_value (delete k items)) p))
  /\ loadChecklist (final (deleteItem index p)) = Normal (checklist_value (delete k items))
  /\ length (delete k items) = (length items - 1)%nat
  /\ (forall j, (j < k)%nat -> delete k items !! j = items !! j)
  /\ (forall j, (k <= j)%nat -> delete k items !! j = items !! S j).
Proof.
  intros Hload Hi k.
  assert (Hd : deleteItem index p
               = Done (with_rows (fun _ => rows_of (delete k items))
                         (saveChecklist (checklist_value (delete k items)) p))).
  { unfold deleteItem. rewrite Hload. unfold checklist_value at 1.
    rewrite (splice1_negative item_value items index Hi). apply save_and_render. }
  split; [exact Hd|]. rewrite Hd. cbn [final].
  split; [apply loadChecklist_rendered|].
  split; [apply length_delete; apply lookup_lt_is_Some_2; subst k; lia|].
  split; intros j Hj.
  - now apply list_lookup_delete_lt.
  - now apply list_lookup_delete_ge.
Qed.

Lemma deleteItem_negative_index_witness :
  deleteItem (-1) three_items_page
  = Done (with_rows (fun _ => rows_of (delete 2%nat three_items))
            (saveChecklist (checklist_value (delete 2%nat three_items)) three_items_page)).
Proof.
  apply (deleteItem_negative_index three_items_page three_items (-1)).
  - vm_compute. reflexivity.
  - cbn. lia.
Defined.




(** ** What each step leaves alone *)

Lemma leaves_refl (ks : list jsstring) (ids : list string) (p : page) : leaves ks ids p p.
Proof. now repeat split. Qed.

Lemma leaves_trans (ks : list jsstring) (ids : list string) (p q r : page) :
  leaves ks ids p q -> leaves ks ids q r -> leaves ks ids p r.
Proof.
  intros (Ha & Hr & Hs & Hp) (Ha' & Hr' & Hs' & Hp').
  split; [congruence|]. split; [congruence|]. split.
  - intros k Hk. now rewrite Hs', Hs.
  - intros id name Hid. now rewrite Hp', Hp.
Qed.

Lemma leaves_mono (ks ks' : list jsstring) (ids ids' : list string) (p q : page) :
  ks ⊆ ks' -> ids ⊆ ids' -> leaves ks ids p q -> leaves ks' ids' p q.
Proof.
  intros Hk Hi (Ha & Hr & Hs & Hp). split; [exact Ha|]. split; [exact Hr|]. split.
  - intros k Hn. apply Hs. intros Hin. apply Hn, Hk, Hin.
  - intros id name Hn. apply Hp. intros Hin. apply Hn, Hi, Hin.
Qed.

Ltac page_cbn :=
  unfold getItem, setItem, set_prop, emit, addEventListener, setInterval;
  cbn [anchors localStorage props rows with_localStorage with_writes with_props
       with_rows with_cells with_notesEnv with_listeners with_timers with_month
       with_effects].

Ltac leaves_tac :=
  rewrite ?getElement_optional;
  repeat case_match;
  (split; [reflexivity|]; split; [reflexivity|]; split;
   [ intros ?k ?Hk; page_cbn;
     rewrite ?lookup_insert_ne by (intros <-; set_solver); reflexivity
   | intros ?id ?name ?Hid; page_cbn;
     rewrite ?lookup_insert_ne by (intros [= <- _]; set_solver); reflexivity ]).

Lemma updateClock_leaves (time date : jsstring) (p : page) :
  leaves [] ["clock"; "date"] p (updateClock time date p).
Proof. unfold updateClock. leaves_tac. Qed.

Lemma setWallpaperState_leaves (video : bool) (state : jsstring) (p : page) :
  leaves [WALLPAPER_STORAGE_KEY]
    [".video-container"; "video-background"; "toggle-wallpaper-btn"] p
    (setWallpaperState video state p).
Proof. unfold setWallpaperState. leaves_tac. Qed.

Lemma initClock_leaves (time date : jsstring) (p : page) :
  leaves [] ["clock"; "date"] p (initClock time date p).
Proof. unfold initClock, updateClock. leaves_tac. Qed.

Lemma initSidebarToggle_leaves (p : page) : leaves [] [] p (initSidebarToggle p).
Proof. unfold initSidebarToggle. leaves_tac. Qed.

Lemma onHamburgerClick_leaves (p : page) : leaves [] ["sidebar"] p (onHamburgerClick p).
Proof. unfold onHamburgerClick. leaves_tac. Qed.

Lemma initWallpaperToggle_leaves (p : page) :
  leaves [WALLPAPER_STORAGE_KEY]
    [".video-container"; "video-background"; "toggle-wallpaper-btn"] p
    (initWallpaperToggle p).
Proof. unfold initWallpaperToggle, setWallpaperState. leaves_tac. Qed.

Lemma onWallpaperClick_leaves (p : page) :
  leaves [WALLPAPER_STORAGE_KEY]
    [".video-container"; "video-background"; "toggle-wallpaper-btn"] p
    (onWallpaperClick p).
Proof. unfold onWallpaperClick. apply setWallpaperState_leaves. Qed.

Lemma initTextBoxStorage_leaves (p : page) :
  leaves [] ["notepad"] p (initTextBoxStorage p).
Proof. unfold initTextBoxStorage. leaves_tac. Qed.

Lemma onNotepadInput_leaves (p : page) :
  leaves [TEXTAREA_STORAGE_KEY] [] p (onNotepadInput p).
Proof. unfold onNotepadInput. leaves_tac. Qed.

Lemma checkPassword_leaves (p : page) : leaves [] [] p (checkPassword p).
Proof. unfold checkPassword. leaves_tac. Qed.

Lemma initPasswordProtection_leaves (p : page) :
  leaves [] [] p (initPasswordProtection p).
Proof. unfold initPasswordProtection. leaves_tac. Qed.

Lemma initKeyboardInput_leaves (p : page) : leaves [] [] p (initKeyboardInput p).
Proof. unfold initKeyboardInput. leaves_tac. Qed.

Lemma onKeyboardClick_leaves (key : option (option jsstring)) (p : page) :
  leaves [] ["passwordInput"] p (onKeyboardClick key p).
Proof.
  unfold onKeyboardClick. destruct key as [keyValue|]; [|apply leaves_refl].
  unfold checkPassword. leaves_tac.
Qed.

Lemma typed_leaves (id : string) (txt : jsstring) (p : page) :
  leaves [] [id] p (typed id txt p).
Proof. unfold typed. leaves_tac. Qed.

Lemma applyColor_leaves (h : host) (hexColor : jsstring) (inputElement : bool) (p : page) :
  leaves [COLOR_STORAGE_KEY] [":root"; "accentColorPicker"; "hexDisplay"] p
    (applyColor h hexColor inputElement p).
Proof. unfold applyColor. leaves_tac. Qed.

Lemma initThemeSelector_leaves (h : host) (p : page) :
  leaves [COLOR_STORAGE_KEY] [":root"; "accentColorPicker"; "hexDisplay"] p
    (initThemeSelector h p).
Proof. unfold initThemeSelector, applyColor. leaves_tac. Qed.

Lemma onColorEvent_leaves (h : host) (v : jsstring) (p : page) :
  leaves [COLOR_STORAGE_KEY] [":root"; "accentColorPicker"; "hexDisplay"] p
    (onColorEvent h v p).
Proof. unfold onColorEvent, applyColor. leaves_tac. Qed.

Lemma initCalendarNavigationListeners_leaves (p : page) :
  leaves [] [] p (initCalendarNavigationListeners p).
Proof. unfold initCalendarNavigationListeners. leaves_tac. Qed.

Lemma render_days_leaves (h : host) (savedNotes : value) (n : nat) :
  forall (i : nat) (p : page),
  leaves [] [] p (final (render_days h savedNotes n i p)).
Proof.
  induction n as [|n IH]; intros i p; [apply leaves_refl|].
  cbn [render_days]. unfold render_day at 1.
  destruct (today h) as [[d m] y].
  destruct (get_index savedNotes (Z.of_nat i)) as [note|e]; [|apply leaves_refl].
  destruct (if truthy_opt note then to_text note else Normal []) as [txt|e];
    [|apply leaves_refl].
  cbn [and_then]. eapply leaves_trans; [|apply IH]. now repeat split.
Qed.

Lemma generateCalendar_leaves (h : host) (p : page) :
  leaves [] ["month-year"] p (final (generateCalendar h p)).
Proof.
  unfold generateCalendar. rewrite !getElement_optional.
  destruct (negb (has p "month-year") || negb (has p "calendar-body"));
    [apply leaves_refl|].
  cbn zeta.
  match goal with |- context [JSON.parse ?s] => destruct (JSON.parse s) as [savedNotes|e] end.
  - eapply leaves_trans; [|eapply leaves_mono; [| |apply render_days_leaves]];
      [|set_solver|set_solver].
    leaves_tac.
  - cbn [final]. leaves_tac.
Qed.

Lemma navigateMonth_leaves (h : host) (d : Z) (p : page) :
  leaves [] ["month-year"] p (final (navigateMonth h d p)).
Proof.
  rewrite navigateMonth_stepped.
  eapply leaves_trans; [|apply generateCalendar_leaves].
  unfold stepped. leaves_tac.
Qed.

Lemma onDayInput_leaves (i : nat) (txt : jsstring) (p : page) :
  leaves match notesEnv p with Some (k, _) => [k] | None => [] end [] p
    (final (onDayInput i txt p)).
Proof.
  unfold onDayInput. destruct (has_day i p); [|apply leaves_refl].
  cbn [notesEnv with_cells].
  destruct (notesEnv p) as [[k savedNotes]|]; [|now repeat split].
  destruct (set_index savedNotes (Z.of_nat i) (Str txt)) as [v|e]; [|now repeat split].
  cbn [final]. leaves_tac.
Qed.

(** The checklist functions end on the page they started from, or on the
    page with a new sequence saved (and, for [addItem], the input box
    cleared), with other rows. *)
Lemma render_items_final (items : list value) :
  forall (n : nat) (q : page),
  final (render_items n items q)
  = with_rows (fun _ => rows (final (render_items n items q))) q.
Proof.
  induction items as [|item items IH]; intros n q; cbn [render_items].
  - now destruct q.
  - destruct (render_item n item) as [r|e]; [|now destruct q].
    rewrite IH at 1. reflexivity.
Qed.

Lemma renderChecklist_final (q : page) :
  final (renderChecklist q) = with_rows (fun _ => rows (final (renderChecklist q))) q.
Proof.
  unfold renderChecklist. destruct (loadChecklist q) as [items|e]; [|now destruct q].
  destruct items as [ | | | |l|]; try now destruct q.
  rewrite render_items_final at 1. reflexivity.
Qed.

Lemma leaves_keeps (ks : list jsstring) (ids : list string) (p q : page) :
  leaves ks ids p q -> keeps ks ids p q.
Proof. intros (Ha & _ & Hs & Hp). now repeat split. Qed.

Lemma keeps_refl (ks : list jsstring) (ids : list string) (p : page) : keeps ks ids p p.
Proof. now repeat split. Qed.

Lemma keeps_trans (ks : list jsstring) (ids : list string) (p q r : page) :
  keeps ks ids p q -> keeps ks ids q r -> keeps ks ids p r.
Proof.
  intros (Ha & Hs & Hp) (Ha' & Hs' & Hp').
  split; [congruence|]. split.
  - intros k Hk. now rewrite Hs', Hs.
  - intros id name Hid. now rewrite Hp', Hp.
Qed.

Lemma keeps_mono (ks ks' : list jsstring) (ids ids' : list string) (p q : page) :
  ks ⊆ ks' -> ids ⊆ ids' -> keeps ks ids p q -> keeps ks' ids' p q.
Proof.
  intros Hk Hi (Ha & Hs & Hp). split; [exact Ha|]. split.
  - intros k Hn. apply Hs. intros Hin. apply Hn, Hk, Hin.
  - intros id name Hn. apply Hp. intros Hin. apply Hn, Hi, Hin.
Qed.

Lemma renderChecklist_keeps (q : page) : keeps [] [] q (final (renderChecklist q)).
Proof. rewrite renderChecklist_final. now repeat split. Qed.

Lemma save_render_keeps (v : value) (ids : list string) (p : page) :
  keeps [CHECKLIST_STORAGE_KEY] ids p (final (renderChecklist (saveChecklist v p))).
Proof.
  eapply keeps_trans;
    [|eapply keeps_mono; [| |apply renderChecklist_keeps]; set_solver].
  unfold saveChecklist. split; [reflexivity|]. split; [|reflexivity].
  intros k Hk. apply getItem_setItem_ne. set_solver.
Qed.

Lemma toggleItem_keeps (index : Z) (p : page) :
  keeps [CHECKLIST_STORAGE_KEY] [] p (final (toggleItem index p)).
Proof.
  unfold toggleItem. destruct (loadChecklist p) as [items|e]; [|apply keeps_refl].
  destruct (toggle_checked items index) as [v|e]; [|apply keeps_refl].
  apply save_render_keeps.
Qed.

Lemma deleteItem_keeps (index : Z) (p : page) :
  keeps [CHECKLIST_STORAGE_KEY] [] p (final (deleteItem index p)).
Proof.
  unfold deleteItem. destruct (loadChecklist p) as [items|e]; [|apply keeps_refl].
  destruct items as [ | | | |l|]; try apply keeps_refl. apply save_render_keeps.
Qed.

Lemma addItem_keeps (p : page) :
  keeps [CHECKLIST_STORAGE_KEY] ["inputBox"] p (final (addItem p)).
Proof.
  unfold addItem. destruct (str_eqb _ _); [apply keeps_refl|].
  destruct (loadChecklist p) as [items|e]; [|apply keeps_refl].
  destruct items as [ | | | |l|]; try apply keeps_refl.
  eapply keeps_trans; [|apply save_render_keeps].
  split; [reflexivity|]. split; [reflexivity|].
  intros id name Hid. page_cbn.
  rewrite lookup_insert_ne by (intros [= <- _]; set_solver). reflexivity.
Qed.

Lemma initChecklist_keeps (p : page) : keeps [] [] p (final (initChecklist p)).
Proof.
  unfold initChecklist. rewrite !getElement_optional.
  destruct (negb (has p "inputBox") || negb (has p "checklist")); [apply keeps_refl|].
  pose proof (renderChecklist_keeps p) as H.
  destruct (renderChecklist p) as [q|e q]; cbn [and_then final] in *; [|exact H].
  eapply keeps_trans; [exact H | now repeat split].
Qed.

(** The storage keys of the widgets are pairwise different, and none is
    the key of a month. *)
Lemma calendar_key_other (y m : Z) :
  getCalendarStorageKey y m
  ∉ [WALLPAPER_STORAGE_KEY; TEXTAREA_STORAGE_KEY; CHECKLIST_STORAGE_KEY; COLOR_STORAGE_KEY].
Proof.
  unfold getCalendarStorageKey. rewrite !not_elem_of_cons.
  repeat split; try discriminate. apply not_elem_of_nil.
Qed.

Lemma checklist_key_not_calendar (y m : Z) :
  CHECKLIST_STORAGE_KEY ∉ [getCalendarStorageKey y m].
Proof.
  intros Hc. apply list_elem_of_singleton in Hc. discriminate Hc.
Qed.

Lemma dispatch_leaves (h : host) (e : event) (p : page) :
  calendar_bound p -> CHECKLIST_STORAGE_KEY ∉ event_keys e p ->
  leaves (event_keys e p) (event_ids e) p (final (dispatch h e p)).
Proof.
  intros Hb Hc.
  destruct e as [time date| | |txt|txt| |key|txt|key|n|n|i txt| | |v|v|msg];
    cbn [dispatch final event_keys event_ids] in *;
    try (exfalso; apply Hc; apply list_elem_of_here).
  - destruct (timers p); [apply leaves_refl|]. apply updateClock_leaves.
  - destruct (registered _ _); [|apply leaves_refl]. apply onHamburgerClick_leaves.
  - destruct (registered _ _); [|apply leaves_refl]. apply onWallpaperClick_leaves.
  - pose proof (typed_leaves "notepad" txt p) as Ht.
    destruct (registered _ _).
    + eapply leaves_trans; [eapply leaves_mono; [| |exact Ht]; set_solver|].
      eapply leaves_mono; [| |apply onNotepadInput_leaves]; set_solver.
    + eapply leaves_mono; [| |exact Ht]; set_solver.
  - apply typed_leaves.
  - apply checkPassword_leaves.
  - destruct (registered _ _); [|apply leaves_refl]. apply onKeyboardClick_leaves.
  - apply typed_leaves.
  - pose proof (onDayInput_leaves i txt p) as H. unfold calendar_bound in Hb.
    destruct (notesEnv p) as [[k savedNotes]|].
    + destruct Hb as (-> & _). exact H.
    + eapply leaves_mono; [| |exact H]; set_solver.
  - destruct (registered _ _); [|apply leaves_refl]. apply navigateMonth_leaves.
  - destruct (registered _ _); [|apply leaves_refl]. apply navigateMonth_leaves.
  - destruct (registered _ _); [|apply leaves_refl]. apply onColorEvent_leaves.
  - destruct (registered _ _); [|apply leaves_refl]. apply onColorEvent_leaves.
  - destruct (play_pending p); [|apply leaves_refl]. unfold onPlayRejected. leaves_tac.
Qed.

Lemma dispatch_keeps (h : host) (e : event) (p : page) :
  calendar_bound p -> keeps (event_keys e p) (event_ids e) p (final (dispatch h e p)).
Proof.
  intros Hb.
  destruct (decide (CHECKLIST_STORAGE_KEY ∈ event_keys e p)) as [Hc|Hc];
    [|now apply leaves_keeps, dispatch_leaves].
  destruct e as [time date| | |txt|txt| |key|txt|key|n|n|i txt| | |v|v|msg];
    cbn [dispatch final event_keys event_ids] in *;
    try (exfalso;
         repeat (apply elem_of_cons in Hc; destruct Hc as [Hc|Hc]; [discriminate Hc|]);
         apply elem_of_nil in Hc; exact Hc).
  - destruct (registered _ _); [|apply keeps_refl]. unfold onInputBoxKeypress.
    destruct (str_eqb _ _); [|apply keeps_refl]. apply addItem_keeps.
  - destruct (rows p !! n); [|apply keeps_refl]. apply toggleItem_keeps.
  - destruct (rows p !! n); [|apply keeps_refl]. apply deleteItem_keeps.
Qed.

(** X8: An event changes the stored strings under its own key only, and the
    properties of the elements of its own widget only, in every page the
    script can reach: the widgets do not interfere through the store or
    the document. *)
Theorem dispatch_isolated (h : host) (e : event) (p : page) :
  reachable h p ->
  anchors (final (dispatch h e p)) = anchors p
  /\ (forall k, k ∉ event_keys e p -> getItem k (final (dispatch h e p)) = getItem k p)
  /\ (forall id name, id ∉ event_ids e ->
        prop (final (dispatch h e p)) id name = prop p id name).
Proof.
  intros Hr. destruct (dispatch_keeps h e p (reachable_calendar_bound h p Hr))
    as (Ha & Hs & Hp).
  split; [exact Ha|]. split; [exact Hs|].
  intros id name Hid. unfold prop. now rewrite Hp.
Qed.

Lemma dispatch_isolated_witness :
  getItem CHECKLIST_STORAGE_KEY
    (final (dispatch sample_host (InputDay 5 (js "dentist")) january_page))
  = getItem CHECKLIST_STORAGE_KEY january_page.
Proof.
  refine (proj1 (proj2 (dispatch_isolated sample_host (InputDay 5 (js "dentist"))
                          january_page _)) CHECKLIST_STORAGE_KEY _).
  - apply reach_loaded.
  - exact (checklist_key_not_calendar _ _).
Defined.

(** ** The checklist shows what is stored *)

Lemma loadChecklist_getItem (p q : page) :
  getItem CHECKLIST_STORAGE_KEY q = getItem CHECKLIST_STORAGE_KEY p ->
  loadChecklist q = loadChecklist p.
Proof. intros H. unfold loadChecklist. now rewrite H. Qed.

Lemma loadChecklist_leaves (ks : list jsstring) (ids : list string) (p q : page) :
  keeps ks ids p q -> CHECKLIST_STORAGE_KEY ∉ ks -> loadChecklist q = loadChecklist p.
Proof. intros (_ & Hs & _) Hk. apply loadChecklist_getItem. now apply Hs. Qed.

Lemma shows_store_leaves (ks : list jsstring) (ids : list string) (p q : page) :
  leaves ks ids p q -> CHECKLIST_STORAGE_KEY ∉ ks -> shows_store p -> shows_store q.
Proof.
  intros Hl Hk Hp Hi Hc items Hload. destruct Hl as (Ha & Hr & Hs & _).
  rewrite Hr. apply Hp.
  - now rewrite <- (has_anchors p q "inputBox" Ha).
  - now rewrite <- (has_anchors p q "checklist" Ha).
  - rewrite <- Hload. symmetry. apply loadChecklist_getItem. now apply Hs.
Qed.

Lemma renderChecklist_shows (q : page) : shows_store (final (renderChecklist q)).
Proof.
  intros _ _ items Hload.
  rewrite renderChecklist_final, loadChecklist_with_rows in Hload.
  now rewrite (renderChecklist_records q items Hload).
Qed.

Lemma toggleItem_shows (index : Z) (p : page) :
  shows_store p -> shows_store (final (toggleItem index p)).
Proof.
  intros Hp. unfold toggleItem. destruct (loadChecklist p) as [items|e]; [|exact Hp].
  destruct (toggle_checked items index) as [v|e]; [|exact Hp].
  apply renderChecklist_shows.
Qed.

Lemma deleteItem_shows (index : Z) (p : page) :
  shows_store p -> shows_store (final (deleteItem index p)).
Proof.
  intros Hp. unfold deleteItem. destruct (loadChecklist p) as [items|e]; [|exact Hp].
  destruct items as [ | | | |l|]; try exact Hp. apply renderChecklist_shows.
Qed.

Lemma addItem_shows (p : page) : shows_store p -> shows_store (final (addItem p)).
Proof.
  intros Hp. unfold addItem. destruct (str_eqb _ _); [exact Hp|].
  destruct (loadChecklist p) as [items|e]; [|exact Hp].
  destruct items as [ | | | |l|]; try exact Hp. apply renderChecklist_shows.
Qed.

Lemma initChecklist_shows (p : page) : shows_store (final (initChecklist p)).
Proof.
  unfold initChecklist. rewrite !getElement_optional.
  destruct (has p "inputBox") eqn:Hi; [destruct (has p "checklist") eqn:Hc|];
    cbn [negb orb final].
  - pose proof (renderChecklist_shows p) as H.
    destruct (renderChecklist p) as [q|e q]; cbn [and_then final] in *; [|exact H].
    revert H. apply (shows_store_leaves [] []); [now repeat split|].
    apply not_elem_of_nil.
  - intros _ H. congruence.
  - intros H. congruence.
Qed.

(** The handler runs [main_prefix], [initChecklist] and [main_suffix]. *)
Lemma main_split (h : host) (time date : jsstring) (p : page) :
  main h time date p = and_then (initChecklist (main_prefix time date p)) (main_suffix h).
Proof. unfold main, main_prefix, main_suffix. reflexivity. Qed.

Lemma main_prefix_leaves (time date : jsstring) (p : page) :
  leaves [WALLPAPER_STORAGE_KEY]
    ["clock"; "date"; ".video-container"; "video-background"; "toggle-wallpaper-btn";
     "notepad"] p
    (main_prefix time date p).
Proof.
  unfold main_prefix.
  eapply leaves_trans;
    [|eapply leaves_mono; [| |apply initKeyboardInput_leaves]; set_solver].
  eapply leaves_trans;
    [|eapply leaves_mono; [| |apply initPasswordProtection_leaves]; set_solver].
  eapply leaves_trans;
    [|eapply leaves_mono; [| |apply initTextBoxStorage_leaves]; set_solver].
  eapply leaves_trans;
    [|eapply leaves_mono; [| |apply initWallpaperToggle_leaves]; set_solver].
  eapply leaves_trans;
    [|eapply leaves_mono; [| |apply initSidebarToggle_leaves]; set_solver].
  eapply leaves_trans;
    [|eapply leaves_mono; [| |apply initClock_leaves]; set_solver].
  now repeat split.
Qed.

Lemma main_suffix_leaves (h : host) (p : page) :
  leaves [COLOR_STORAGE_KEY] ["month-year"; ":root"; "accentColorPicker"; "hexDisplay"] p
    (final (main_suffix h p)).
Proof.
  unfold main_suffix. pose proof (generateCalendar_leaves h p) as H.
  destruct (generateCalendar h p) as [q|e q]; cbn [and_then final] in *.
  - eapply leaves_trans; [eapply leaves_mono; [| |exact H]; set_solver|].
    eapply leaves_trans;
      [|eapply leaves_mono; [| |apply initCalendarNavigationListeners_leaves];
        set_solver].
    eapply leaves_mono; [| |apply initThemeSelector_leaves]; set_solver.
  - eapply leaves_mono; [| |exact H]; set_solver.
Qed.

Lemma main_shows (h : host) (time date : jsstring) (p : page) :
  shows_store (final (main h time date p)).
Proof.
  rewrite main_split.
  pose proof (initChecklist_shows (main_prefix time date p)) as H.
  destruct (initChecklist (main_prefix time date p)) as [p2|e p2];
    cbn [and_then final] in *; [|exact H].
  revert H. apply (shows_store_leaves _ _ _ _ (main_suffix_leaves h p2)).
  intros Hc. apply list_elem_of_singleton in Hc. discriminate Hc.
Qed.

Lemma dispatch_shows (h : host) (e : event) (p : page) :
  calendar_bound p -> shows_store p -> shows_store (final (dispatch h e p)).
Proof.
  intros Hb Hp.
  destruct (decide (CHECKLIST_STORAGE_KEY ∈ event_keys e p)) as [Hc|Hc];
    [|now apply (shows_store_leaves _ _ _ _ (dispatch_leaves h e p Hb Hc))].
  destruct e as [time date| | |txt|txt| |key|txt|key|n|n|i txt| | |v|v|msg];
    cbn [dispatch final event_keys event_ids] in *;
    try (exfalso;
         repeat (apply elem_of_cons in Hc; destruct Hc as [Hc|Hc]; [discriminate Hc|]);
         apply elem_of_nil in Hc; exact Hc).
  - destruct (registered _ _); [|exact Hp]. unfold onInputBoxKeypress.
    destruct (str_eqb _ _); [|exact Hp]. now apply addItem_shows.
  - destruct (rows p !! n); [|exact Hp]. now apply toggleItem_shows.
  - destruct (rows p !! n); [|exact Hp]. now apply deleteItem_shows.
Qed.

Lemma reachable_shows_store (h : host) (p : page) : reachable h p -> shows_store p.
Proof.
  induction 1 as [ids stored month year time date | p e Hr IH].
  - apply main_shows.
  - apply dispatch_shows; [exact (reachable_calendar_bound h p Hr) | exact IH].
Qed.

(** X9: In every page the script can reach, a checklist page whose store holds
    a sequence of records shows exactly the rows of that sequence, in
    order, each bound to its own index: the view never lags behind the
    store, whatever was clicked or typed before. *)
Theorem checklist_shows_store (h : host) (p : page) (items : list ChecklistItem) :
  reachable h p -> has p "inputBox" = true -> has p "checklist" = true ->
  loadChecklist p = Normal (checklist_value items) ->
  rows p = rows_of items
  /\ List.map row_index (rows p) = seq 0 (length items).
Proof.
  intros Hr Hi Hc Hload.
  rewrite (reachable_shows_store h p Hr Hi Hc items Hload).
  split; [reflexivity|]. apply (rows_of_index items 0).
Qed.

Lemma checklist_shows_store_witness :
  rows (final (main sample_host (js "9:00:00 AM") (js "Mon, Jan 15, 2024") three_items_page))
  = rows_of three_items.
Proof.
  refine (proj1 (checklist_shows_store sample_host _ three_items _ _ _ _)).
  - apply reach_loaded.
  - vm_compute. reflexivity.
  - vm_compute. reflexivity.
  - vm_compute. reflexivity.
Defined.

(** X10: A click on a row acts on the record the row shows: in a reachable
    checklist page over a stored sequence of [n] records, a click on row
    [k < n] runs [toggleItem k] and a click on its delete button runs
    [deleteItem k], and there is no row at or beyond [n] to click. *)
Theorem row_click_hits_shown_record (h : host) (p : page) (items : list ChecklistItem)
  (k : nat) :
  reachable h p -> has p "inputBox" = true -> has p "checklist" = true ->
  loadChecklist p = Normal (checklist_value items) ->
  ((k < length items)%nat ->
     dispatch h (ClickRow k) p = toggleItem (Z.of_nat k) p
     /\ dispatch h (ClickRowDelete k) p = deleteItem (Z.of_nat k) p)
  /\ ((length items <= k)%nat ->
     dispatch h (ClickRow k) p = Done p /\ dispatch h (ClickRowDelete k) p = Done p).
Proof.
  intros Hr Hi Hc Hload.
  pose proof (reachable_shows_store h p Hr Hi Hc items Hload) as Hrows.
  cbn [dispatch]. rewrite Hrows. split; intros Hk.
  - destruct (lookup_lt_is_Some_2 items k Hk) as [it Hit].
    now rewrite (rows_of_lookup items k it Hit).
  - unfold rows_of. rewrite (lookup_ge_None_2 (imap _ items) k)
      by (rewrite length_imap; lia).
    now split.
Qed.

Lemma row_click_hits_shown_record_witness :
  dispatch sample_host (ClickRow 1)
    (final (main sample_host (js "9:00:00 AM") (js "Mon, Jan 15, 2024") three_items_page))
  = toggleItem 1
      (final (main sample_host (js "9:00:00 AM") (js "Mon, Jan 15, 2024")
                three_items_page)).
Proof.
  refine (proj1 (proj1 (row_click_hits_shown_record sample_host _ three_items 1 _ _ _ _) _)).
  - apply reach_loaded.
  - vm_compute. reflexivity.
  - vm_compute. reflexivity.
  - vm_compute. reflexivity.
  - cbn. lia.
Defined.

(** X11: A stored checklist string that [JSON.parse] rejects is never repaired:
    in a reachable page where [loadChecklist] throws, it throws the same
    error after every event, since every checklist function gives up
    before it saves and no other widget writes under the checklist key. *)
Theorem malformed_checklist_stays (h : host) (e : event) (p : page) (err : error) :
  reachable h p -> loadChecklist p = Throw err ->
  loadChecklist (final (dispatch h e p)) = Throw err.
Proof.
  intros Hr Hload.
  assert (Hsame : forall index, final (toggleItem index p) = p
                                /\ final (deleteItem index p) = p
                                /\ final (addItem p) = p).
  { intros index. unfold toggleItem, deleteItem, addItem. rewrite Hload.
    now destruct (str_eqb _ _). }
  destruct (decide (CHECKLIST_STORAGE_KEY ∈ event_keys e p)) as [Hc|Hc].
  - destruct e as [time date| | |txt|txt| |key|txt|key|n|n|i txt| | |v|v|msg];
      cbn [dispatch final event_keys event_ids] in *;
      try (exfalso;
           repeat (apply elem_of_cons in Hc; destruct Hc as [Hc|Hc]; [discriminate Hc|]);
           apply elem_of_nil in Hc; exact Hc).
    + destruct (registered _ _); [|exact Hload]. unfold onInputBoxKeypress.
      destruct (str_eqb _ _); [|exact Hload].
      now rewrite (proj2 (proj2 (Hsame 0%Z))).
    + destruct (rows p !! n) as [r|]; [|exact Hload].
      now rewrite (proj1 (Hsame (Z.of_nat (row_index r)))).
    + destruct (rows p !! n) as [r|]; [|exact Hload].
      now rewrite (proj1 (proj2 (Hsame (Z.of_nat (row_index r))))).
  - rewrite <- Hload.
    apply (loadChecklist_leaves (event_keys e p) (event_ids e)); [|exact Hc].
    apply dispatch_keeps. exact (reachable_calendar_bound h p Hr).
Qed.

Lemma malformed_checklist_stays_witness :
  loadChecklist
    (final (dispatch sample_host (KeypressInputBox (js "Enter"))
              (final (main sample_host (js "9:00:00 AM") (js "Mon, Jan 15, 2024")
                        (checklist_page (js "oops"))))))
  = Throw SyntaxError.
Proof.
  refine (malformed_checklist_stays sample_host _ _ SyntaxError _ _).
  - apply reach_loaded.
  - vm_compute. reflexivity.
Defined.

(** ** The handler as a whole *)

(** The listeners of the checklist input, the calendar navigation and the
    colour picker are registered by their own initialisation only. *)
Ltac listeners_tac Hl :=
  repeat (apply elem_of_cons in Hl; destruct Hl as [->|Hl]);
  try (now apply elem_of_nil in Hl);
  rewrite ?getElement_optional; repeat case_match;
  unfold registered, setItem, set_prop, emit, addEventListener, setInterval;
  cbn [listeners with_localStorage with_writes with_props with_rows with_cells
       with_notesEnv with_listeners with_timers with_month with_effects];
  rewrite ?existsb_app; cbn [existsb listener_eqb orb]; rewrite ?orb_false_r;
  reflexivity.

Lemma main_prefix_listeners (time date : jsstring) (p : page) (l : listener) :
  l ∈ [InputBoxKeypress; PrevMonthClick; NextMonthClick; ColorInput; ColorChange] ->
  registered l
    (main_prefix time date p)
  = registered l p.
Proof.
  intros Hl. unfold main_prefix.
  assert (H1 : forall q, registered l (initKeyboardInput q) = registered l q).
  { intros q. unfold initKeyboardInput. listeners_tac Hl. }
  assert (H2 : forall q, registered l (initPasswordProtection q) = registered l q).
  { intros q. unfold initPasswordProtection. listeners_tac Hl. }
  assert (H3 : forall q, registered l (initTextBoxStorage q) = registered l q).
  { intros q. unfold initTextBoxStorage. listeners_tac Hl. }
  assert (H4 : forall q, registered l (initWallpaperToggle q) = registered l q).
  { intros q. unfold initWallpaperToggle, setWallpaperState. listeners_tac Hl. }
  assert (H5 : forall q, registered l (initSidebarToggle q) = registered l q).
  { intros q. unfold initSidebarToggle. listeners_tac Hl. }
  assert (H6 : forall q, registered l (initClock time date q) = registered l q).
  { intros q. unfold initClock, updateClock. listeners_tac Hl. }
  now rewrite H1, H2, H3, H4, H5, H6.
Qed.

Lemma main_prefix_fields (time date : jsstring) (p : page) :
  calendar_fields p
    (main_prefix time date p).
Proof.
  unfold main_prefix.
  eapply calendar_fields_trans; [|apply initKeyboardInput_fields].
  eapply calendar_fields_trans; [|apply initPasswordProtection_fields].
  eapply calendar_fields_trans; [|apply initTextBoxStorage_fields].
  eapply calendar_fields_trans; [|apply initWallpaperToggle_fields].
  eapply calendar_fields_trans; [|apply initSidebarToggle_fields].
  eapply calendar_fields_trans; [|apply initClock_fields].
  now repeat split.
Qed.

(** X12: A stored checklist string that [JSON.parse] rejects stops the whole
    [DOMContentLoaded] handler on a checklist page: the error leaves
    [initChecklist], so the calendar is not rendered, the theme is not
    applied and stored, and the listeners of the checklist input, the
    calendar navigation and the colour picker are never registered. *)
Theorem main_stops_at_malformed_checklist (h : host) (time date : jsstring) (p : page)
  (err : error) :
  has p "inputBox" = true -> has p "checklist" = true ->
  loadChecklist p = Throw err ->
  exists q,
    main h time date p = Raised err q
    /\ cells q = cells p /\ notesEnv q = notesEnv p
    /\ getItem COLOR_STORAGE_KEY q = getItem COLOR_STORAGE_KEY p
    /\ (forall name, prop q ":root" name = prop p ":root" name)
    /\ prop q "month-year" "textContent" = prop p "month-year" "textContent"
    /\ (forall l, l ∈ [InputBoxKeypress; PrevMonthClick; NextMonthClick; ColorInput;
                       ColorChange] -> registered l q = registered l p).
Proof.
  intros Hi Hc Hload. rewrite main_split.
  pose proof (main_prefix_leaves time date p) as Hl.
  pose proof (main_prefix_fields time date p) as Hf.
  pose proof (main_prefix_listeners time date p) as Hr.
  generalize dependent (main_prefix time date p). intros p1 Hl Hf Hr.
  destruct Hl as (Ha & _ & Hs & Hp). destruct Hf as (_ & Hcells & Hn & _).
  assert (Hload1 : loadChecklist p1 = Throw err).
  { rewrite <- Hload. apply loadChecklist_getItem, Hs.
    intros Hk. apply list_elem_of_singleton in Hk. discriminate Hk. }
  exists p1. split.
  - unfold initChecklist. rewrite !getElement_optional.
    rewrite (has_anchors p p1 "inputBox" Ha), (has_anchors p p1 "checklist" Ha), Hi, Hc.
    cbn [negb orb]. unfold renderChecklist. now rewrite Hload1.
  - split; [exact Hcells|]. split; [exact Hn|]. split.
    { apply Hs. intros Hk. apply list_elem_of_singleton in Hk. discriminate Hk. }
    split.
    { intros name. unfold prop. rewrite Hp; [reflexivity|].
      rewrite !not_elem_of_cons. repeat split; try discriminate. apply not_elem_of_nil. }
    split; [|exact Hr].
    unfold prop. rewrite Hp; [reflexivity|].
    rewrite !not_elem_of_cons. repeat split; try discriminate. apply not_elem_of_nil.
Qed.

Lemma main_stops_at_malformed_checklist_witness :
  exists q,
    main sample_host (js "9:00:00 AM") (js "Mon, Jan 15, 2024") (checklist_page (js "oops"))
    = Raised SyntaxError q
    /\ cells q = cells (checklist_page (js "oops"))
    /\ notesEnv q = notesEnv (checklist_page (js "oops"))
    /\ getItem COLOR_STORAGE_KEY q = getItem COLOR_STORAGE_KEY (checklist_page (js "oops"))
    /\ (forall name, prop q ":root" name = prop (checklist_page (js "oops")) ":root" name)
    /\ prop q "month-year" "textContent"
       = prop (checklist_page (js "oops")) "month-year" "textContent"
    /\ (forall l, l ∈ [InputBoxKeypress; PrevMonthClick; NextMonthClick; ColorInput;
                       ColorChange] ->
        registered l q = registered l (checklist_page (js "oops"))).
Proof.
  apply (main_stops_at_malformed_checklist sample_host (js "9:00:00 AM")
           (js "Mon, Jan 15, 2024") (checklist_page (js "oops")) SyntaxError).
  - vm_compute. reflexivity.
  - vm_compute. reflexivity.
  - vm_compute. reflexivity.
Defined.

(** ** Calendar *)

(** X13: The grid of a month: when the two calendar elements exist and the
    string stored for the month is a JSON object of strings (or is absent),
    [generateCalendar] returns normally and shows as many blank cells as
    the weekday of the first of the month, then one cell for each day from
    1 to the length of the month, in order, each with its stored note; it
    shows the name of the month and the year, and writes nothing. *)
Theorem generateCalendar_grid (h : host) (p : page) (o : list (jsstring * value)) :
  has p "month-year" = true -> has p "calendar-body" = true ->
  JSON.parse (getItem_or (getCalendarStorageKey (currentYear p) (currentMonth p))
                (js "{}") p) = Normal (Obj o) ->
  all_strings o = true ->
  exists q,
    generateCalendar h p = Done q
    /\ cells q
       = repeat EmptyDay (firstDay h (currentYear p) (currentMonth p))
         ++ List.map (day_cell h o (currentYear p) (currentMonth p))
              (seq 1 (daysIn h (currentYear p) (currentMonth p)))
    /\ length (cells q)
       = (firstDay h (currentYear p) (currentMonth p)
          + daysIn h (currentYear p) (currentMonth p))%nat
    /\ prop q "month-year" "textContent"
       = month_text (currentMonth p) ++ js " " ++ Z_to_js (currentYear p)
    /\ notesEnv q
       = Some (getCalendarStorageKey (currentYear p) (currentMonth p), Obj o)
    /\ localStorage q = localStorage p /\ writes q = writes p.
Proof. apply generateCalendar_strings. Qed.

Lemma generateCalendar_grid_witness :
  exists q,
    generateCalendar sample_host
      (fresh_page ["month-year"; "calendar-body"]
         [(getCalendarStorageKey 2024 0, jsq "{'5':'dentist'}")] 0 2024) = Done q
    /\ length (cells q) = 32%nat
    /\ cells q !! 6%nat
       = Some (Day 5 (js "2024-1-5") false (js "dentist")).
Proof.
  destruct (generateCalendar_grid sample_host
              (fresh_page ["month-year"; "calendar-body"]
                 [(getCalendarStorageKey 2024 0, jsq "{'5':'dentist'}")] 0 2024)
              [(js "5", Str (js "dentist"))])
    as (q & Hq & Hcells & Hlen & _).
  - vm_compute. reflexivity.
  - vm_compute. reflexivity.
  - vm_compute. reflexivity.
  - vm_compute. reflexivity.
  - exists q. split; [exact Hq|]. split; [exact Hlen|]. rewrite Hcells. reflexivity.
Defined.

Lemma main_keeps (h : host) (time date : jsstring) (p : page) :
  keeps [WALLPAPER_STORAGE_KEY; COLOR_STORAGE_KEY]
    ["clock"; "date"; ".video-container"; "video-background"; "toggle-wallpaper-btn";
     "notepad"; "month-year"; ":root"; "accentColorPicker"; "hexDisplay"] p
    (final (main h time date p)).
Proof.
  rewrite main_split.
  pose proof (leaves_keeps _ _ _ _ (main_prefix_leaves time date p)) as H1.
  generalize dependent (main_prefix time date p). intros p1 H1.
  eapply keeps_trans; [eapply keeps_mono; [| |exact H1]; set_solver|].
  pose proof (initChecklist_keeps p1) as H2.
  destruct (initChecklist p1) as [p2|e p2]; cbn [and_then final] in *.
  - eapply keeps_trans; [eapply keeps_mono; [| |exact H2]; set_solver|].
    eapply keeps_mono; [| |apply leaves_keeps, (main_suffix_leaves h p2)]; set_solver.
  - eapply keeps_mono; [| |exact H2]; set_solver.
Qed.

(** X14: Loading the page writes under the keys of the wallpaper and of the
    accent colour only: whatever is stored, and whether the handler returns
    or throws, every other stored string (the checklist, the notepad,
    the notes of every month) is what it was. *)
Theorem main_storage_footprint (h : host) (time date : jsstring) (p : page)
  (k : jsstring) :
  k <> WALLPAPER_STORAGE_KEY -> k <> COLOR_STORAGE_KEY ->
  getItem k (final (main h time date p)) = getItem k p.
Proof.
  intros Hw Hc. destruct (main_keeps h time date p) as (_ & Hs & _). apply Hs.
  rewrite !not_elem_of_cons. repeat split; try assumption. apply not_elem_of_nil.
Qed.

Lemma main_storage_footprint_witness :
  getItem CHECKLIST_STORAGE_KEY
    (final (main sample_host (js "9:00:00 AM") (js "Mon, Jan 15, 2024") three_items_page))
  = getItem CHECKLIST_STORAGE_KEY three_items_page.
Proof.
  apply (main_storage_footprint sample_host (js "9:00:00 AM") (js "Mon, Jan 15, 2024")
           three_items_page CHECKLIST_STORAGE_KEY); discriminate.
Defined.

Lemma initChecklist_records (p : page) (items : list ChecklistItem) :
  loadChecklist p = Normal (checklist_value items) ->
  initChecklist p = Done (final (initChecklist p)).
Proof.
  intros Hload. unfold initChecklist. rewrite !getElement_optional.
  destruct (negb (has p "inputBox") || negb (has p "checklist")); [reflexivity|].
  now rewrite (renderChecklist_records p items Hload).
Qed.

Lemma getItem_or_getItem (k d : jsstring) (p q : page) :
  getItem k q = getItem k p -> getItem_or k d q = getItem_or k d p.
Proof. intros H. unfold getItem_or. now rewrite H. Qed.

Lemma initThemeSelector_stored (h : host) (q : page) :
  getItem COLOR_STORAGE_KEY (initThemeSelector h q)
  = Some (getItem_or COLOR_STORAGE_KEY DEFAULT_HEX q).
Proof.
  unfold initThemeSelector, applyColor. rewrite !getElement_optional.
  repeat case_match; page_cbn; apply lookup_insert_eq.
Qed.

(** X15: When the stored checklist is a sequence of records (or absent) and
    the string stored for the displayed month is a JSON object of strings
    (or absent), as the script itself writes them, the [DOMContentLoaded]
    handler returns normally, on every document. *)
Theorem main_returns (h : host) (time date : jsstring) (p : page)
  (items : list ChecklistItem) (o : list (jsstring * value)) :
  loadChecklist p = Normal (checklist_value items) ->
  JSON.parse (getItem_or (getCalendarStorageKey (currentYear p) (currentMonth p))
                (js "{}") p) = Normal (Obj o) ->
  all_strings o = true ->
  exists q,
    main h time date p = Done q
    /\ getItem COLOR_STORAGE_KEY q = Some (getItem_or COLOR_STORAGE_KEY DEFAULT_HEX p)
    /\ (has p "inputBox" = true -> has p "checklist" = true -> rows q = rows_of items).
Proof.
  intros Hload Hparse Ho.
  pose proof (main_shows h time date p) as Hshow.
  pose proof (main_keeps h time date p) as Hkeep.
  assert (Hdone : main h time date p = Done (final (main h time date p))
                  /\ getItem COLOR_STORAGE_KEY (final (main h time date p))
                     = Some (getItem_or COLOR_STORAGE_KEY DEFAULT_HEX p)).
  { rewrite main_split.
    pose proof (main_prefix_leaves time date p) as Hl.
    pose proof (main_prefix_fields time date p) as Hf.
    generalize dependent (main_prefix time date p). intros p1 Hl Hf.
    assert (Hload1 : loadChecklist p1 = Normal (checklist_value items)).
    { rewrite <- Hload. apply (loadChecklist_leaves _ _ _ _ (leaves_keeps _ _ _ _ Hl)).
      intros Hk. apply list_elem_of_singleton in Hk. discriminate Hk. }
    pose proof (initChecklist_keeps p1) as Hk2.
    pose proof (initChecklist_fields p1) as Hf2.
    rewrite (initChecklist_records p1 items Hload1). cbn [and_then].
    set (p2 := final (initChecklist p1)) in *. clearbody p2.
    destruct Hl as (Ha1 & _ & Hs1 & _). destruct Hk2 as (Ha2 & Hs2 & _).
    destruct Hf as (_ & _ & _ & Hm1 & Hy1). destruct Hf2 as (_ & _ & _ & Hm2 & Hy2).
    assert (Hcolor : getItem COLOR_STORAGE_KEY p2 = getItem COLOR_STORAGE_KEY p).
    { rewrite Hs2 by apply not_elem_of_nil. apply Hs1.
      intros Hk. apply list_elem_of_singleton in Hk. discriminate Hk. }
    assert (Hgen : exists p3, generateCalendar h p2 = Done p3
                              /\ getItem COLOR_STORAGE_KEY p3 = getItem COLOR_STORAGE_KEY p).
    { destruct (has p2 "month-year") eqn:Hmy; [destruct (has p2 "calendar-body") eqn:Hcb|].
      - destruct (generateCalendar_strings h p2 o Hmy Hcb) as (p3 & Hp3 & _ & _ & _ & _ & Hst & _).
        + rewrite Hm2, Hy2, Hm1, Hy1. rewrite <- Hparse. f_equal.
          apply getItem_or_getItem. rewrite Hs2 by apply not_elem_of_nil. apply Hs1.
          intros Hk. apply list_elem_of_singleton in Hk. discriminate Hk.
        + exact Ho.
        + exists p3. split; [exact Hp3|]. unfold getItem. rewrite Hst. exact Hcolor.
      - exists p2. split; [|exact Hcolor]. apply generateCalendar_absent. now right.
      - exists p2. split; [|exact Hcolor]. apply generateCalendar_absent. now left. }
    unfold main_suffix. destruct Hgen as (p3 & -> & Hc3). cbn [and_then final].
    split; [reflexivity|].
    destruct (initCalendarNavigationListeners_leaves (initThemeSelector h p3))
      as (_ & _ & Hs4 & _).
    rewrite Hs4 by apply not_elem_of_nil.
    rewrite initThemeSelector_stored. f_equal. now apply getItem_or_getItem. }
  destruct Hdone as [Hdone Hcol].
  exists (final (main h time date p)). split; [exact Hdone|]. split; [exact Hcol|].
  intros Hi Hc. destruct Hkeep as (Ha & Hs & _). apply Hshow.
  - now rewrite (has_anchors p _ "inputBox" Ha).
  - now rewrite (has_anchors p _ "checklist" Ha).
  - rewrite <- Hload. apply loadChecklist_getItem, Hs.
    rewrite !not_elem_of_cons. repeat split; try discriminate. apply not_elem_of_nil.
Qed.

Lemma main_returns_witness :
  exists q,
    main sample_host (js "9:00:00 AM") (js "Mon, Jan 15, 2024") three_items_page = Done q
    /\ getItem COLOR_STORAGE_KEY q
       = Some (getItem_or COLOR_STORAGE_KEY DEFAULT_HEX three_items_page)
    /\ (has three_items_page "inputBox" = true -> has three_items_page "checklist" = true ->
        rows q = rows_of three_items).
Proof.
  apply (main_returns sample_host (js "9:00:00 AM") (js "Mon, Jan 15, 2024")
           three_items_page three_items []).
  - vm_compute. reflexivity.
  - vm_compute. reflexivity.
  - reflexivity.
Defined.

(** *** Property keys of the note map *)

Lemma digits_value_app (s : jsstring) (d : N) :
  digits_value (s ++ [d]) = 10 * digits_value s + (d - 48).
Proof. unfold digits_value. now rewrite fold_left_app. Qed.

Lemma digits_value_pos (s : jsstring) :
  forallb is_digit s = true -> s <> [] -> hd 0 s <> 48 -> 0 < digits_value s.
Proof.
  induction s as [|d t IH] using rev_ind; intros Hd Hne Hz; [done|].
  rewrite digits_value_app. rewrite forallb_app in Hd. apply andb_prop in Hd as [Ht Hd].
  cbn [forallb] in Hd. rewrite andb_true_r in Hd. unfold is_digit in Hd.
  apply andb_prop in Hd as [H1 H2]. apply N.leb_le in H1, H2.
  destruct t as [|c t].
  - cbn [app hd] in Hz. cbn. lia.
  - assert (0 < digits_value (c :: t)) by (apply IH; [exact Ht | done | exact Hz]). lia.
Qed.

Lemma digits_value_inj (s : jsstring) :
  forall s', forallb is_digit s = true -> forallb is_digit s' = true ->
  hd 0 s <> 48 -> hd 0 s' <> 48 ->
  digits_value s = digits_value s' -> s = s'.
Proof.
  induction s as [|d t IH] using rev_ind; intros s' Hd Hd' Hz Hz' Hv.
  - destruct s' as [|c' t']; [reflexivity|].
    pose proof (digits_value_pos (c' :: t') Hd' ltac:(done) Hz') as Hp.
    rewrite <- Hv in Hp. cbn in Hp. lia.
  - destruct s' as [|d' t'] using rev_ind.
    + pose proof (digits_value_pos (t ++ [d]) Hd ltac:(now destruct t) Hz) as Hp.
      rewrite Hv in Hp. cbn in Hp. lia.
    + clear IHt'. rewrite !digits_value_app in Hv.
      rewrite forallb_app in Hd, Hd'.
      apply andb_prop in Hd as [Ht Hd]. apply andb_prop in Hd' as [Ht' Hd'].
      cbn [forallb] in Hd, Hd'. rewrite andb_true_r in Hd, Hd'. unfold is_digit in Hd, Hd'.
      apply andb_prop in Hd as [H1 H2]. apply andb_prop in Hd' as [H1' H2'].
      apply N.leb_le in H1, H2, H1', H2'.
      assert (d = d' /\ digits_value t = digits_value t') as [-> Hvt] by lia.
      f_equal. apply IH; try assumption.
      * destruct t as [|c t]; [|exact Hz].
        destruct t' as [|c' t']; [cbn in *; lia|].
        pose proof (digits_value_pos (c' :: t') Ht' ltac:(done) Hz') as Hp.
        rewrite <- Hvt in Hp. cbn in Hp. lia.
      * destruct t' as [|c' t']; [|exact Hz'].
        destruct t as [|c t]; [cbn in *; lia|].
        pose proof (digits_value_pos (c :: t) Ht ltac:(done) Hz) as Hp.
        rewrite Hvt in Hp. cbn in Hp. lia.
Qed.

Lemma array_index_shape (k : jsstring) (i : N) :
  array_index k = Some i ->
  forallb is_digit k = true /\ digits_value k = i /\ (hd 0 k <> 48 \/ k = [48]) /\ k <> [].
Proof.
  unfold array_index. destruct k as [|c r]; [discriminate|].
  destruct (forallb is_digit (c :: r)) eqn:Hd; [|discriminate].
  destruct (negb (c =? 48) || match r with [] => true | _ => false end) eqn:Hc;
    [|discriminate].
  cbn [andb]. destruct ((length (c :: r) <=? 10)%nat && _); [|discriminate].
  intros [= <-]. split; [reflexivity|]. split; [reflexivity|]. split; [|done].
  apply orb_prop in Hc as [Hc|Hc].
  - left. cbn [hd]. apply negb_true_iff, N.eqb_neq in Hc. exact Hc.
  - destruct r; [|discriminate]. destruct (N.eq_dec c 48) as [->|Hne]; [now right|now left].
Qed.

Lemma array_index_inj (k k' : jsstring) (i : N) :
  array_index k = Some i -> array_index k' = Some i -> k = k'.
Proof.
  intros (Hd & Hv & Hz & Hne)%array_index_shape (Hd' & Hv' & Hz' & Hne')%array_index_shape.
  destruct Hz as [Hz| ->], Hz' as [Hz'| ->]; try reflexivity.
  - apply digits_value_inj; try assumption. congruence.
  - pose proof (digits_value_pos k Hd Hne Hz) as Hp. rewrite Hv, <- Hv' in Hp.
    cbn in Hp. lia.
  - pose proof (digits_value_pos k' Hd' Hne' Hz') as Hp. rewrite Hv', <- Hv in Hp.
    cbn in Hp. lia.
Qed.

Lemma obj_get_None (k : jsstring) (l : list (jsstring * value)) :
  obj_get k l = None -> k ∉ List.map fst l.
Proof.
  induction l as [|[k' v'] l IH]; intros Hg; [apply not_elem_of_nil|].
  cbn [obj_get] in Hg. unfold str_eqb in Hg. cbn [List.map fst].
  destruct (bool_decide_reflect (k = k')) as [He|Hne]; [discriminate|].
  apply not_elem_of_cons. split; [exact Hne | now apply IH].
Qed.

Lemma obj_replace_keys (k : jsstring) (v : value) (l : list (jsstring * value)) :
  List.map fst (obj_replace k v l) = List.map fst l.
Proof.
  induction l as [|[k' v'] l IH]; [reflexivity|]. cbn [obj_replace].
  destruct (str_eqb k k'); [reflexivity|]. cbn [List.map fst]. now rewrite IH.
Qed.

Lemma obj_get_replace (k k0 : jsstring) (v : value) (l : list (jsstring * value)) :
  obj_get k0 (obj_replace k v l)
  = if str_eqb k0 k then (match obj_get k l with Some _ => Some v | None => None end)
    else obj_get k0 l.
Proof.
  induction l as [|[k' v'] l IH]; [now destruct (str_eqb k0 k)|].
  cbn [obj_replace obj_get]. unfold str_eqb in *.
  destruct (bool_decide_reflect (k = k')) as [<-|Hne]; cbn [obj_get]; unfold str_eqb.
  - destruct (bool_decide_reflect (k0 = k)) as [->|Hne0]; [reflexivity|reflexivity].
  - destruct (bool_decide_reflect (k0 = k')) as [->|Hne0].
    + rewrite bool_decide_eq_false_2 by congruence. reflexivity.
    + exact IH.
Qed.

Lemma obj_get_insert_index (i : N) (k k0 : jsstring) (v : value)
  (l : list (jsstring * value)) :
  obj_get k l = None ->
  obj_get k0 (obj_insert_index i k v l) = if str_eqb k0 k then Some v else obj_get k0 l.
Proof.
  induction l as [|[k' v'] l IH]; intros Hg; [reflexivity|].
  cbn [obj_get] in Hg. unfold str_eqb in *.
  destruct (bool_decide_reflect (k = k')) as [He|Hne]; [discriminate|].
  cbn [obj_insert_index].
  destruct (array_index k') as [j|]; [destruct (i <? j)|]; try reflexivity.
  cbn [obj_get]. unfold str_eqb. rewrite (IH Hg).
  destruct (bool_decide_reflect (k0 = k')) as [->|Hne0]; [|reflexivity].
  now rewrite bool_decide_eq_false_2 by congruence.
Qed.

Lemma obj_get_app_last (k k0 : jsstring) (v : value) (l : list (jsstring * value)) :
  obj_get k l = None ->
  obj_get k0 (l ++ [(k, v)]) = if str_eqb k0 k then Some v else obj_get k0 l.
Proof.
  induction l as [|[k' v'] l IH]; intros Hg; [reflexivity|].
  cbn [obj_get] in Hg. unfold str_eqb in *.
  destruct (bool_decide_reflect (k = k')) as [He|Hne]; [discriminate|].
  cbn [app obj_get]. unfold str_eqb. rewrite (IH Hg).
  destruct (bool_decide_reflect (k0 = k')) as [->|Hne0]; [|reflexivity].
  now rewrite bool_decide_eq_false_2 by congruence.
Qed.

(** Reading back what [obj_set] wrote. *)
Lemma obj_get_set (k k0 : jsstring) (v : value) (l : list (jsstring * value)) :
  obj_get k0 (obj_set k v l) = if str_eqb k0 k then Some v else obj_get k0 l.
Proof.
  unfold obj_set. destruct (obj_get k l) as [v0|] eqn:Hg.
  - rewrite obj_get_replace, Hg. reflexivity.
  - destruct (array_index k) as [i|].
    + now apply obj_get_insert_index.
    + now apply obj_get_app_last.
Qed.

Lemma keys_ordered_cons (k : jsstring) (ks : list jsstring) :
  keys_ordered (k :: ks)
  = match ks with [] => true | k2 :: _ => key_before k k2 end && keys_ordered ks.
Proof. destruct ks; reflexivity. Qed.

Lemma keys_ordered_snoc (ks : list jsstring) (k : jsstring) :
  array_index k = None -> keys_ordered ks = true -> keys_ordered (ks ++ [k]) = true.
Proof.
  intros Hk. induction ks as [|k1 ks IH]; intros Ho; [reflexivity|].
  rewrite keys_ordered_cons in Ho. apply andb_prop in Ho as [H1 H2].
  cbn [app]. rewrite keys_ordered_cons, (IH H2), andb_true_r.
  destruct ks as [|k2 ks]; [|exact H1].
  cbn [app]. unfold key_before. rewrite Hk. now destruct (array_index k1).
Qed.

Lemma insert_index_keys (i : N) (k : jsstring) (v : value) (l : list (jsstring * value)) :
  array_index k = Some i -> k ∉ List.map fst l ->
  NoDup (List.map fst l) -> keys_ordered (List.map fst l) = true ->
  NoDup (List.map fst (obj_insert_index i k v l))
  /\ keys_ordered (List.map fst (obj_insert_index i k v l)) = true
  /\ (forall k0, key_before k0 k = true ->
        match List.map fst l with [] => true | k2 :: _ => key_before k0 k2 end = true ->
        match List.map fst (obj_insert_index i k v l) with
        | [] => true
        | k2 :: _ => key_before k0 k2
        end = true).
Proof.
  intros Hi. induction l as [|[k' v'] l IH]; intros Hn Hd Ho.
  - cbn. split; [apply NoDup_singleton|]. split; [reflexivity|]. now intros k0 H _.
  - cbn [List.map fst] in Hn, Hd, Ho. apply not_elem_of_cons in Hn as [Hne Hn].
    apply NoDup_cons in Hd as [Hk' Hd].
    rewrite keys_ordered_cons in Ho. apply andb_prop in Ho as [Hb Ho].
    assert (Hfront : NoDup (k :: k' :: List.map fst l)).
    { apply NoDup_cons. split; [|now apply NoDup_cons].
      apply not_elem_of_cons. now split. }
    cbn [obj_insert_index]. destruct (array_index k') as [j|] eqn:Hj.
    + destruct (N.ltb_spec i j) as [Hlt|Hge].
      * cbn [List.map fst]. split; [exact Hfront|]. split.
        { rewrite keys_ordered_cons, keys_ordered_cons, Hb, Ho.
          unfold key_before. rewrite Hi, Hj. now apply N.ltb_lt in Hlt as ->. }
        now intros k0 H _.
      * destruct (IH Hn Hd Ho) as (IH1 & IH2 & IH3).
        assert (Hji : j < i).
        { destruct (N.eq_dec j i) as [->|]; [|lia].
          exfalso. apply Hne. now apply (array_index_inj k k' i). }
        cbn [List.map fst]. split.
        { apply NoDup_cons. split; [|exact IH1].
          intros Hin. apply list_elem_of_fmap in Hin as ([k1 v1] & -> & Hin).
          assert (Hg : obj_get k1 (obj_insert_index i k v l) <> None).
          { clear -Hin. induction (obj_insert_index i k v l) as [|[k2 v2] r IHr];
              [now apply elem_of_nil in Hin|].
            cbn [obj_get]. unfold str_eqb.
            destruct (bool_decide_reflect (k1 = k2)); [done|].
            apply elem_of_cons in Hin as [[= -> ->]|Hin]; [done|]. now apply IHr. }
          rewrite obj_get_insert_index in Hg by now apply obj_get_notin.
          unfold str_eqb in Hg. cbn [fst] in *.
          rewrite bool_decide_eq_false_2 in Hg by congruence.
          apply Hg, obj_get_notin, Hk'. }
        split.
        { rewrite keys_ordered_cons, IH2, andb_true_r. apply IH3; [|exact Hb].
          unfold key_before. rewrite Hi, Hj. now apply N.ltb_lt. }
        intros k0 _ H. exact H.
    + cbn [List.map fst]. split; [exact Hfront|]. split.
      { rewrite keys_ordered_cons, keys_ordered_cons, Hb, Ho.
        unfold key_before. now rewrite Hi, Hj. }
      now intros k0 H _.
Qed.

Lemma forallb_replace (k : jsstring) (v : value) (f : value -> bool)
  (l : list (jsstring * value)) :
  f v = true -> forallb (fun kv => f (snd kv)) l = true ->
  forallb (fun kv => f (snd kv)) (obj_replace k v l) = true.
Proof.
  intros Hv. induction l as [|[k' v'] l IH]; [reflexivity|].
  cbn [forallb obj_replace snd]. intros [H1 H2]%andb_prop.
  destruct (str_eqb k k'); cbn [forallb snd]; [now rewrite Hv, H2|].
  now rewrite H1, IH.
Qed.

Lemma forallb_insert_index (i : N) (k : jsstring) (v : value) (f : value -> bool)
  (l : list (jsstring * value)) :
  f v = true -> forallb (fun kv => f (snd kv)) l = true ->
  forallb (fun kv => f (snd kv)) (obj_insert_index i k v l) = true.
Proof.
  intros Hv. induction l as [|[k' v'] l IH]; [now cbn; rewrite Hv|].
  intros H. pose proof H as H0. cbn [forallb snd] in H. apply andb_prop in H as [H1 H2].
  cbn [obj_insert_index]. destruct (array_index k') as [j|]; [destruct (i <? j)|].
  - change (f v && forallb (fun kv => f (snd kv)) ((k', v') :: l) = true).
    now rewrite Hv, H0.
  - cbn [forallb snd]. now rewrite H1, IH.
  - change (f v && forallb (fun kv => f (snd kv)) ((k', v') :: l) = true).
    now rewrite Hv, H0.
Qed.

Lemma forallb_obj_set (k : jsstring) (v : value) (f : value -> bool)
  (l : list (jsstring * value)) :
  f v = true -> forallb (fun kv => f (snd kv)) l = true ->
  forallb (fun kv => f (snd kv)) (obj_set k v l) = true.
Proof.
  intros Hv Hl. unfold obj_set. destruct (obj_get k l); [now apply forallb_replace|].
  destruct (array_index k); [now apply forallb_insert_index|].
  rewrite forallb_app, Hl. cbn. now rewrite Hv.
Qed.

(** A property assignment keeps an object number-free, with distinct keys
    in enumeration order. *)
Lemma obj_set_plain (k : jsstring) (v : value) (l : list (jsstring * value)) :
  plain (Obj l) = true -> plain v = true -> plain (Obj (obj_set k v l)) = true.
Proof.
  cbn [plain]. intros [[Hd Ho]%andb_prop Hv]%andb_prop Hpv.
  apply bool_decide_eq_true in Hd.
  rewrite (forallb_obj_set k v plain l Hpv Hv), andb_true_r.
  unfold obj_set. destruct (obj_get k l) as [v0|] eqn:Hg.
  - rewrite obj_replace_keys, Ho, andb_true_r. now apply bool_decide_eq_true.
  - apply obj_get_None in Hg. destruct (array_index k) as [i|] eqn:Hi.
    + destruct (insert_index_keys i k v l Hi Hg Hd Ho) as (H1 & H2 & _).
      rewrite H2, andb_true_r. now apply bool_decide_eq_true.
    + rewrite map_app. cbn [List.map fst].
      rewrite (keys_ordered_snoc _ _ Hi Ho), andb_true_r. apply bool_decide_eq_true.
      apply NoDup_app. split; [exact Hd|]. split; [|apply NoDup_singleton].
      intros x Hx Hx'. apply list_elem_of_singleton in Hx'. now subst.
Qed.

Lemma all_strings_set (k : jsstring) (s : jsstring) (o : list (jsstring * value)) :
  all_strings o = true -> all_strings (obj_set k (Str s) o) = true.
Proof.
  intros Ho. unfold all_strings.
  apply (forallb_obj_set k (Str s) (fun v => match v with Str _ => true | _ => false end));
    [reflexivity | exact Ho].
Qed.

Lemma note_of_set (o : list (jsstring * value)) (i j : nat) (txt : jsstring) :
  note_of (obj_set (Z_to_js (Z.of_nat i)) (Str txt) o) j
  = if bool_decide (j = i) then txt else note_of o j.
Proof.
  unfold note_of. rewrite obj_get_set. unfold str_eqb.
  destruct (bool_decide_reflect (j = i)) as [->|Hne].
  - now rewrite bool_decide_eq_true_2.
  - rewrite bool_decide_eq_false_2; [reflexivity|].
    intros H. apply Z_to_js_inj in H. lia.
Qed.

(** X16: A note typed into a day is there when the month is shown again: the
    listener stores the note map with the new note under the key of the
    month, and any later rendering of that month from a store still holding
    that string (after a reload, or after moving to other months and back)
    returns normally and shows the typed text in that day and the notes of
    the other days as they were. *)
Theorem note_survives (h : host) (p : page) (i : nat) (txt : jsstring)
  (o : list (jsstring * value)) :
  notesEnv p = Some (getCalendarStorageKey (currentYear p) (currentMonth p), Obj o) ->
  plain (Obj o) = true -> all_strings o = true -> has_day i p = true ->
  let key := getCalendarStorageKey (currentYear p) (currentMonth p) in
  let o' := obj_set (Z_to_js (Z.of_nat i)) (Str txt) o in
  let q := final (onDayInput i txt p) in
  getItem key q = Some (JSON.stringify (Obj o'))
  /\ notesEnv q = Some (key, Obj o')
  /\ cells q = List.map (set_note i txt) (cells p)
  /\ note_of o' i = txt
  /\ (forall j, j <> i -> note_of o' j = note_of o j)
  /\ (forall r,
        has r "month-year" = true -> has r "calendar-body" = true ->
        currentYear r = currentYear p -> currentMonth r = currentMonth p ->
        getItem key r = getItem key q ->
        exists r',
          generateCalendar h r = Done r'
          /\ cells r'
             = repeat EmptyDay (firstDay h (currentYear p) (currentMonth p))
               ++ List.map (day_cell h o' (currentYear p) (currentMonth p))
                    (seq 1 (daysIn h (currentYear p) (currentMonth p)))).
Proof.
  intros Hn Hp Ho Hd key o' q.
  assert (Hq : q = setItem key (JSON.stringify (Obj o'))
                     (with_notesEnv (Some (key, Obj o'))
                        (with_cells (List.map (set_note i txt)) p))).
  { subst q. unfold onDayInput. rewrite Hd. cbn [notesEnv with_cells]. rewrite Hn.
    reflexivity. }
  assert (Hstored : getItem key q = Some (JSON.stringify (Obj o')))
    by (rewrite Hq; apply getItem_setItem).
  split; [exact Hstored|]. split; [now rewrite Hq|]. split; [now rewrite Hq|].
  split; [subst o'; rewrite note_of_set; now rewrite bool_decide_eq_true_2|].
  split.
  { intros j Hj. subst o'. rewrite note_of_set. now rewrite bool_decide_eq_false_2. }
  intros r Hmy Hcb Hy Hm Hr.
  assert (Hplain : plain (Obj o') = true) by now apply obj_set_plain.
  destruct (generateCalendar_strings h r o' Hmy Hcb) as (r' & Hr' & Hcells & _).
  - rewrite Hy, Hm. fold key. unfold getItem_or. rewrite Hr, Hstored.
    destruct (stringify_nonempty (Obj o') Hplain) as (c & s & Hs).
    rewrite Hs, <- Hs. now apply parse_stringify.
  - now apply all_strings_set.
  - exists r'. split; [exact Hr'|]. now rewrite Hcells, Hy, Hm.
Qed.

Lemma note_survives_witness :
  getItem (getCalendarStorageKey 2024 0)
    (final (onDayInput 5 (js "dentist") january_page))
  = Some (jsq "{'5':'dentist'}").
Proof.
  refine (proj1 (note_survives sample_host january_page 5 (js "dentist") [] _ _ _ _)).
  - vm_compute. reflexivity.
  - reflexivity.
  - reflexivity.
  - vm_compute. reflexivity.
Defined.

(** X17: A step to the next month followed by a step back (or the other way
    round) shows the month it started from, for every month from January
    to December; and a single step from such a month leads to such a month,
    so the month name is always one of the twelve. *)
Theorem navigateMonth_there_and_back (h : host) (p : page) :
  (0 <= currentMonth p <= 11)%Z ->
  let next := final (navigateMonth h 1 p) in
  let previous := final (navigateMonth h (-1) p) in
  (0 <= currentMonth next <= 11)%Z /\ (0 <= currentMonth previous <= 11)%Z
  /\ currentMonth (final (navigateMonth h (-1) next)) = currentMonth p
  /\ currentYear (final (navigateMonth h (-1) next)) = currentYear p
  /\ currentMonth (final (navigateMonth h 1 previous)) = currentMonth p
  /\ currentYear (final (navigateMonth h 1 previous)) = currentYear p.
Proof.
  intros Hm next previous.
  assert (Hstep : forall d q,
            currentMonth (final (navigateMonth h d q)) = currentMonth (stepped d q)
            /\ currentYear (final (navigateMonth h d q)) = currentYear (stepped d q)).
  { intros d q. rewrite navigateMonth_stepped.
    destruct (generateCalendar_frame h (stepped d q)) as (_ & _ & _ & _ & _ & H1 & H2 & _).
    now split. }
  assert (Hval : forall d q,
            currentMonth (stepped d q)
            = (if (currentMonth q + d <? 0)%Z then 11
               else if (currentMonth q + d >? 11)%Z then 0 else currentMonth q + d)%Z
            /\ currentYear (stepped d q)
               = (if (currentMonth q + d <? 0)%Z then currentYear q - 1
                  else if (currentMonth q + d >? 11)%Z then currentYear q + 1
                  else currentYear q)%Z).
  { intros d q. unfold stepped. now repeat case_match. }
  subst next previous.
  destruct (Hstep 1%Z p) as [Hm1 Hy1], (Hstep (-1)%Z p) as [Hm2 Hy2].
  destruct (Hval 1%Z p) as [Vm1 Vy1], (Hval (-1)%Z p) as [Vm2 Vy2].
  destruct (Hstep (-1)%Z (final (navigateMonth h 1 p))) as [Hm3 Hy3].
  destruct (Hstep 1%Z (final (navigateMonth h (-1) p))) as [Hm4 Hy4].
  destruct (Hval (-1)%Z (final (navigateMonth h 1 p))) as [Vm3 Vy3].
  destruct (Hval 1%Z (final (navigateMonth h (-1) p))) as [Vm4 Vy4].
  rewrite Hm3, Hy3, Hm4, Hy4, Vm3, Vy3, Vm4, Vy4, Hm1, Hy1, Hm2, Hy2, Vm1, Vy1, Vm2, Vy2.
  repeat case_match; lia.
Qed.

Lemma navigateMonth_there_and_back_witness :
  currentMonth (final (navigateMonth sample_host (-1)
                         (final (navigateMonth sample_host 1
                                   (fresh_page [] [] 11 2024))))) = 11%Z
  /\ currentYear (final (navigateMonth sample_host (-1)
                           (final (navigateMonth sample_host 1
                                     (fresh_page [] [] 11 2024))))) = 2024%Z.
Proof.
  destruct (navigateMonth_there_and_back sample_host (fresh_page [] [] 11 2024))
    as (_ & _ & H1 & H2 & _).
  - cbn. lia.
  - split; [exact H1 | exact H2].
Defined.

(** ** Wallpaper *)

Ltac props_tac :=
  unfold prop; page_cbn;
  rewrite ?lookup_insert_eq, ?lookup_insert_ne by discriminate;
  rewrite ?lookup_insert_eq, ?lookup_insert_ne by discriminate;
  rewrite ?lookup_insert_eq.

Lemma setWallpaperState_video (p : page) :
  let q := setWallpaperState true (js "video") p in
  prop q "video-background" "style.display" = js "block"
  /\ prop q ".video-container" "style.backgroundImage" = js "none"
  /\ prop q "toggle-wallpaper-btn" "textContent" = js "Use Static Image".
Proof.
  unfold setWallpaperState.
  change (str_eqb (js "video") (js "video") && true) with true. cbv iota.
  props_tac. now repeat split.
Qed.

Lemma setWallpaperState_image (video : bool) (state : jsstring) (p : page) :
  str_eqb state (js "video") && video = false ->
  let q := setWallpaperState video state p in
  prop q "video-background" "style.display"
  = (if video then js "none" else prop p "video-background" "style.display")
  /\ prop q ".video-container" "style.backgroundImage" = js "url('images/stars21.png')"
  /\ prop q "toggle-wallpaper-btn" "textContent" = js "Use Video Background".
Proof.
  intros H. unfold setWallpaperState. rewrite H.
  destruct video; props_tac; now repeat split.
Qed.

(** X18: A click on the wallpaper button always leaves [video] or [image]
    stored: [image] when [video] was stored, [video] in every other case;
    so two clicks from either state give that state back.  When the video
    element exists, the video is displayed exactly when [video] is stored;
    when it does not, the static image is shown and the button offers the
    video, whichever of the two is stored. *)
Theorem wallpaper_click_toggles (p : page) :
  let q := onWallpaperClick p in
  (getItem WALLPAPER_STORAGE_KEY p = Some (js "video") ->
     getItem WALLPAPER_STORAGE_KEY q = Some (js "image"))
  /\ (getItem WALLPAPER_STORAGE_KEY p <> Some (js "video") ->
     getItem WALLPAPER_STORAGE_KEY q = Some (js "video"))
  /\ (getItem WALLPAPER_STORAGE_KEY p = Some (js "video")
      \/ getItem WALLPAPER_STORAGE_KEY p = Some (js "image") ->
      getItem WALLPAPER_STORAGE_KEY (onWallpaperClick q)
      = getItem WALLPAPER_STORAGE_KEY p)
  /\ (has p "video-background" = true ->
      (getItem WALLPAPER_STORAGE_KEY q = Some (js "video") ->
         prop q "video-background" "style.display" = js "block"
         /\ prop q ".video-container" "style.backgroundImage" = js "none"
         /\ prop q "toggle-wallpaper-btn" "textContent" = js "Use Static Image")
      /\ (getItem WALLPAPER_STORAGE_KEY q = Some (js "image") ->
         prop q "video-background" "style.display" = js "none"
         /\ prop q ".video-container" "style.backgroundImage"
            = js "url('images/stars21.png')"
         /\ prop q "toggle-wallpaper-btn" "textContent" = js "Use Video Background"))
  /\ (has p "video-background" = false ->
      prop q ".video-container" "style.backgroundImage" = js "url('images/stars21.png')"
      /\ prop q "toggle-wallpaper-btn" "textContent" = js "Use Video Background"
      /\ prop q "video-background" "style.display" = prop p "video-background" "style.display").
Proof.
  intros q.
  assert (Hnext : forall r,
            getItem WALLPAPER_STORAGE_KEY (onWallpaperClick r)
            = Some (match getItem WALLPAPER_STORAGE_KEY r with
                    | Some s => if str_eqb s (js "video") then js "image" else js "video"
                    | None => js "video"
                    end)).
  { intros r. unfold onWallpaperClick, setWallpaperState. apply getItem_setItem. }
  assert (H1 : getItem WALLPAPER_STORAGE_KEY p = Some (js "video") ->
               getItem WALLPAPER_STORAGE_KEY q = Some (js "image")).
  { intros Hv. subst q. now rewrite Hnext, Hv. }
  assert (H2 : getItem WALLPAPER_STORAGE_KEY p <> Some (js "video") ->
               getItem WALLPAPER_STORAGE_KEY q = Some (js "video")).
  { intros Hv. subst q. rewrite Hnext.
    destruct (getItem WALLPAPER_STORAGE_KEY p) as [s|]; [|reflexivity].
    unfold str_eqb. rewrite bool_decide_eq_false_2; [reflexivity|]. congruence. }
  split; [exact H1|]. split; [exact H2|]. split.
  { intros [Hv|Hi].
    - rewrite Hnext, (H1 Hv), Hv. reflexivity.
    - rewrite Hnext, H2, Hi; [reflexivity|]. rewrite Hi. discriminate. }
  assert (Hq : getItem WALLPAPER_STORAGE_KEY q = Some (js "video")
               \/ getItem WALLPAPER_STORAGE_KEY q = Some (js "image")).
  { destruct (decide (getItem WALLPAPER_STORAGE_KEY p = Some (js "video"))); auto. }
  assert (Hstate : exists state,
            q = setWallpaperState (has p "video-background") state p
            /\ getItem WALLPAPER_STORAGE_KEY q = Some state).
  { exists (match getItem WALLPAPER_STORAGE_KEY p with
            | Some s => if str_eqb s (js "video") then js "image" else js "video"
            | None => js "video"
            end).
    split; [subst q; unfold onWallpaperClick; reflexivity | apply Hnext]. }
  destruct Hstate as (state & Hqs & Hst). split.
  - intros Hv. split; intros Hs; rewrite Hst in Hs; injection Hs as ->;
      rewrite Hqs, Hv.
    + apply setWallpaperState_video.
    + apply (setWallpaperState_image true (js "image") p). reflexivity.
  - intros Hv. rewrite Hqs, Hv.
    destruct (setWallpaperState_image false state p) as (H3 & H4 & H5);
      [apply andb_false_r|]. now repeat split.
Qed.

(** ** Notepad *)

Lemma initTextBoxStorage_value (p : page) (c : N) (s : jsstring) :
  has p "notepad" = true -> getItem TEXTAREA_STORAGE_KEY p = Some (c :: s) ->
  prop (initTextBoxStorage p) "notepad" "value" = c :: s
  /\ registered NotepadInput (initTextBoxStorage p) = true.
Proof.
  intros Hn Hs. unfold initTextBoxStorage. rewrite getElement_optional, Hn, Hs.
  cbn [negb]. split; [now props_tac|].
  unfold registered, addEventListener. cbn [listeners with_listeners].
  rewrite existsb_app. cbn. apply orb_true_r.
Qed.

Lemma main_prefix_notepad (time date : jsstring) (r : page) (c : N) (s : jsstring) :
  has r "notepad" = true -> getItem TEXTAREA_STORAGE_KEY r = Some (c :: s) ->
  prop (main_prefix time date r) "notepad" "value" = c :: s.
Proof.
  intros Hnr Hsr. unfold main_prefix.
  assert (H0 : leaves [WALLPAPER_STORAGE_KEY]
                 ["clock"; "date"; ".video-container"; "video-background";
                  "toggle-wallpaper-btn"] r
                 (initWallpaperToggle
                    (initSidebarToggle
                       (initClock time date
                          (emit (ConsoleLog (js "DOM fully loaded and parsed")) r))))).
  { eapply leaves_trans;
      [|eapply leaves_mono; [| |apply initWallpaperToggle_leaves]; set_solver].
    eapply leaves_trans;
      [|eapply leaves_mono; [| |apply initSidebarToggle_leaves]; set_solver].
    eapply leaves_trans;
      [|eapply leaves_mono; [| |apply initClock_leaves]; set_solver].
    now repeat split. }
  generalize dependent (initWallpaperToggle
                    (initSidebarToggle
                       (initClock time date
                          (emit (ConsoleLog (js "DOM fully loaded and parsed")) r)))).
  intros r0 (Ha & _ & Hs & _).
  destruct (initTextBoxStorage_value r0 c s) as [Hval _].
  - now rewrite (has_anchors r r0 "notepad" Ha).
  - rewrite Hs; [exact Hsr|]. intros Hk. apply list_elem_of_singleton in Hk.
    discriminate Hk.
  - destruct (initKeyboardInput_leaves
                (initPasswordProtection (initTextBoxStorage r0))) as (_ & _ & _ & Hp1).
    destruct (initPasswordProtection_leaves (initTextBoxStorage r0))
      as (_ & _ & _ & Hp2).
    unfold prop in *. rewrite Hp1, Hp2 by apply not_elem_of_nil. exact Hval.
Qed.

Lemma main_notepad (h : host) (time date : jsstring) (r : page) :
  prop (final (main h time date r)) "notepad" "value"
  = prop (main_prefix time date r) "notepad" "value".
Proof.
  rewrite main_split.
  pose proof (initChecklist_keeps (main_prefix time date r)) as (_ & _ & Hp1).
  destruct (initChecklist (main_prefix time date r)) as [r2|e r2];
    cbn [and_then final] in *.
  - destruct (main_suffix_leaves h r2) as (_ & _ & _ & Hp2).
    unfold prop. rewrite Hp2, Hp1; [reflexivity | apply not_elem_of_nil |].
    rewrite !not_elem_of_cons. repeat split; try discriminate. apply not_elem_of_nil.
  - unfold prop. rewrite Hp1; [reflexivity | apply not_elem_of_nil].
Qed.

(** X19: What is typed into the notepad survives a reload: the input listener
    stores the text, and when the handler runs again on a document with a
    notepad whose store still holds that text, the notepad shows it again,
    whatever else is stored and whether or not the rest of the handler
    completes.  (An emptied notepad stores the empty string, which a reload
    does not write back.) *)
Theorem notepad_survives_reload (h : host) (p : page) (txt : jsstring) :
  has p "notepad" = true -> registered NotepadInput p = true ->
  getItem TEXTAREA_STORAGE_KEY (final (dispatch h (InputNotepad txt) p)) = Some txt
  /\ prop (final (dispatch h (InputNotepad txt) p)) "notepad" "value" = txt
  /\ (forall time date r,
        has r "notepad" = true -> getItem TEXTAREA_STORAGE_KEY r = Some txt -> txt <> [] ->
        prop (final (main h time date r)) "notepad" "value" = txt).
Proof.
  intros Hn Hr.
  assert (Hq : final (dispatch h (InputNotepad txt) p)
               = onNotepadInput (set_prop "notepad" "value" txt p)).
  { cbn [dispatch final]. unfold typed. rewrite Hn.
    assert (Hr' : registered NotepadInput (set_prop "notepad" "value" txt p) = true)
      by exact Hr.
    now rewrite Hr'. }
  assert (Hv : prop (set_prop "notepad" "value" txt p) "notepad" "value" = txt)
    by now props_tac.
  rewrite Hq.
  split; [unfold onNotepadInput; rewrite Hv; apply getItem_setItem|].
  split; [exact Hv|].
  intros time date r Hnr Hsr Hne. destruct txt as [|c s]; [done|].
  rewrite main_notepad. now apply main_prefix_notepad.
Qed.

Lemma notepad_survives_reload_witness :
  getItem TEXTAREA_STORAGE_KEY
    (final (dispatch sample_host (InputNotepad (js "buy milk"))
              (final (main sample_host (js "9:00:00 AM") (js "Mon, Jan 15, 2024")
                        (fresh_page ["notepad"] [] 0 2024)))))
  = Some (js "buy milk").
Proof.
  refine (proj1 (notepad_survives_reload sample_host _ (js "buy milk") _ _)).
  - vm_compute. reflexivity.
  - vm_compute. reflexivity.
Defined.

(** ** Keypad *)

Lemma checkPassword_short (p : page) :
  (length (prop p "passwordInput" "value") <= 8)%nat ->
  checkPassword p = emit (Alert REJECTION_MESSAGE) p.
Proof.
  intros Hlen. unfold checkPassword. rewrite getElement_optional. unfold str_eqb.
  rewrite bool_decide_eq_false_2; [now rewrite andb_false_r|].
  intros H. rewrite H in Hlen. vm_compute in Hlen. lia.
Qed.

(** X20: The keypad cannot unlock the page.  When every key appends at most
    [n <= 5] characters (one, for digit keys; four, for a key without a
    [data-key] attribute, which appends [null]) and the passcode input
    starts with at most [3 + n] characters, then after any run of clicks on
    the keypad the input holds at most [3 + n] characters, fewer than the
    accepted passcode has, and all the run has caused is rejection
    messages: it never navigates to the main page. *)
Theorem keypad_cannot_unlock (n : nat) (keys : list (option (option jsstring)))
  (p : page) :
  (n <= 5)%nat ->
  (length (prop p "passwordInput" "value") <= 3 + n)%nat ->
  Forall (fun key => match key with
                     | Some keyValue =>
                         keyValue = Some (js "backspace") \/ keyValue = Some (js "submit")
                         \/ (length (default (js "null") keyValue) <= n)%nat
                     | None => True
                     end) keys ->
  (length (prop (press_keys keys p) "passwordInput" "value") <= 3 + n)%nat
  /\ exists m, effects (press_keys keys p) = effects p ++ repeat (Alert REJECTION_MESSAGE) m.
Proof.
  intros Hn Hlen Hkeys. revert p Hlen.
  induction Hkeys as [|key keys Hkey _ IH]; intros p Hlen.
  - split; [exact Hlen|]. exists 0%nat. cbn. now rewrite app_nil_r.
  - cbn [press_keys fold_left]. fold (press_keys keys (onKeyboardClick key p)).
    assert (Hstep : (length (prop (onKeyboardClick key p) "passwordInput" "value")
                     <= 3 + n)%nat
                    /\ exists m, effects (onKeyboardClick key p)
                                 = effects p ++ repeat (Alert REJECTION_MESSAGE) m).
    { unfold onKeyboardClick. destruct key as [keyValue|].
      2:{ split; [exact Hlen|]. exists 0%nat. cbn. now rewrite app_nil_r. }
      destruct (bool_decide_reflect (keyValue = Some (js "backspace"))) as [Hb|Hb].
      { split; [|exists 0%nat; cbn; now rewrite app_nil_r].
        set (v := prop p "passwordInput" "value") in *.
        props_tac. cbn [default]. unfold id.
        rewrite removelast_firstn_len, length_take. lia. }
      destruct (bool_decide_reflect (keyValue = Some (js "submit"))) as [Hs|Hs].
      { rewrite checkPassword_short by lia. split; [exact Hlen|]. now exists 1%nat. }
      destruct Hkey as [Hk|[Hk|Hk]]; [done|done|].
      destruct (Nat.ltb_spec (length (prop p "passwordInput" "value")) 4) as [Hlt|Hge].
      - split; [|exists 0%nat; cbn; now rewrite app_nil_r].
        set (v := prop p "passwordInput" "value") in *.
        props_tac. cbn [default]. unfold id in *. rewrite length_app. lia.
      - split; [exact Hlen|]. exists 0%nat. cbn. now rewrite app_nil_r. }
    destruct Hstep as [Hlen1 (m1 & Hm1)].
    destruct (IH _ Hlen1) as [Hlen2 (m2 & Hm2)].
    split; [exact Hlen2|]. exists (m1 + m2)%nat.
    now rewrite Hm2, Hm1, repeat_app, app_assoc.
Qed.

Lemma keypad_cannot_unlock_witness :
  (length (prop (press_keys [Some (Some (js "1")); Some (Some (js "2"));
                             Some (Some (js "backspace")); Some (Some (js "submit"))]
                   (lock_page [])) "passwordInput" "value") <= 3 + 1)%nat
  /\ exists m,
       effects (press_keys [Some (Some (js "1")); Some (Some (js "2"));
                            Some (Some (js "backspace")); Some (Some (js "submit"))]
                  (lock_page []))
       = effects (lock_page []) ++ repeat (Alert REJECTION_MESSAGE) m.
Proof.
  refine (keypad_cannot_unlock 1 _ (lock_page []) _ _ _).
  - lia.
  - vm_compute. lia.
  - apply Forall_cons. split; [right; right; cbn; lia|].
    apply Forall_cons. split; [right; right; cbn; lia|].
    apply Forall_cons. split; [now left|].
    apply Forall_cons. split; [right; now left|]. constructor.
Defined.

(** ** Theme *)

Lemma is_hex_value (c : N) :
  is_hex c = true -> exists v, hex_digit_value c = Some v /\ (0 <= v <= 15)%Z.
Proof.
  unfold is_hex. destruct (hex_digit_value c) as [v|] eqn:Hv; [|discriminate].
  intros _. exists v. split; [reflexivity|].
  destruct (hex_digit_range c v Hv) as [[H ->]|[[H ->]|[H ->]]]; lia.
Qed.

(** The part of [hexToRgb] after the expansion of the short form. *)
Lemma hexToRgb_full_part (t : jsstring) :
  match Regex.exec_anchored true fullRegex t with
  | Some [r; g; b] =>
      number_text (parseInt16 r) ++ js ", " ++ number_text (parseInt16 g) ++ js ", "
      ++ number_text (parseInt16 b)
  | _ => FALLBACK_RGB
  end
  = match (match t with
           | [a; b; c; d; e; f] => Some (a, b, c, d, e, f)
           | [x; a; b; c; d; e; f] => if x =? 35 then Some (a, b, c, d, e, f) else None
           | _ => None
           end) with
    | Some (a, b, c, d, e, f) =>
        match hex_digit_value a, hex_digit_value b, hex_digit_value c,
              hex_digit_value d, hex_digit_value e, hex_digit_value f with
        | Some va, Some vb, Some vc, Some vd, Some ve, Some vf =>
            rgb_text (16 * va + vb) (16 * vc + vd) (16 * ve + vf)
        | _, _, _, _, _, _ => FALLBACK_RGB
        end
    | None => FALLBACK_RGB
    end.
Proof.
  rewrite exec_full.
  assert (Hsix : forall a b c d e f,
    (if is_hex a && is_hex b && is_hex c && is_hex d && is_hex e && is_hex f
     then number_text (parseInt16 [a; b]) ++ js ", " ++ number_text (parseInt16 [c; d])
          ++ js ", " ++ number_text (parseInt16 [e; f])
     else FALLBACK_RGB)
    = match hex_digit_value a, hex_digit_value b, hex_digit_value c,
            hex_digit_value d, hex_digit_value e, hex_digit_value f with
      | Some va, Some vb, Some vc, Some vd, Some ve, Some vf =>
          rgb_text (16 * va + vb) (16 * vc + vd) (16 * ve + vf)
      | _, _, _, _, _, _ => FALLBACK_RGB
      end).
  { intros a b c d e f. unfold is_hex.
    destruct (hex_digit_value a) as [va|] eqn:Ha; [|reflexivity].
    destruct (hex_digit_value b) as [vb|] eqn:Hb; [|reflexivity].
    destruct (hex_digit_value c) as [vc|] eqn:Hc; [|reflexivity].
    destruct (hex_digit_value d) as [vd|] eqn:Hd; [|reflexivity].
    destruct (hex_digit_value e) as [ve|] eqn:He; [|reflexivity].
    destruct (hex_digit_value f) as [vf|] eqn:Hf; [|reflexivity].
    cbn [andb].
    now rewrite (parseInt16_pair a b va vb Ha Hb), (parseInt16_pair c d vc vd Hc Hd),
      (parseInt16_pair e f ve vf He Hf). }
  destruct t as [|x1 [|x2 [|x3 [|x4 [|x5 [|x6 [|x7 [|x8 t]]]]]]]]; try reflexivity.
  - rewrite <- Hsix. now destruct (is_hex x1 && _ && _ && _ && _ && _).
  - destruct (x1 =? 35); [|reflexivity]. cbn [andb]. rewrite <- Hsix.
    now destruct (is_hex x2 && _ && _ && _ && _ && _).
Qed.

(** X21: Every colour text [hexToRgb] returns names three channels between 0
    and 255, whatever the input: a hex colour gives its channels, anything
    else the fallback. *)
Theorem hexToRgb_channels (s : jsstring) :
  exists r g b,
    (0 <= r <= 255)%Z /\ (0 <= g <= 255)%Z /\ (0 <= b <= 255)%Z
    /\ hexToRgb s = rgb_text r g b.
Proof.
  assert (Hfall : exists r g b,
            (0 <= r <= 255)%Z /\ (0 <= g <= 255)%Z /\ (0 <= b <= 255)%Z
            /\ FALLBACK_RGB = rgb_text r g b).
  { exists 253%Z, 224%Z, 71%Z. repeat split; try lia. }
  unfold hexToRgb.
  match goal with |- context [Regex.exec_anchored true fullRegex ?t] => generalize t end.
  intros t. rewrite hexToRgb_full_part.
  destruct (match t with
            | [a; b; c; d; e; f] => Some (a, b, c, d, e, f)
            | [x; a; b; c; d; e; f] => if x =? 35 then Some (a, b, c, d, e, f) else None
            | _ => None
            end) as [[[[[[a b] c] d] e] f]|]; [|exact Hfall].
  destruct (hex_digit_value a) as [va|] eqn:Ha; [|exact Hfall].
  destruct (hex_digit_value b) as [vb|] eqn:Hb; [|exact Hfall].
  destruct (hex_digit_value c) as [vc|] eqn:Hc; [|exact Hfall].
  destruct (hex_digit_value d) as [vd|] eqn:Hd; [|exact Hfall].
  destruct (hex_digit_value e) as [ve|] eqn:He; [|exact Hfall].
  destruct (hex_digit_value f) as [vf|] eqn:Hf; [|exact Hfall].
  assert (Hr : forall x v, hex_digit_value x = Some v -> (0 <= v <= 15)%Z).
  { intros x v Hx. destruct (is_hex_value x) as (v' & Hv' & Hb').
    - unfold is_hex. now rewrite Hx.
    - congruence. }
  apply Hr in Ha, Hb, Hc, Hd, He, Hf.
  exists (16 * va + vb)%Z, (16 * vc + vd)%Z, (16 * ve + vf)%Z.
  repeat split; lia.
Qed.













(** ** What the script does to its surroundings *)

Ltac effects_tac :=
  rewrite ?getElement_optional; repeat case_match;
  unfold getItem, setItem, set_prop, emit, addEventListener, setInterval;
  cbn [effects with_localStorage with_writes with_props with_rows with_cells
       with_notesEnv with_listeners with_timers with_month with_effects];
  rewrite ?Forall_app; repeat split; try assumption;
  repeat (apply Forall_cons; split); try (now apply Forall_nil); try reflexivity.

Lemma main_prefix_effects (time date : jsstring) (p : page) :
  Forall (fun e => script_effect e = true) (effects p) ->
  Forall (fun e => script_effect e = true) (effects (main_prefix time date p)).
Proof.
  intros Hp.
  assert (H0 : Forall (fun e => script_effect e = true)
                 (effects (emit (ConsoleLog (js "DOM fully loaded and parsed")) p)))
    by effects_tac.
  assert (H1 : forall q, Forall (fun e => script_effect e = true) (effects q) ->
               Forall (fun e => script_effect e = true) (effects (initClock time date q))).
  { intros q Hq. unfold initClock, updateClock. effects_tac. }
  assert (H2 : forall q, Forall (fun e => script_effect e = true) (effects q) ->
               Forall (fun e => script_effect e = true) (effects (initSidebarToggle q))).
  { intros q Hq. unfold initSidebarToggle. effects_tac. }
  assert (H3 : forall q, Forall (fun e => script_effect e = true) (effects q) ->
               Forall (fun e => script_effect e = true) (effects (initWallpaperToggle q))).
  { intros q Hq. unfold initWallpaperToggle, setWallpaperState. effects_tac. }
  assert (H4 : forall q, Forall (fun e => script_effect e = true) (effects q) ->
               Forall (fun e => script_effect e = true) (effects (initTextBoxStorage q))).
  { intros q Hq. unfold initTextBoxStorage. effects_tac. }
  assert (H5 : forall q, Forall (fun e => script_effect e = true) (effects q) ->
               Forall (fun e => script_effect e = true)
                 (effects (initPasswordProtection q))).
  { intros q Hq. unfold initPasswordProtection. effects_tac. }
  assert (H6 : forall q, Forall (fun e => script_effect e = true) (effects q) ->
               Forall (fun e => script_effect e = true) (effects (initKeyboardInput q))).
  { intros q Hq. unfold initKeyboardInput. effects_tac. }
  unfold main_prefix. apply H6, H5, H4, H3, H2, H1, H0.
Qed.

Lemma renderChecklist_effects (q : page) :
  effects (final (renderChecklist q)) = effects q.
Proof. now rewrite renderChecklist_final. Qed.

Lemma main_effects (h : host) (time date : jsstring) (p : page) :
  Forall (fun e => script_effect e = true) (effects p) ->
  Forall (fun e => script_effect e = true) (effects (final (main h time date p))).
Proof.
  intros Hp. rewrite main_split.
  pose proof (main_prefix_effects time date p Hp) as H1.
  assert (H2 : effects (final (initChecklist (main_prefix time date p)))
               = effects (main_prefix time date p)).
  { unfold initChecklist. rewrite !getElement_optional.
    destruct (negb _ || negb _); [reflexivity|].
    pose proof (renderChecklist_effects (main_prefix time date p)) as H.
    now destruct (renderChecklist (main_prefix time date p)). }
  rewrite <- H2 in H1.
  destruct (initChecklist (main_prefix time date p)) as [p2|e p2];
    cbn [and_then final] in *; [|exact H1].
  unfold main_suffix.
  destruct (generateCalendar_frame h p2) as (_ & _ & _ & _ & _ & _ & _ & H3).
  rewrite <- H3 in H1.
  destruct (generateCalendar h p2) as [p3|e p3]; cbn [and_then final] in *; [|exact H1].
  unfold initCalendarNavigationListeners, initThemeSelector, applyColor. effects_tac.
Qed.

Lemma dispatch_effects (h : host) (e : event) (p : page) :
  Forall (fun e => script_effect e = true) (effects p) ->
  Forall (fun e => script_effect e = true) (effects (final (dispatch h e p))).
Proof.
  intros Hp.
  assert (Hsave : forall v q, effects q = effects p ->
            effects (final (renderChecklist (saveChecklist v q))) = effects p).
  { intros v q Hq. now rewrite renderChecklist_effects. }
  destruct e as [time date| | |txt|txt| |key|txt|key|n|n|i txt| | |v|v|msg];
    cbn [dispatch final].
  - unfold updateClock. effects_tac.
  - unfold onHamburgerClick. effects_tac.
  - unfold onWallpaperClick, setWallpaperState. effects_tac.
  - unfold typed, onNotepadInput. effects_tac.
  - unfold typed. effects_tac.
  - unfold checkPassword. effects_tac.
  - unfold onKeyboardClick, checkPassword. effects_tac.
  - unfold typed. effects_tac.
  - destruct (registered _ _); [|exact Hp]. unfold onInputBoxKeypress, addItem.
    repeat case_match; try exact Hp. now rewrite Hsave.
  - destruct (rows p !! n); [|exact Hp]. unfold toggleItem.
    repeat case_match; try exact Hp. now rewrite Hsave.
  - destruct (rows p !! n); [|exact Hp]. unfold deleteItem.
    repeat case_match; try exact Hp. now rewrite Hsave.
  - unfold onDayInput. effects_tac.
  - destruct (registered _ _); [|exact Hp]. rewrite navigateMonth_stepped.
    destruct (generateCalendar_frame h (stepped (-1) p)) as (_ & _ & _ & _ & _ & _ & _ & H).
    rewrite H. unfold stepped. effects_tac.
  - destruct (registered _ _); [|exact Hp]. rewrite navigateMonth_stepped.
    destruct (generateCalendar_frame h (stepped 1 p)) as (_ & _ & _ & _ & _ & _ & _ & H).
    rewrite H. unfold stepped. effects_tac.
  - unfold onColorEvent, applyColor. effects_tac.
  - unfold onColorEvent, applyColor. effects_tac.
  - unfold onPlayRejected. effects_tac.
Qed.

(** X24: All the script ever does to its surroundings, whatever is stored,
    whatever the user does and whenever the host rejects a start of the
    video: the log line of the handler, the rejection message, the
    navigation to the main page, the start of the video and the console
    warning of a rejected start.  In particular [getElement] never reports
    a missing element, since every call passes [required = false], and the
    script navigates nowhere but to the main page. *)
Theorem effects_are_few (h : host) (p : page) :
  reachable h p ->
  Forall (fun e => script_effect e = true) (effects p)
  /\ (forall msg, ConsoleError msg ∉ effects p)
  /\ (forall url, Navigate url ∈ effects p -> url = js "main.html").
Proof.
  intros Hr.
  assert (H : Forall (fun e => script_effect e = true) (effects p)).
  { induction Hr as [ids stored month year time date | p e Hr IH].
    - apply main_effects. apply Forall_nil. exact I.
    - now apply dispatch_effects. }
  split; [exact H|]. rewrite Forall_forall in H. split.
  - intros msg Hin. apply H in Hin. discriminate Hin.
  - intros url Hin. apply H in Hin. cbn in Hin. unfold str_eqb in Hin.
    now apply bool_decide_eq_true in Hin.
Qed.

Lemma effects_are_few_witness :
  Forall (fun e => script_effect e = true)
    (effects
       (final (dispatch sample_host SubmitPassword
                 (final (dispatch sample_host (InputPassword (js "1234"))
                           (final (main sample_host (js "9:00:00 AM")
                                     (js "Mon, Jan 15, 2024")
                                     (fresh_page ["passwordInput"; "keyboard"] [] 0
                                        2024))))))))
  /\ (forall msg, ConsoleError msg ∉ effects january_page).
Proof.
  split.
  - refine (proj1 (effects_are_few sample_host _ _)).
    apply reach_event, reach_event, reach_loaded.
  - refine (proj1 (proj2 (effects_are_few sample_host january_page _))).
    apply reach_loaded.
Defined.



